(** * Post-retrieval pipeline of personal-ai-kb: a shallow embedding

    The development follows [backend/rag/rag.go] (re-ranking, relevance
    filtering, prompt construction) and [backend/api/server.go]
    (citation extraction, attribution grouping, the classification cache
    and its worker pool, response assembly), followed by the ingestion
    in batches of [rag.go] and the file administration of [server.go]
    (authorisation, deletion, the naming of uploads and the reading
    back of the upload directory).

    Go strings are byte sequences: they are modelled by [string], whose
    literals are the UTF-8 bytes of the source text.  Go [int] is [Z].
    Go maps are [gmap]. *)

From Stdlib Require Import ZArith Lia List Ascii String Sorting.Sorted Permutation.
From stdpp Require Import base gmap strings list fin_maps sorting.

Local Open Scope string_scope.
Local Open Scope Z_scope.

#[local] Arguments String.append !s1 s2 : simpl nomatch.

(** ** The fragment of Go's [strings] package used by the program *)

Module GoStrings.

(** [len(s)]: the number of bytes. *)
Definition len (s : string) : Z := Z.of_nat (String.length s).

(** [strings.HasPrefix(s, prefix)]. *)
Fixpoint HasPrefix (s prefix : string) {struct prefix} : bool :=
  match prefix, s with
  | EmptyString, _ => true
  | String p prefix', String c s' => if Ascii.eqb c p then HasPrefix s' prefix' else false
  | String _ _, EmptyString => false
  end.

(** [strings.Contains(s, substr)]: [substr] occurs at some byte offset. *)
Fixpoint Contains (s substr : string) : bool :=
  HasPrefix s substr ||
  match s with
  | EmptyString => false
  | String _ s' => Contains s' substr
  end.

(** [strings.ReplaceAll(s, old, "")] for a one-byte [old]: every
    occurrence of the byte is dropped. *)
Fixpoint removeByte (old : ascii) (s : string) : string :=
  match s with
  | EmptyString => EmptyString
  | String c s' => if Ascii.eqb c old then removeByte old s' else String c (removeByte old s')
  end.

(** [s[:n]] for [n <= len(s)] (the program guards every such slice). *)
Fixpoint take (n : nat) (s : string) : string :=
  match n, s with
  | O, _ => EmptyString
  | S n', String c s' => String c (take n' s')
  | S _, EmptyString => EmptyString
  end.

(** [s[n:]]. *)
Fixpoint drop (n : nat) (s : string) : string :=
  match n, s with
  | O, _ => s
  | S n', String _ s' => drop n' s'
  | S _, EmptyString => EmptyString
  end.

(** A byte occurs in a string. *)
Fixpoint hasByte (c : ascii) (s : string) : bool :=
  match s with
  | EmptyString => false
  | String d s' => Ascii.eqb d c || hasByte c s'
  end.

End GoStrings.
Import GoStrings.


(** ** Restriction-marker test ([server.go], [checkPublicFormInContent]) *)

Definition SP : ascii := " "%char.
Definition NL : ascii := "010"%char.
Definition CR : ascii := "013"%char.
Definition TAB : ascii := "009"%char.

Definition checkPublicFormInContent (content : string) : bool :=
  if String.eqb content "" then false
  else if Contains content "公开形式" then true
  else
    let containsNotPublicFull := Contains content "公开形式：不予公开" in
    let containsApplyPublicFull := Contains content "公开形式：依申请公开" in
    let containsNotPublicFull2 := Contains content "公开形式：不公开" in
    let containsNotPublicHalf := Contains content "公开形式:不予公开" in
    let containsApplyPublicHalf := Contains content "公开形式:依申请公开" in
    let containsNotPublicHalf2 := Contains content "公开形式:不公开" in
    if containsNotPublicFull || containsApplyPublicFull || containsNotPublicFull2 ||
       containsNotPublicHalf || containsApplyPublicHalf || containsNotPublicHalf2
    then true
    else
      let normalizedContent := removeByte SP content in
      let normalizedContent := removeByte NL normalizedContent in
      let normalizedContent := removeByte CR normalizedContent in
      let normalizedContent := removeByte TAB normalizedContent in
      if Contains normalizedContent "公开形式" then true
      else
        let containsNotPublicFull := Contains normalizedContent "公开形式：不予公开" in
        let containsApplyPublicFull := Contains normalizedContent "公开形式：依申请公开" in
        let containsNotPublicFull2 := Contains normalizedContent "公开形式：不公开" in
        let containsNotPublicHalf := Contains normalizedContent "公开形式:不予公开" in
        let containsApplyPublicHalf := Contains normalizedContent "公开形式:依申请公开" in
        let containsNotPublicHalf2 := Contains normalizedContent "公开形式:不公开" in
        containsNotPublicFull || containsApplyPublicFull || containsNotPublicFull2 ||
        containsNotPublicHalf || containsApplyPublicHalf || containsNotPublicHalf2.

(** The reference behaviour the marker test is compared with: strip the
    four white-space bytes, then look for the bare marker. *)
Definition stripWhitespace (content : string) : string :=
  removeByte TAB (removeByte CR (removeByte NL (removeByte SP content))).

Definition marker : string := "公开形式".

Definition containsMarkerNormalized (content : string) : bool :=
  Contains (stripWhitespace content) marker.

(** ** Citation markers ([rag.go], [getCircleNumber]; [server.go],
    [extractUsedAnnotations]) *)

Definition circleNumbers : list string :=
  ["①"; "②"; "③"; "④"; "⑤"; "⑥"; "⑦"; "⑧"; "⑨"; "⑩"].

(** [fmt.Sprintf("%d", n)] for the passage numbers the program prints. *)
Definition digitChar (d : Z) : ascii := ascii_of_N (Z.to_N (48 + d)).

Fixpoint itoaPos (fuel : nat) (n : Z) (acc : string) : string :=
  match fuel with
  | O => acc
  | S fuel' =>
      let acc' := String (digitChar (n mod 10)) acc in
      if n / 10 =? 0 then acc' else itoaPos fuel' (n / 10) acc'
  end.

Definition itoa (n : Z) : string :=
  if n <? 0 then String "-"%char (itoaPos (Z.to_nat (- n)) (- n) "")
  else itoaPos (S (Z.to_nat n)) n "".

Definition getCircleNumber (n : Z) : string :=
  if (1 <=? n) && (n <=? Z.of_nat (List.length circleNumbers))
  then nth (Z.to_nat (n - 1)) circleNumbers ""
  else "(" ++ itoa n ++ ")".

(** The loop [for i, circleNum := range circleNumbers]: [i] is the
    0-based position of [circleNum]. *)
Fixpoint markUsed (answer : string) (i : Z) (nums : list string)
    (used : gmap Z bool) : gmap Z bool :=
  match nums with
  | [] => used
  | circleNum :: rest =>
      markUsed answer (i + 1) rest
        (if Contains answer circleNum then <[i + 1 := true]> used else used)
  end.

Definition extractUsedAnnotations (answer : string) : gmap Z bool :=
  markUsed answer 0 circleNumbers ∅.

(** Every marker is the three bytes [E2 91 x], with [x] = [A0] for ①
    up to [A9] for ⑩. *)
Definition circled (x : ascii) : string :=
  String "226"%char (String "145"%char (String x "")).

Definition circledByte (k : Z) : ascii := ascii_of_N (Z.to_N (159 + k)).

(** [usedIndices[n]]: a missing key reads as [false]. *)
Definition isUsed (used : gmap Z bool) (n : Z) : bool :=
  match used !! n with Some b => b | None => false end.

(** ** UTF-8, as Go's [unicode/utf8] decodes and encodes it *)

Module Utf8.

Definition RuneError : Z := 65533.
Definition MaxRune : Z := 1114111.

Definition byteVal (c : ascii) : Z := Z.of_N (N_of_ascii c).
Definition byteOf (n : Z) : ascii := ascii_of_N (Z.to_N n).

(** [utf8.DecodeRuneInString]: the first rune of [s] and its width in
    bytes; a malformed or truncated sequence yields [(RuneError, 1)]. *)
Definition DecodeRuneInString (s : string) : Z * nat :=
  match s with
  | EmptyString => (RuneError, 0%nat)
  | String c0 s1 =>
      let b0 := byteVal c0 in
      if b0 <? 128 then (b0, 1%nat)
      else if (b0 <? 194) || (244 <? b0) then (RuneError, 1%nat)
      else
        let sz := if b0 <? 224 then 2%nat else if b0 <? 240 then 3%nat else 4%nat in
        let lo := if b0 =? 224 then 160 else if b0 =? 240 then 144 else 128 in
        let hi := if b0 =? 237 then 159 else if b0 =? 244 then 143 else 191 in
        if (String.length s <? sz)%nat then (RuneError, 1%nat)
        else
          match s1 with
          | EmptyString => (RuneError, 1%nat)
          | String c1 s2 =>
              let b1 := byteVal c1 in
              if (b1 <? lo) || (hi <? b1) then (RuneError, 1%nat)
              else if (sz <=? 2)%nat then ((b0 - 192) * 64 + (b1 - 128), 2%nat)
              else
                match s2 with
                | EmptyString => (RuneError, 1%nat)
                | String c2 s3 =>
                    let b2 := byteVal c2 in
                    if (b2 <? 128) || (191 <? b2) then (RuneError, 1%nat)
                    else if (sz <=? 3)%nat
                    then ((b0 - 224) * 4096 + (b1 - 128) * 64 + (b2 - 128), 3%nat)
                    else
                      match s3 with
                      | EmptyString => (RuneError, 1%nat)
                      | String c3 _ =>
                          let b3 := byteVal c3 in
                          if (b3 <? 128) || (191 <? b3) then (RuneError, 1%nat)
                          else ((b0 - 240) * 262144 + (b1 - 128) * 4096 +
                                (b2 - 128) * 64 + (b3 - 128), 4%nat)
                      end
                end
          end
  end.

(** [[]rune(s)] and [for _, r := range s]: decode at the current offset,
    then skip the remaining bytes of the rune just read. *)
Fixpoint runesFrom (skip : nat) (s : string) : list Z :=
  match s with
  | EmptyString => []
  | String _ s' =>
      match skip with
      | S k => runesFrom k s'
      | O => let '(r, w) := DecodeRuneInString s in r :: runesFrom (Nat.pred w) s'
      end
  end.

Definition runes (s : string) : list Z := runesFrom 0 s.

(** A rune that [utf8.EncodeRune] writes as itself. *)
Definition validRune (r : Z) : bool :=
  (0 <=? r) && (r <=? MaxRune) && negb ((55296 <=? r) && (r <=? 57343)).

(** [string(r)] for a rune [r]: anything that is not a Unicode scalar
    value is written as U+FFFD. *)
Definition EncodeRune (r : Z) : string :=
  let r := if validRune r then r else RuneError in
  if r <? 128 then String (byteOf r) ""
  else if r <? 2048 then
    String (byteOf (192 + r / 64)) (String (byteOf (128 + r mod 64)) "")
  else if r <? 65536 then
    String (byteOf (224 + r / 4096))
      (String (byteOf (128 + (r / 64) mod 64)) (String (byteOf (128 + r mod 64)) ""))
  else
    String (byteOf (240 + r / 262144))
      (String (byteOf (128 + (r / 4096) mod 64))
         (String (byteOf (128 + (r / 64) mod 64)) (String (byteOf (128 + r mod 64)) ""))).

(** [string(rs)] for a rune slice. *)
Fixpoint stringOfRunes (rs : list Z) : string :=
  match rs with
  | [] => ""
  | r :: rs' => EncodeRune r ++ stringOfRunes rs'
  end.

(** Well-formed UTF-8: decoding and re-encoding gives the same bytes. *)
Definition wellFormed (s : string) : Prop := stringOfRunes (runes s) = s.

End Utf8.
Import Utf8.

(** ** Case folding

    [strings.ToLower] folds through the Unicode case tables, which are
    no part of the program.  The pipeline below takes the function as a
    parameter.  [GoCase.ToLower] is the algorithm of Go's [strings]
    package over a given rune mapping; [lowerASCII], the instance used on
    concrete inputs, folds the ASCII letters only and so agrees with
    [strings.ToLower] on text whose only cased letters are ASCII. *)

Module GoCase.

Fixpoint isASCII (s : string) : bool :=
  match s with
  | EmptyString => true
  | String c s' => (byteVal c <? 128) && isASCII s'
  end.

Definition lowerByte (c : ascii) : ascii :=
  let b := byteVal c in
  if (65 <=? b) && (b <=? 90) then byteOf (b + 32) else c.

Fixpoint lowerBytes (s : string) : string :=
  match s with
  | EmptyString => EmptyString
  | String c s' => String (lowerByte c) (lowerBytes s')
  end.

(** [strings.Map]: every rune is replaced by its image, a negative image
    drops the rune, and a byte that is no UTF-8 is read as U+FFFD. *)
Fixpoint mapRunes (mapping : Z -> Z) (rs : list Z) : string :=
  match rs with
  | [] => ""
  | c :: rs' =>
      let r := mapping c in
      (if r <? 0 then "" else EncodeRune r) ++ mapRunes mapping rs'
  end.

Definition Map (mapping : Z -> Z) (s : string) : string := mapRunes mapping (runes s).

(** [strings.ToLower]: bytewise on ASCII text, through [unicode.ToLower]
    otherwise. *)
Definition ToLower (unicodeToLower : Z -> Z) (s : string) : string :=
  if isASCII s then lowerBytes s else Map unicodeToLower s.

End GoCase.

(** A case table that folds the ASCII capitals and nothing else. *)
Definition foldASCII (r : Z) : Z :=
  if (65 <=? r) && (r <=? 90) then r + 32 else r.

Definition lowerASCII (s : string) : string := GoCase.ToLower foldASCII s.

(** ** Retrieved passages ([schema.Document]) *)

(** A metadata value is a string or something else; the program only
    ever reads metadata through the type assertion [.(string)]. *)
Inductive MetaValue : Type :=
| MetaString (s : string)
| MetaOther.

Record Document : Type := mkDocument {
  PageContent : string;
  Metadata : gmap string MetaValue
}.

(** [v, ok := doc.Metadata[key].(string)]. *)
Definition metaString (d : Document) (key : string) : option string :=
  match Metadata d !! key with
  | Some (MetaString s) => Some s
  | _ => None
  end.

(** [m[k]] on a [map[string]bool]: a missing key reads as [false]. *)
Definition lookupBool (m : gmap string bool) (k : string) : bool :=
  match m !! k with Some b => b | None => false end.

Definition setOf (keys : list string) : gmap string bool :=
  list_to_map (map (fun k => (k, true)) keys).

(** ** Re-ranking and relevance filtering ([rag.go]) *)

Section Rag.

(** [strings.ToLower]. *)
Variable ToLower : string -> string.

(** The stop-word table of [reRankResults]. *)
Definition rerankStopWords : gmap string bool :=
  setOf ["的"; "有"; "几"; "条"; "是"; "在"; "和"; "或"; "与"].

(** The stop-word table of [filterRelevantResults]. *)
Definition filterStopWords : gmap string bool :=
  setOf ["的"; "有"; "几"; "条"; "是"; "在"; "和"; "或"; "与"; "什么";
         "怎么"; "如何"; "哪些"; "？"; "?"; "："; ":"; "，"; ","; "。"; "."; "！"; "!"].

(** [for _, r := range phrase { if stopWords[string(r)] ... }]. *)
Definition hasStopWord (stopWords : gmap string bool) (phrase : string) : bool :=
  existsb (fun r => lookupBool stopWords (EncodeRune r)) (runes phrase).

(** [string(runes[i : i+length])]. *)
Definition phraseAt (rs : list Z) (i length : nat) : string :=
  stringOfRunes (firstn length (skipn i rs)).

(** The inner loop [for length := 2; length <= 4 && i+length <= len(runes)]. *)
Definition keywordsAt (rs : list Z) (i : nat) : list string :=
  flat_map
    (fun length =>
       if (i + length <=? List.length rs)%nat then
         let phrase := phraseAt rs i length in
         if hasStopWord rerankStopWords phrase then [] else [phrase]
       else [])
    [2%nat; 3%nat; 4%nat].

(** The outer loop [for i := 0; i < len(runes)-1; i++], then the
    fallback to the whole question. *)
Definition extractKeywords (lowerQuestion : string) : list string :=
  let rs := runes lowerQuestion in
  let keywords := flat_map (keywordsAt rs) (seq 0 (List.length rs - 1)) in
  match keywords with
  | [] => [lowerQuestion]
  | _ => keywords
  end.

(** The question with every stop-word rune removed. *)
Definition phraseWithoutStopWords (lowerQuestion : string) : string :=
  fold_left
    (fun acc r =>
       let char := EncodeRune r in
       if lookupBool rerankStopWords char then acc else acc ++ char)
    (runes lowerQuestion) "".

(** The test of the keyword loop: the keyword occurs in the passage,
    verbatim or once spaces are removed on both sides. *)
Definition keywordMatches (lowerContent keyword : string) : bool :=
  let keywordPattern := removeByte SP keyword in
  let contentNoSpace := removeByte SP lowerContent in
  Contains contentNoSpace keywordPattern || Contains lowerContent keyword.

(** One round of the keyword loop: the running score and the number
    of keywords matched so far. *)
Definition matchKeyword (lowerContent : string) (st : Z * Z) (keyword : string) : Z * Z :=
  let '(score, matchedKeywords) := st in
  if keywordMatches lowerContent keyword then
    let score := score + 20 in
    let matchedKeywords := matchedKeywords + 1 in
    if HasPrefix lowerContent keyword || Contains lowerContent (keyword ++ " ")
    then (score + 10, matchedKeywords)
    else (score, matchedKeywords)
  else (score, matchedKeywords).

(** The score of a passage before the rank of the passage is
    subtracted. *)
Definition originalScore (lowerQuestion : string) (keywords : list string)
    (d : Document) : Z :=
  let fullPhrase := lowerQuestion in
  let lowerContent := ToLower (PageContent d) in
  let score := 0 in
  let score := if Contains lowerContent fullPhrase then score + 100 else score in
  let phrase := phraseWithoutStopWords lowerQuestion in
  let contentNoSpace := removeByte SP lowerContent in
  let score :=
    if negb (String.eqb phrase "") &&
       (Contains lowerContent phrase || Contains contentNoSpace phrase)
    then score + 80 else score in
  let '(score, matchedKeywords) :=
    fold_left (matchKeyword lowerContent) keywords (score, 0) in
  if (matchedKeywords =? Z.of_nat (List.length keywords)) &&
     (0 <? Z.of_nat (List.length keywords))
  then score + 50 else score.



Record scoredDoc : Type := mkScoredDoc {
  doc : Document;
  score : Z;
  index : Z
}.

(** [scoredDocs[i] = scoredDoc{doc, score - i, i}] for [i] counting from
    [base]. *)
Fixpoint scoreAll (lowerQuestion : string) (keywords : list string)
    (base : Z) (allResults : list Document) : list scoredDoc :=
  match allResults with
  | [] => []
  | d :: rest =>
      mkScoredDoc d (originalScore lowerQuestion keywords d - base) base
      :: scoreAll lowerQuestion keywords (base + 1) rest
  end.

(** The inner loop of the sort for a fixed [i]: [p] is [scoredDocs[i]],
    the list is [scoredDocs[i+1:]]; a later entry with a strictly higher
    score is swapped into position [i]. *)
Fixpoint sortPass (p : scoredDoc) (rest : list scoredDoc) : scoredDoc * list scoredDoc :=
  match rest with
  | [] => (p, [])
  | x :: rest' =>
      if score p <? score x
      then let '(m, out) := sortPass x rest' in (m, p :: out)
      else let '(m, out) := sortPass p rest' in (m, x :: out)
  end.

(** The outer loop of the sort; [fuel] bounds the number of positions. *)
Fixpoint sortLoop (fuel : nat) (docs : list scoredDoc) : list scoredDoc :=
  match fuel, docs with
  | S fuel', p :: rest =>
      let '(m, rest') := sortPass p rest in m :: sortLoop fuel' rest'
  | _, _ => docs
  end.

Definition sortByScore (docs : list scoredDoc) : list scoredDoc :=
  sortLoop (List.length docs) docs.

(** [for i := 0; i < len(scoredDocs) && len(result) < topK; i++]: keep
    the entries whose original score is positive, [room] more at most. *)
Fixpoint selectPositive (room : nat) (docs : list scoredDoc) : list Document :=
  match room, docs with
  | O, _ => []
  | _, [] => []
  | S room', sd :: rest =>
      let originalScore := score sd + index sd in
      if 0 <? originalScore then doc sd :: selectPositive room' rest
      else selectPositive room rest
  end.

(** [reRankResults]; [None] is the run-time panic of
    [make([]schema.Document, 0, topK)] on a negative capacity. *)
Definition reRankResults (question : string) (allResults : list Document)
    (topK : Z) : option (list Document) :=
  if Z.of_nat (List.length allResults) <=? topK then Some allResults
  else
    let lowerQuestion := ToLower question in
    let keywords := extractKeywords lowerQuestion in
    let scoredDocs := sortByScore (scoreAll lowerQuestion keywords 0 allResults) in
    if topK <? 0 then None
    else
      let result := selectPositive (Z.to_nat topK) scoredDocs in
      match result with
      | _ :: _ => Some result
      | [] => Some (firstn (Z.to_nat topK) allResults)
      end.

(** One step of the core-keyword scan: the keywords found so far and
    the run being accumulated. *)
Definition scanRune (st : list string * string) (r : Z) : list string * string :=
  let '(coreKeywords, currentKeyword) := st in
  let char := EncodeRune r in
  if negb (lookupBool filterStopWords char) && negb (String.eqb char " ")
  then (coreKeywords, currentKeyword ++ char)
  else
    ((if (2 <=? String.length currentKeyword)%nat
      then (coreKeywords ++ [currentKeyword])%list else coreKeywords), "").

Definition coreKeywordsOf (lowerQuestion : string) : list string :=
  let '(coreKeywords, currentKeyword) :=
    fold_left scanRune (runes lowerQuestion) ([], "") in
  if (2 <=? String.length currentKeyword)%nat
  then (coreKeywords ++ [currentKeyword])%list else coreKeywords.

(** A passage is kept when it contains a core keyword, either verbatim
    or once spaces are removed on both sides. *)
Definition hasRelevantKeyword (coreKeywords : list string) (d : Document) : bool :=
  let lowerContent := ToLower (PageContent d) in
  let contentNoSpace := removeByte SP lowerContent in
  existsb
    (fun keyword =>
       let keywordNoSpace := removeByte SP keyword in
       Contains lowerContent keyword || Contains contentNoSpace keywordNoSpace)
    coreKeywords.

Definition filterRelevantResults (question : string) (results : list Document)
    : list Document :=
  match results with
  | [] => results
  | _ :: _ =>
      let lowerQuestion := ToLower question in
      let coreKeywords := coreKeywordsOf lowerQuestion in
      match coreKeywords with
      | [] => results
      | _ :: _ =>
          let filtered := List.filter (hasRelevantKeyword coreKeywords) results in
          match filtered with
          | [] =>
              let maxKeep := 3%nat in
              let maxKeep :=
                if (List.length results <? maxKeep)%nat then List.length results else maxKeep in
              firstn maxKeep results
          | _ :: _ => filtered
          end
      end
  end.

End Rag.

(** ** Prompt construction ([rag.go], [buildPrompt]) *)

Definition nl : string := String NL "".
Definition dq : string := String "034"%char "".

(** The instructions written before the passages. *)
Definition promptHeader : string :=
  String.concat "" [
    "你是一个专业的AI助手。请基于以下上下文信息，**深入思考和分析**后回答问题。" ++ nl ++ nl;
    "**核心要求**：" ++ nl;
    "1. **严格相关性检查**：只使用与问题真正相关的文档片段。如果某个文档片段与问题无关，请忽略它，不要使用其中的信息" ++ nl;
    "2. **必须进行思考和总结**：不要直接复制粘贴文档片段的内容，而是要对信息进行理解、分析和组织" ++ nl;
    "3. **回答要有逻辑性**：将多个文档片段的信息整合成连贯、有条理的回答" ++ nl;
    "4. **回答要完整**：如果问题涉及多个方面，要全面回答，不要遗漏重要信息" ++ nl;
    "5. **只基于提供的上下文信息回答问题**，不要编造或推测信息" ++ nl;
    "6. **如果上下文中没有相关信息或所有文档片段都与问题无关**，请明确说明" ++ dq ++ "根据提供的上下文，我无法找到相关信息" ++ dq ++ "，不要强行使用不相关的片段" ++ nl;
    "6. **必须遵守**：在回答中，每当你引用或提到文档片段中的内容时，必须在引用内容的末尾立即添加对应的文档编号标注" ++ nl;
    "   - 引用文档片段1的内容，在引用内容末尾添加①" ++ nl;
    "   - 引用文档片段2的内容，在引用内容末尾添加②" ++ nl;
    "   - 引用文档片段3的内容，在引用内容末尾添加③" ++ nl;
    "   - 以此类推" ++ nl;
    "   - 如果一段内容来自多个文档片段，可以添加多个编号，如①②" ++ nl;
    "   - **重要**：直接回答问题，不要在答案中添加" ++ dq ++ "根据文档片段X" ++ dq ++ "、" ++ dq ++ "文档片段X提到" ++ dq ++ "等前缀" ++ nl;
    "   - **示例**：如果文档片段1提到" ++ dq ++ "培训要求包括3项" ++ dq ++ "，你的回答应该是：" ++ dq ++ "培训要求包括3项①" ++ dq ++ "，而不是" ++ dq ++ "根据文档片段1，培训要求包括3项①" ++ dq ++ nl;
    "   - **重要**：每个引用都必须有标注，没有标注的引用是不被允许的" ++ nl ++ nl;
    "**回答格式要求**：" ++ nl;
    "- 回答应该是完整的、有逻辑的段落或列表，而不是简单的文档片段拼接" ++ nl;
    "- 如果问题需要多个方面的回答，请分点或分段说明" ++ nl;
    "- 回答要自然流畅，读起来像是一个专业助手在回答问题" ++ nl ++ nl;
    "上下文信息：" ++ nl
  ].

(** The instructions written after the question. *)
Definition promptFooter : string :=
  String.concat "" [
    nl ++ nl ++ "**请仔细阅读上述上下文信息，深入思考和分析后，组织成完整、有条理的回答。**" ++ nl;
    nl ++ "**重要提示**：" ++ nl;
    "- **首先检查每个文档片段是否与问题相关**：只使用真正相关的片段，忽略不相关的片段" ++ nl;
    "- 不要直接复制粘贴文档片段，要对信息进行理解和整合" ++ nl;
    "- 回答要完整、有逻辑，读起来像是一个专业助手在回答问题" ++ nl;
    "- 每当你引用文档片段中的任何内容时，必须在引用内容的末尾添加对应的文档编号标注（①、②、③等）" ++ nl;
    "- 如果没有添加标注，你的回答将被视为不完整" ++ nl;
    "- **重要**：直接回答问题，不要添加" ++ dq ++ "根据文档片段X" ++ dq ++ "、" ++ dq ++ "文档片段X提到" ++ dq ++ "等前缀" ++ nl;
    "- 示例格式：" ++ dq ++ "培训要求包括：提供系统管理员培训不少于3天①" ++ dq ++ "（正确）" ++ nl;
    "- 错误示例：" ++ dq ++ "根据文档片段1，培训要求包括：提供系统管理员培训不少于3天①" ++ dq ++ "（错误，不要添加前缀）" ++ nl;
    "- **如果所有文档片段都与问题无关，请明确说明" ++ dq ++ "根据提供的上下文，我无法找到相关信息" ++ dq ++ "，不要强行使用不相关的信息**" ++ nl;
    nl ++ "现在请**首先检查每个文档片段的相关性**，然后**深入思考和分析**真正相关的上下文信息，最后组织成完整、有条理的回答，确保所有引用都包含文档编号标注：" ++ nl
  ].

Definition maxDocLength : nat := 800.

(** The loop [for i, doc := range results] of [buildPrompt]: passage
    [i] (0-based) is headed by its number [i+1] and by the marker
    [getCircleNumber(i+1)]. *)
Definition promptPassage (i : Z) (d : Document) : string :=
  let docNumber := getCircleNumber (i + 1) in
  let content := PageContent d in
  let content :=
    if (maxDocLength <? String.length content)%nat
    then take maxDocLength content ++ "..." else content in
  (nl ++ "[文档片段 " ++ itoa (i + 1) ++ "] " ++ docNumber ++ nl) ++
  content ++ nl ++
  match metaString d "source" with
  | Some source => "来源: " ++ source ++ nl
  | None => ""
  end.

Fixpoint promptPassages (i : Z) (results : list Document) : string :=
  match results with
  | [] => ""
  | d :: rest => promptPassage i d ++ promptPassages (i + 1) rest
  end.

Definition buildPrompt (question : string) (results : list Document) : string :=
  promptHeader ++ promptPassages 0 results ++
  nl ++ "问题: " ++ question ++ promptFooter.

(** ** The query ([rag.go], [Query] and [QueryWithResults]) *)

Record QueryResult : Type := mkQueryResult {
  Answer : string;
  Results : list Document
}.

(** What [llm.Generate] does under the 120 s deadline. *)
Inductive GenerateResult : Type :=
| GenerateOk (answer : string)
| GenerateDeadlineExceeded
| GenerateFailed.

Inductive QueryError : Type :=
| ErrSearchFailed
| ErrGenerationTimeout
| ErrGenerationFailed
| ErrPanic.

Definition noResultsAnswer : string := "抱歉，我在知识库中没有找到相关信息。".

Section Query.

Variable ToLower : string -> string.

(** [r.store.Search(ctx, question, embedder, searchTopK)]; [None] is an
    error of the store. *)
Variable Search : string -> Z -> option (list Document).

(** [r.llm.Generate(llmCtx, prompt)]. *)
Variable Generate : string -> GenerateResult.

(** [searchTopK]: three times [topK], kept within 15..50. *)
Definition searchTopKOf (topK : Z) : Z :=
  let searchTopK := topK * 3 in
  let searchTopK := if searchTopK <? 15 then 15 else searchTopK in
  if 50 <? searchTopK then 50 else searchTopK.

(** The passages handed to the prompt: re-ranked, then filtered. *)
Definition selectPassages (topK : Z) (question : string)
    (allResults : list Document) : option (list Document) :=
  match reRankResults ToLower question allResults topK with
  | None => None
  | Some results => Some (filterRelevantResults ToLower question results)
  end.

Definition QueryWithResults (topK : Z) (question : string) : QueryResult + QueryError :=
  match Search question (searchTopKOf topK) with
  | None => inr ErrSearchFailed
  | Some allResults =>
      match selectPassages topK question allResults with
      | None => inr ErrPanic
      | Some results =>
          match results with
          | [] => inl (mkQueryResult noResultsAnswer [])
          | _ :: _ =>
              let prompt := buildPrompt question results in
              match Generate prompt with
              | GenerateOk answer => inl (mkQueryResult answer results)
              | GenerateDeadlineExceeded => inr ErrGenerationTimeout
              | GenerateFailed => inr ErrGenerationFailed
              end
          end
      end
  end.

(** [Query] runs the same pipeline and returns the answer alone. *)
Definition Query (topK : Z) (question : string) : string + QueryError :=
  match Search question (searchTopKOf topK) with
  | None => inr ErrSearchFailed
  | Some allResults =>
      match selectPassages topK question allResults with
      | None => inr ErrPanic
      | Some results =>
          match results with
          | [] => inl noResultsAnswer
          | _ :: _ =>
              match Generate (buildPrompt question results) with
              | GenerateOk answer => inl answer
              | GenerateDeadlineExceeded => inr ErrGenerationTimeout
              | GenerateFailed => inr ErrGenerationFailed
              end
          end
      end
  end.

End Query.

(** ** File names ([path/filepath], [strings.Index], [strings.Split]) *)

Module GoPaths.

Definition isSep (c : ascii) : bool := Ascii.eqb c "/"%char.

Fixpoint dropSeps (l : list ascii) : list ascii :=
  match l with
  | c :: l' => if isSep c then dropSeps l' else l
  | [] => []
  end.

Fixpoint untilSep (l : list ascii) : list ascii :=
  match l with
  | c :: l' => if isSep c then [] else c :: untilSep l'
  | [] => []
  end.

(** [filepath.Base]: the last element of the path, trailing slashes
    removed; ["."] for the empty path and ["/"] for a path of slashes. *)
Definition Base (path : string) : string :=
  if String.eqb path "" then "."
  else
    let reversed := dropSeps (rev (list_ascii_of_string path)) in
    let last := string_of_list_ascii (rev (untilSep reversed)) in
    if String.eqb last "" then "/" else last.

(** The scan of [filepath.Ext], from the last byte backwards: [acc] holds
    the bytes already passed. *)
Fixpoint extScan (reversed : list ascii) (acc : list ascii) : string :=
  match reversed with
  | [] => ""
  | c :: reversed' =>
      if isSep c then ""
      else if Ascii.eqb c "."%char then string_of_list_ascii (c :: acc)
      else extScan reversed' (c :: acc)
  end.

(** [filepath.Ext]: the suffix of the last element from its last dot. *)
Definition Ext (path : string) : string :=
  extScan (rev (list_ascii_of_string path)) [].

(** [strings.Index(s, c)] for a one-byte [c]; [None] is [-1]. *)
Fixpoint indexByte (c : ascii) (s : string) : option nat :=
  match s with
  | EmptyString => None
  | String x s' =>
      if Ascii.eqb x c then Some O
      else match indexByte c s' with
           | Some n => Some (S n)
           | None => None
           end
  end.

(** [strings.Split(s, c)] for a one-byte [c]. *)
Fixpoint splitByte (c : ascii) (s : string) : list string :=
  match s with
  | EmptyString => [""]
  | String x s' =>
      if Ascii.eqb x c then "" :: splitByte c s'
      else match splitByte c s' with
           | h :: t => String x h :: t
           | [] => [String x ""]
           end
  end.

End GoPaths.
Import GoPaths.

(** ** Attribution and grouping ([server.go], [handleQuery]) *)

(** [extractOriginalFilename]: drop a [{UUID}_] prefix. *)
Definition extractOriginalFilename (filename : string) : string :=
  if String.eqb filename "" then ""
  else
    match indexByte "_"%char filename with
    | Some (S n) =>
        let underscoreIndex := S n in
        let prefix := take underscoreIndex filename in
        if (String.length prefix =? 36)%nat && Contains prefix "-" then
          let parts := splitByte "-"%char prefix in
          if (List.length parts =? 5)%nat then
            let originalName := drop (underscoreIndex + 1) filename in
            if negb (String.eqb originalName "") then originalName else filename
          else filename
        else filename
    | _ => filename
    end.

(** A passage result: the [map[string]interface{}] with the keys
    ["content"], ["pageContent"], ["index"], ["source"], ["title"] and
    ["preview"]. *)
Record Chunk : Type := mkChunk {
  chunkContent : string;
  chunkPageContent : string;
  chunkIndex : Z;
  chunkSource : string;
  chunkTitle : string;
  chunkPreview : string
}.

Record DocGroup : Type := mkDocGroup {
  DocTitle : string;
  DocSource : string;
  SourceType : string;
  FileType : string;
  HasPublicForm : bool;
  FileID : string;
  Chunks : list Chunk
}.

Definition withChunks (g : DocGroup) (chunks : list Chunk) : DocGroup :=
  mkDocGroup (DocTitle g) (DocSource g) (SourceType g) (FileType g)
             (HasPublicForm g) (FileID g) chunks.

Definition withHasPublicForm (g : DocGroup) (b : bool) : DocGroup :=
  mkDocGroup (DocTitle g) (DocSource g) (SourceType g) (FileType g)
             b (FileID g) (Chunks g).

Definition withFileType (g : DocGroup) (t : string) : DocGroup :=
  mkDocGroup (DocTitle g) (DocSource g) (SourceType g) t
             (HasPublicForm g) (FileID g) (Chunks g).

Definition withFileID (g : DocGroup) (id : string) : DocGroup :=
  mkDocGroup (DocTitle g) (DocSource g) (SourceType g) (FileType g)
             (HasPublicForm g) id (Chunks g).

(** What one enrichment goroutine sends on [resultChan]. *)
Record docProcessResult : Type := mkDocProcessResult {
  resIndex : Z;
  result : Chunk;
  groupKey : string;
  group : DocGroup
}.

Section Attribution.

Variable ToLower : string -> string.

(** [fileID]: the part of the name before its first underscore, when
    that part is not empty. *)
Definition fileIDOf (name : string) (otherwise : string) : string :=
  match indexByte "_"%char name with
  | Some (S n) => take (S n) name
  | _ => otherwise
  end.

(** [fileType]: the lower-cased extension without its dot. *)
Definition fileTypeOf (name : string) (otherwise : string) : string :=
  let ext := ToLower (Ext name) in
  if negb (String.eqb ext "") then drop 1 ext else otherwise.

(** The body of the goroutine started for passage [idx] (0-based). *)
Definition processDoc (idx : Z) (d : Document) : docProcessResult :=
  let originalIndex := idx + 1 in
  let '(docTitle, docSource, sourceType, fileType, fileID) :=
    match metaString d "source" with
    | Some source =>
        if HasPrefix source "http://" || HasPrefix source "https://"
        then (source, source, "url", "", "")
        else
          let docTitle := extractOriginalFilename (Base source) in
          let baseName := Base source in
          (docTitle, source, "file", fileTypeOf docTitle "", fileIDOf baseName "")
    | None => ("", "", "", "", "")
    end in
  let '(docTitle, fileType, fileID) :=
    match metaString d "file_name" with
    | Some fileName =>
        if negb (String.eqb fileName "") then
          let originalFileName := extractOriginalFilename fileName in
          let docTitle :=
            if negb (String.eqb originalFileName "") then originalFileName else docTitle in
          (docTitle, fileTypeOf originalFileName fileType, fileIDOf fileName fileID)
        else (docTitle, fileType, fileID)
    | None => (docTitle, fileType, fileID)
    end in
  let docTitle := if String.eqb docTitle "" then "未命名文档" else docTitle in
  let preview := PageContent d in
  let preview :=
    if (200 <? String.length preview)%nat then take 200 preview ++ "..." else preview in
  let result :=
    mkChunk (PageContent d) (PageContent d) originalIndex docSource docTitle preview in
  let groupKey := if String.eqb docSource "" then docTitle else docSource in
  let group := mkDocGroup docTitle docSource sourceType fileType false fileID [result] in
  mkDocProcessResult originalIndex result groupKey group.

(** The loop [for i, doc := range queryResult.Results]: one goroutine
    per passage whose number is marked used. *)
Fixpoint spawnAll (usedIndices : gmap Z bool) (i : Z) (results : list Document)
    : list docProcessResult :=
  match results with
  | [] => []
  | d :: rest =>
      if isUsed usedIndices (i + 1)
      then processDoc i d :: spawnAll usedIndices (i + 1) rest
      else spawnAll usedIndices (i + 1) rest
  end.

End Attribution.

(** The body of the collector loop [for res := range resultChan]. *)
Definition mergeResult (st : gmap string DocGroup * list Chunk) (res : docProcessResult)
    : gmap string DocGroup * list Chunk :=
  let '(docGroupsMap, searchResults) := st in
  let searchResults := (searchResults ++ [result res])%list in
  match docGroupsMap !! groupKey res with
  | Some existingGroup =>
      let existingGroup :=
        if negb (String.eqb (FileType (group res)) "") && String.eqb (FileType existingGroup) ""
        then withFileType existingGroup (FileType (group res)) else existingGroup in
      let existingGroup :=
        if negb (String.eqb (FileID (group res)) "") && String.eqb (FileID existingGroup) ""
        then withFileID existingGroup (FileID (group res)) else existingGroup in
      let existingGroup :=
        withChunks existingGroup (Chunks existingGroup ++ [result res])%list in
      (<[groupKey res := existingGroup]> docGroupsMap, searchResults)
  | None => (<[groupKey res := group res]> docGroupsMap, searchResults)
  end.

(** [sort.Slice(searchResults, index ascending)]; the indices of one
    response are pairwise different, so the order is determined. *)
Fixpoint insertByIndex (c : Chunk) (sorted : list Chunk) : list Chunk :=
  match sorted with
  | [] => [c]
  | x :: rest =>
      if chunkIndex c <? chunkIndex x then c :: sorted else x :: insertByIndex c rest
  end.

Definition sortByIndex (chunks : list Chunk) : list Chunk :=
  fold_right insertByIndex [] chunks.

(** ** Response assembly ([server.go], [handleQuery]) *)

Definition maxDocGroups : nat := 50.
Definition maxChunksPerGroup : nat := 20.
Definition maxChunkContentLength : nat := 2000.

(** [s[:maxChunkContentLength] + "..."] when [s] is longer. *)
Definition truncateText (s : string) : string :=
  if (maxChunkContentLength <? String.length s)%nat
  then take maxChunkContentLength s ++ "..." else s.

Definition truncateChunk (c : Chunk) : Chunk :=
  mkChunk (truncateText (chunkContent c)) (truncateText (chunkPageContent c))
          (chunkIndex c) (chunkSource c) (chunkTitle c) (chunkPreview c).

Definition limitChunks (g : DocGroup) : DocGroup :=
  let chunks :=
    if (maxChunksPerGroup <? List.length (Chunks g))%nat
    then firstn maxChunksPerGroup (Chunks g) else Chunks g in
  withChunks g (map truncateChunk chunks).

Definition limitDocGroups (docGroups : list DocGroup) : list DocGroup :=
  let limitedDocGroups :=
    if (maxDocGroups <? List.length docGroups)%nat
    then firstn maxDocGroups docGroups else docGroups in
  map limitChunks limitedDocGroups.

(** The chunk maps are shared between the flat list and the groups: a
    chunk that is still in a returned group is truncated in the flat list
    as well.  A chunk is identified by its index. *)
Definition keptIndices (limited : list DocGroup) : list Z :=
  flat_map (fun g => map chunkIndex (Chunks g)) limited.

Definition shareTruncation (limited : list DocGroup) (searchResults : list Chunk)
    : list Chunk :=
  map (fun c =>
         if existsb (Z.eqb (chunkIndex c)) (keptIndices limited)
         then truncateChunk c else c)
      searchResults.

Record QueryResponse : Type := mkQueryResponse {
  respAnswer : string;
  respResults : list Chunk;
  respDocGroups : list DocGroup
}.

(** The two places where the order is left to the scheduler: the order
    in which the enrichment goroutines deliver, and the order in which
    [range docGroupsMap] visits the groups. *)
Record Schedule : Type := mkSchedule {
  deliver : list docProcessResult -> list docProcessResult;
  rangeGroups : gmap string DocGroup -> list (string * DocGroup)
}.

Definition fairSchedule (sch : Schedule) : Prop :=
  (forall sent, Permutation (deliver sch sent) sent) /\
  (forall m, Permutation (rangeGroups sch m) (map_to_list m)).

Definition inOrder : Schedule := mkSchedule (fun sent => sent) map_to_list.

Section Assembly.

Variable ToLower : string -> string.

(** The outcome of the classification step for one group of this
    request: the value left in [HasPublicForm]. *)
Variable classified : DocGroup -> bool.

Variable sch : Schedule.

(** [handleQuery] from the moment [QueryWithResults] has returned. *)
Definition assembleResponse (queryResult : QueryResult) : QueryResponse :=
  let usedIndices := extractUsedAnnotations (Answer queryResult) in
  let sent := spawnAll ToLower usedIndices 0 (Results queryResult) in
  let '(docGroupsMap, searchResults) :=
    fold_left mergeResult (deliver sch sent) (∅, []) in
  let searchResults := sortByIndex searchResults in
  let docGroups :=
    map (fun kg => withHasPublicForm (snd kg) (classified (snd kg)))
        (rangeGroups sch docGroupsMap) in
  let limitedDocGroups := limitDocGroups docGroups in
  mkQueryResponse (Answer queryResult)
                  (shareTruncation limitedDocGroups searchResults)
                  limitedDocGroups.

End Assembly.

(** ** The classification cache and its workers ([server.go]) *)

Record FileInfo : Type := mkFileInfo {
  fileInfoID : string;
  Filename : string
}.

(** An access to the file system made while a file is classified. *)
Inductive FileAccess : Type :=
| AccessStat (path : string)
| AccessRead (path : string).

(** The part of [Server] the classification uses, together with the
    tasks the worker goroutines have taken from the queue and not yet
    completed, and the record of the file accesses made so far on behalf
    of each file ID. *)
Record Server : Type := mkServer {
  filesDir : string;
  files : gmap string FileInfo;
  checkQueue : list DocGroup;
  publicFormCache : gmap string bool;
  inFlight : list DocGroup;
  accessLog : list (string * FileAccess)
}.

(** [make(chan *DocGroup, 100)] in [NewServer]. *)
Definition checkQueueCapacity : nat := 100.

(** [checkWorkers: 3] in [NewServer]. *)
Definition checkWorkers : nat := 3.

Definition withQueue (s : Server) (q : list DocGroup) : Server :=
  mkServer (filesDir s) (files s) q (publicFormCache s) (inFlight s) (accessLog s).

Definition eligibleType (fileTypeLower : string) : bool :=
  negb (negb (String.eqb fileTypeLower "pdf") && negb (String.eqb fileTypeLower "doc") &&
        negb (String.eqb fileTypeLower "docx") && negb (String.eqb fileTypeLower "txt")).

(** Where the request stands after the first half of [checkPublicForm]:
    it has returned, or it has queued the group and sleeps 500 ms. *)
Inductive CheckProgress : Type :=
| CheckReturned (s : Server) (g : DocGroup)
| CheckSleeping (s : Server) (g : DocGroup).

Section Classification.

Variable ToLower : string -> string.

(** The world outside the program: [filepath.Join], whether [os.Stat]
    succeeds, the bytes of a file that opens, and what the document
    loader returns within its 1.5 s deadline ([None]: error or timeout). *)
Variable Join : string -> string -> string.
Variable statOk : string -> bool.
Variable fileBytes : string -> option string.
Variable loadFile : string -> option (list Document).

(** [checkPublicForm] up to its [time.Sleep]. *)
Definition checkPublicForm_submit (s : Server) (g : DocGroup) : CheckProgress :=
  let fileTypeLower := ToLower (FileType g) in
  if negb (eligibleType fileTypeLower) then CheckReturned s g
  else
    match (if negb (String.eqb (FileID g) "")
           then publicFormCache s !! FileID g else None) with
    | Some cached => CheckReturned s (withHasPublicForm g cached)
    | None =>
        if negb (String.eqb (FileID g) "") then
          if (List.length (checkQueue s) <? checkQueueCapacity)%nat
          then CheckSleeping (withQueue s (checkQueue s ++ [g])%list) g
          else CheckReturned s (withHasPublicForm g false)
        else CheckReturned s (withHasPublicForm g false)
    end.

(** [checkPublicForm] after its [time.Sleep], against the server as the
    workers have left it in the meantime. *)
Definition checkPublicForm_resume (s : Server) (g : DocGroup) : DocGroup :=
  match publicFormCache s !! FileID g with
  | Some cached => withHasPublicForm g cached
  | None => withHasPublicForm g false
  end.

(** [checkPublicForm]: [during] is what the rest of the program does to
    the server while the request sleeps, if it sleeps. *)
Definition checkPublicForm (during : Server -> Server) (s : Server) (g : DocGroup)
    : Server * DocGroup :=
  match checkPublicForm_submit s g with
  | CheckReturned s' g' => (s', g')
  | CheckSleeping s' g' => (during s', checkPublicForm_resume (during s') g')
  end.

(** [s[len(s)-n:]] when [s] is longer than [n]. *)
Definition lastBytes (n : nat) (s : string) : string :=
  if (n <? String.length s)%nat then drop (String.length s - n) s else s.

(** [readFileLastBytes]; [None] is an error. *)
Definition readFileLastBytes (filePath : string) (maxBytes : nat) : option string :=
  match fileBytes filePath with
  | None => None
  | Some bytes =>
      if (String.length bytes =? 0)%nat then Some ""
      else
        let bytesToRead :=
          if (String.length bytes <? maxBytes)%nat then String.length bytes else maxBytes in
        Some (drop (String.length bytes - bytesToRead) bytes)
  end.

(** [loadDocumentLastPart]; [None] is an error. *)
Definition loadDocumentLastPart (filePath : string) (maxChars : nat) : option string :=
  let maxChars := if (maxChars =? 0)%nat then 100%nat else maxChars in
  match loadFile filePath with
  | None => None
  | Some docs =>
      match last docs with
      | None => None
      | Some lastDoc => Some (lastBytes maxChars (PageContent lastDoc))
      end
  end.

Definition maxCheckLength : nat := 100.

(** [checkPublicFormAsync]: the verdict, and the file accesses made. *)
Definition checkPublicFormAsync (s : Server) (g : DocGroup) : bool * list FileAccess :=
  let fileTypeLower := ToLower (FileType g) in
  if negb (eligibleType fileTypeLower) then (false, [])
  else if String.eqb (FileID g) "" then (false, [])
  else
    match files s !! FileID g with
    | None => (false, [])
    | Some fileInfo =>
        let newFormatPath := Join (filesDir s) (FileID g ++ "_" ++ Filename fileInfo) in
        let oldFormatPath := Join (filesDir s) (FileID g ++ Ext (Filename fileInfo)) in
        let found :=
          if statOk newFormatPath then (Some newFormatPath, [AccessStat newFormatPath])
          else if statOk oldFormatPath
               then (Some oldFormatPath, [AccessStat newFormatPath; AccessStat oldFormatPath])
               else (None, [AccessStat newFormatPath; AccessStat oldFormatPath]) in
        match found with
        | (None, accesses) => (false, accesses)
        | (Some filePath, accesses) =>
            let contentToCheck :=
              if String.eqb fileTypeLower "txt" then
                match readFileLastBytes filePath maxCheckLength with
                | Some fileContent => fileContent
                | None => ""
                end
              else
                match loadDocumentLastPart filePath maxCheckLength with
                | Some lastContent =>
                    if negb (String.eqb lastContent "")
                    then lastBytes maxCheckLength lastContent else ""
                | None => ""
                end in
            (checkPublicFormInContent contentToCheck,
             (accesses ++ [AccessRead filePath])%list)
        end
    end.

(** A worker of [startAsyncCheckWorkers] receives from the queue:
    [for group := range s.checkQueue].  [None]: the queue is empty, or
    all [checkWorkers] workers are busy. *)
Definition workerTake (s : Server) : option Server :=
  match checkQueue s with
  | [] => None
  | g :: rest =>
      if (List.length (inFlight s) <? checkWorkers)%nat
      then Some (mkServer (filesDir s) (files s) rest (publicFormCache s)
                          (inFlight s ++ [g])%list (accessLog s))
      else None
  end.

(** The worker holding the [i]-th task in flight completes its round:
    it classifies the file and stores the verdict under the file ID. *)
Definition workerFinish (s : Server) (i : nat) : option Server :=
  match inFlight s !! i with
  | None => None
  | Some g =>
      let '(hasPublicForm, accesses) := checkPublicFormAsync s g in
      let cache :=
        if negb (String.eqb (FileID g) "")
        then <[FileID g := hasPublicForm]> (publicFormCache s)
        else publicFormCache s in
      Some (mkServer (filesDir s) (files s) (checkQueue s) cache
                     (delete i (inFlight s))
                     (accessLog s ++ map (fun a => (FileID g, a)) accesses)%list)
  end.

(** What happens on the server between two observations: a request runs
    the first half of [checkPublicForm] on a group, a worker takes a
    task, or a worker completes its round.  An event that cannot happen
    leaves the server as it is. *)
Inductive Event : Type :=
| RequestCheck (g : DocGroup)
| WorkerTake
| WorkerFinish (i : nat).

Definition serverAfter (s : Server) (e : Event) : Server :=
  match e with
  | RequestCheck g =>
      match checkPublicForm_submit s g with
      | CheckReturned s' _ => s'
      | CheckSleeping s' _ => s'
      end
  | WorkerTake =>
      match workerTake s with
      | Some s' => s'
      | None => s
      end
  | WorkerFinish i =>
      match workerFinish s i with
      | Some s' => s'
      | None => s
      end
  end.

Definition runEvents (s : Server) (events : list Event) : Server :=
  fold_left serverAfter events s.

End Classification.

(** The file accesses made on behalf of one file ID. *)
Definition accessesFor (fileID : string) (log : list (string * FileAccess))
    : list (string * FileAccess) :=
  List.filter (fun entry => String.eqb (fst entry) fileID) log.


(** ** The handler ([server.go], [handleQuery])

    The deadlines of the handler (50 s for the request, 10 s, 8 s and
    5 s around the classification) are outside this model. *)

Inductive HttpReply : Type :=
| ReplyBadRequest
| ReplyQueryFailed (e : QueryError)
| ReplyOk (r : QueryResponse).

Section Handler.

Variable ToLower : string -> string.
Variable Search : string -> Z -> option (list Document).
Variable Generate : string -> GenerateResult.
Variable classified : DocGroup -> bool.
Variable sch : Schedule.

Definition handleQuery (question : string) (reqTopK : Z) : HttpReply :=
  if String.eqb question "" then ReplyBadRequest
  else
    let topK := if reqTopK =? 0 then 3 else reqTopK in
    match QueryWithResults ToLower Search Generate topK question with
    | inr e => ReplyQueryFailed e
    | inl queryResult => ReplyOk (assembleResponse ToLower classified sch queryResult)
    end.

End Handler.

(** ** Ingestion ([rag.go], [AddDocuments])

    The store is outside the program: [storeAdd] is one call of
    [r.store.AddDocuments] on a batch, returning the store it leaves
    behind and the error message, if it fails.  What [AddDocuments]
    does to the world is recorded as a list of effects, durations in
    milliseconds. *)

Inductive AddEffect : Type :=
| StoreCall (batch : list Document) (ok : bool)
| Sleep (ms : Z).

(** [fmt.Errorf("failed to add batch %d to store: %w", batchNum, err)]. *)
Record AddError : Type := mkAddError {
  failedBatch : nat;
  cause : string
}.

Definition isRateLimit (errMsg : string) : bool :=
  Contains errMsg "rate limiting" ||
  Contains errMsg "rate limit" ||
  Contains errMsg "TPM limit" ||
  Contains errMsg "tokens per minute".

Definition batchSizeOf (count : nat) : nat :=
  if (count <? 50)%nat then 10%nat
  else if (count <? 200)%nat then 15%nat
  else 10%nat.

Definition maxRetries : nat := 3.
Definition retryDelay : Z := 2000.

(** The pause after a batch that is not the last one. *)
Definition batchDelay (batchLength : nat) : Z :=
  let delay := Z.of_nat batchLength * 100 in
  let delay := if 2000 <? delay then 2000 else delay in
  if delay <? 500 then 500 else delay.

Section Ingestion.

Variable Store : Type.
Variable storeAdd : Store -> list Document -> Store * option string.

(** The loop [for retry := 0; retry < maxRetries; retry++] on one
    batch; [attemptsLeft] is [maxRetries - retry], [err] the variable
    of that name. *)
Fixpoint addBatch (attemptsLeft : nat) (retry : nat) (st : Store)
    (batch : list Document) (err : option string)
    : Store * option string * list AddEffect :=
  match attemptsLeft with
  | O => (st, err, [])
  | S attemptsLeft' =>
      let '(st', err) := storeAdd st batch in
      match err with
      | None => (st', None, [StoreCall batch true])
      | Some errMsg =>
          if isRateLimit errMsg && (retry <? maxRetries - 1)%nat then
            let waitTime := retryDelay * 2 ^ Z.of_nat retry in
            let '(st'', err', effects) :=
              addBatch attemptsLeft' (retry + 1) st' batch (Some errMsg) in
            (st'', err', StoreCall batch false :: Sleep waitTime :: effects)
          else (st', Some errMsg, [StoreCall batch false])
      end
  end.

(** The loop [for i := 0; i < len(docs); i += batchSize]; [fuel]
    bounds the number of rounds. *)
Fixpoint addBatches (fuel : nat) (i : nat) (docs : list Document)
    (batchSize totalBatches : nat) (st : Store)
    : Store * option AddError * list AddEffect :=
  match fuel with
  | O => (st, None, [])
  | S fuel' =>
      if (i <? List.length docs)%nat then
        let end_ := (i + batchSize)%nat in
        let end_ := if (List.length docs <? end_)%nat then List.length docs else end_ in
        let batch := firstn (end_ - i) (skipn i docs) in
        let batchNum := (i / batchSize + 1)%nat in
        let '(st', err, effects) := addBatch maxRetries 0 st batch None in
        match err with
        | Some errMsg => (st', Some (mkAddError batchNum errMsg), effects)
        | None =>
            let pause :=
              if (batchNum <? totalBatches)%nat
              then [Sleep (batchDelay (List.length batch))] else [] in
            let '(st'', result, effects') :=
              addBatches fuel' (i + batchSize) docs batchSize totalBatches st' in
            (st'', result, (effects ++ pause ++ effects')%list)
        end
      else (st, None, [])
  end.

(** [AddDocuments]: the store it leaves, the error it returns, and the
    calls and pauses it made. *)
Definition AddDocuments (st : Store) (docs : list Document)
    : Store * option AddError * list AddEffect :=
  if (List.length docs =? 0)%nat then (st, None, [])
  else
    let batchSize := batchSizeOf (List.length docs) in
    let totalBatches := ((List.length docs + batchSize - 1) / batchSize)%nat in
    addBatches (List.length docs) 0 docs batchSize totalBatches st.

End Ingestion.

(** The batches the store accepted, the batches it was offered, and
    the pauses, in the order of the effects. *)
Definition storedBatches (effects : list AddEffect) : list (list Document) :=
  flat_map (fun e => match e with StoreCall batch true => [batch] | _ => [] end) effects.

Definition offeredBatches (effects : list AddEffect) : list (list Document) :=
  flat_map (fun e => match e with StoreCall batch _ => [batch] | _ => [] end) effects.

Definition pauses (effects : list AddEffect) : list Z :=
  flat_map (fun e => match e with Sleep ms => [ms] | _ => [] end) effects.

(** ** File administration ([server.go], [checkAdminAuth],
    [handleFileDelete], the naming of uploads) *)

(** [strings.TrimPrefix]. *)
Definition TrimPrefix (s prefix : string) : string :=
  if HasPrefix s prefix then drop (String.length prefix) s else s.

(** [strings.ReplaceAll(s, old, new)] for a non-empty [old]: the
    occurrences of [old] are replaced from left to right, without
    overlap; [skip] counts the bytes of an occurrence still to pass. *)
Fixpoint replaceFrom (skip : nat) (s old new : string) : string :=
  match s with
  | EmptyString => EmptyString
  | String c s' =>
      match skip with
      | S skip' => replaceFrom skip' s' old new
      | O =>
          if HasPrefix s old
          then new ++ replaceFrom (String.length old - 1) s' old new
          else String c (replaceFrom 0 s' old new)
      end
  end.

Definition ReplaceAll (s old new : string) : string := replaceFrom 0 s old new.

Definition backslash : string := String "092"%char "".

(** [cleanedFilename] of [handleUpload]. *)
Definition cleanedFilename (headerFilename : string) : string :=
  let cleanedFilename := ReplaceAll headerFilename "/" "_" in
  let cleanedFilename := ReplaceAll cleanedFilename backslash "_" in
  ReplaceAll cleanedFilename ".." "_".

(** The name under which [handleUpload] saves a file, inside
    [s.filesDir]. *)
Definition savedName (fileID headerFilename : string) : string :=
  fileID ++ "_" ++ cleanedFilename headerFilename.

(** What the handlers read of a request: the method, [r.URL.Path],
    [r.Header.Get("Authorization")] and [r.URL.Query().Get("token")],
    the last two empty when absent. *)
Record Request : Type := mkRequest {
  Method : string;
  URLPath : string;
  HeaderAuthorization : string;
  QueryToken : string
}.

(** [checkAdminAuth]; [adminToken] is [s.adminToken]. *)
Definition checkAdminAuth (adminToken : string) (r : Request) : bool :=
  let token := HeaderAuthorization r in
  if negb (String.eqb token "") then
    let token := TrimPrefix token "Bearer " in
    String.eqb token adminToken
  else
    let token := QueryToken r in
    String.eqb token adminToken.

Inductive DeleteReply : Type :=
| DeleteMethodNotAllowed
| DeleteUnauthorized
| DeleteFileIDRequired
| DeleteFileNotFound
| DeleteOk (message : string).

Definition withFiles (s : Server) (fs : gmap string FileInfo) : Server :=
  mkServer (filesDir s) fs (checkQueue s) (publicFormCache s) (inFlight s) (accessLog s).

Section FileAdministration.

Variable adminToken : string.
Variable Join : string -> string -> string.
Variable statOk : string -> bool.

(** [handleFileDelete]: the server it leaves, the reply, and the paths
    handed to [os.Remove].  [deleteDocumentsBySource] only writes a log
    line: the vector store is not called. *)
Definition handleFileDelete (s : Server) (r : Request)
    : Server * DeleteReply * list string :=
  if negb (String.eqb (Method r) "DELETE") then (s, DeleteMethodNotAllowed, [])
  else if negb (checkAdminAuth adminToken r) then (s, DeleteUnauthorized, [])
  else
    let path := TrimPrefix (URLPath r) "/api/files/" in
    if String.eqb path "" then (s, DeleteFileIDRequired, [])
    else
      match files s !! path with
      | None => (s, DeleteFileNotFound, [])
      | Some fileInfo =>
          let newFormatPath := Join (filesDir s) (path ++ "_" ++ Filename fileInfo) in
          let oldFormatPath := Join (filesDir s) (path ++ Ext (Filename fileInfo)) in
          let filePath :=
            if statOk newFormatPath then newFormatPath
            else if statOk oldFormatPath then oldFormatPath
            else "" in
          let removed := if negb (String.eqb filePath "") then [filePath] else [] in
          (withFiles s (delete path (files s)),
           DeleteOk ("文件 " ++ Filename fileInfo ++ " 已删除"),
           removed)
      end.

End FileAdministration.

(** ** The upload directory read back ([server.go], [isSystemFile],
    [loadFilesFromDisk]) *)

(** [strings.HasSuffix] and [strings.TrimSuffix]. *)
Definition HasSuffix (s suffix : string) : bool :=
  (String.length suffix <=? String.length s)%nat &&
  String.eqb (drop (String.length s - String.length suffix) s) suffix.

Definition TrimSuffix (s suffix : string) : string :=
  if HasSuffix s suffix then take (String.length s - String.length suffix) s else s.

Definition isSystemFile (filename : string) : bool :=
  if String.eqb filename ".DS_Store" then true
  else if HasPrefix filename "._" then true
  else if HasPrefix filename "~$" then true
  else if String.eqb filename ".gitkeep" || String.eqb filename ".gitignore" then true
  else false.

(** What [loadFilesFromDisk] reads of a directory entry: its name,
    whether it is a directory, and whether [entry.Info()] succeeds. *)
Record DirEntry : Type := mkDirEntry {
  entryName : string;
  entryIsDir : bool;
  entryInfoOk : bool
}.

(** The file ID and the file name [loadFilesFromDisk] reads off the
    name of an entry. *)
Definition diskEntry (name : string) : string * string :=
  let ext := Ext name in
  let nameWithoutExt := TrimSuffix name ext in
  match indexByte "_"%char nameWithoutExt with
  | Some (S n) =>
      let idx := S n in
      (take idx nameWithoutExt, drop (idx + 1) nameWithoutExt ++ ext)
  | _ => (nameWithoutExt, "文件" ++ ext)
  end.

(** The body of the loop [for _, entry := range entries]. *)
Definition loadEntry (fs : gmap string FileInfo) (entry : DirEntry) : gmap string FileInfo :=
  if entryIsDir entry then fs
  else
    let filename := entryName entry in
    if isSystemFile filename then fs
    else if negb (entryInfoOk entry) then fs
    else
      let '(fileID, originalFilename) := diskEntry (entryName entry) in
      match fs !! fileID with
      | Some _ => fs
      | None => <[fileID := mkFileInfo fileID originalFilename]> fs
      end.

(** [loadFilesFromDisk]; [readDir] is what [os.ReadDir(s.filesDir)]
    returns, [None] for an error. *)
Definition loadFilesFromDisk (readDir : option (list DirEntry)) (s : Server) : Server :=
  match readDir with
  | None => s
  | Some entries => withFiles s (fold_left loadEntry entries (files s))
  end.

(** A file ID as [uuid.New().String()] prints it, as far as
    [extractOriginalFilename] looks: 36 bytes, five groups separated
    by hyphens, no underscore. *)
Definition uuidShaped (fileID : string) : bool :=
  (String.length fileID =? 36)%nat && Contains fileID "-" &&
  (List.length (splitByte "-"%char fileID) =? 5)%nat &&
  negb (hasByte "_"%char fileID).

(** ** Vocabulary of the statements *)

(** Entries are in descending order of (tie-broken) score. *)
Definition byScoreDesc (a b : scoredDoc) : Prop := score b <= score a.

(** An entry whose score before the tie-break is positive. *)
Definition positive (sd : scoredDoc) : bool := 0 <? score sd + index sd.


(** Every chunk held by the collector satisfies [P]. *)
Definition collected (P : Chunk -> Prop) (st : gmap string DocGroup * list Chunk) : Prop :=
  (forall k g, fst st !! k = Some g -> Forall P (Chunks g)) /\ Forall P (snd st).

(** What the response records about a chunk built from the passage at
    position [i] of [results]. *)
Definition tracesTo (results : list Document) (used : gmap Z bool) (c : Chunk) : Prop :=
  exists (i : nat) (d : Document),
    nth_error results i = Some d /\
    chunkIndex c = Z.of_nat i + 1 /\
    chunkContent c = PageContent d /\
    chunkPageContent c = PageContent d /\
    isUsed used (Z.of_nat i + 1) = true.

(** The numbers of the passages the answer cites among the first [n],
    in ascending order. *)
Definition citedPositions (used : gmap Z bool) (n : nat) : list Z :=
  List.filter (isUsed used) (map (fun i => Z.of_nat i + 1) (seq 0 n)).

(** The key under which the collector files a group: its source, or
    its title when it has no source. *)
Definition groupKeyOf (g : DocGroup) : string :=
  if String.eqb (DocSource g) "" then DocTitle g else DocSource g.

(** The same key, read off a chunk. *)
Definition chunkKeyOf (c : Chunk) : string :=
  if String.eqb (chunkSource c) "" then chunkTitle c else chunkSource c.

(** What the collector maintains: the chunks filed in the groups are
    those of the flat list; there are no more groups than chunks, and no
    group holds more chunks than the flat list; a group is filed under
    its own key, and so is each of its chunks. *)
Definition filedConsistently (st : gmap string DocGroup * list Chunk) : Prop :=
  Permutation (flat_map (fun kg => map chunkIndex (Chunks (snd kg))) (map_to_list (fst st)))
              (map chunkIndex (snd st)) /\
  (List.length (map_to_list (fst st)) <= List.length (snd st))%nat /\
  (forall k g, fst st !! k = Some g ->
     (List.length (Chunks g) <= List.length (snd st))%nat /\
     groupKeyOf g = k /\
     Forall (fun c => chunkKeyOf c = k) (Chunks g)).


(** ** Concrete inputs used in the examples *)

Module Examples.

Definition uploadsJoin (dir name : string) : string := dir ++ "/" ++ name.

(** A world with one text file that ends with the restriction marker. *)
Definition worldStat (path : string) : bool := String.eqb path "uploads/f1_规定.txt".

Definition worldBytes (path : string) : option string :=
  if String.eqb path "uploads/f1_规定.txt" then Some "本规定自发布之日起施行。公开形式：不予公开"
  else None.

Definition worldLoad (path : string) : option (list Document) := None.

Definition txtGroup : DocGroup :=
  mkDocGroup "规定.txt" "uploads/f1_规定.txt" "file" "txt" false "f1" [].

(** The same file ID under a file type that is not checked. *)
Definition mdGroup : DocGroup :=
  mkDocGroup "规定.md" "uploads/f1_规定.md" "file" "md" false "f1" [].

Definition otherGroup : DocGroup :=
  mkDocGroup "办法.txt" "uploads/f2_办法.txt" "file" "txt" false "f2" [].

Definition knownFiles : gmap string FileInfo :=
  {[ "f1" := mkFileInfo "f1" "规定.txt" ]}.

(** A worker holds the only task for the file. *)
Definition pendingServer : Server := mkServer "uploads" knownFiles [] ∅ [txtGroup] [].

Definition cachedServer : Server :=
  mkServer "uploads" knownFiles [] {[ "f1" := true ]} [] [].

Definition fullServer : Server :=
  mkServer "uploads" knownFiles (repeat otherGroup 100) ∅ [] [].

(** Two requests queued the same file before any worker ran. *)
Definition twicePendingServer : Server :=
  mkServer "uploads" knownFiles [txtGroup; txtGroup] ∅ [] [].

(** Three retrieved passages for the question of the specification;
    the answer cites the first and the third. *)
Definition kbQuestion : string := "培训要求有几条".

Definition kbDocs : list Document :=
  [mkDocument "培训要求包括三项" {[ "source" := MetaString "uploads/a_规定.pdf" ]};
   mkDocument "培训要求的说明" {[ "source" := MetaString "https://example.com/b" ]};
   mkDocument "其他培训要求" {[ "source" := MetaString "uploads/a_规定.pdf" ]}].

Definition kbAnswer : string := "共三项①，详见③。".

Definition kbSearch (question : string) (k : Z) : option (list Document) := Some kbDocs.

Definition kbGenerate (prompt : string) : GenerateResult := GenerateOk kbAnswer.

Definition kbResult : QueryResult := mkQueryResult kbAnswer kbDocs.

Definition kbResponse : QueryResponse :=
  assembleResponse lowerASCII (fun _ => false) inOrder kbResult.

(** A cited passage of 2001 bytes. *)
Definition longPassage : Document :=
  mkDocument (string_of_list_ascii (repeat "a"%char 2001)) ∅.

Definition longResponse : QueryResponse :=
  assembleResponse lowerASCII (fun _ => false) inOrder
    (mkQueryResult "答案①" [longPassage]).



(** A store that counts what it holds, and two that refuse their
    third and their every call for a reason that is, and is not, a rate
    limit. *)
Definition countingStore (st : nat) (batch : list Document) : nat * option string :=
  ((st + List.length batch)%nat, None).

Definition throttledStore (st : nat * nat) (batch : list Document)
    : (nat * nat) * option string :=
  let '(calls, held) := st in
  if (calls =? 2)%nat then ((S calls, held), Some "429: rate limit exceeded")
  else ((S calls, held + List.length batch)%nat, None).

Definition brokenStore (st : nat) (batch : list Document) : nat * option string :=
  (st, Some "connection refused").

Definition someUUID : string := "3f2b8c1e-9a4d-4e6f-8b7a-1c2d3e4f5a6b".

Definition deleteRequest : Request :=
  mkRequest "DELETE" "/api/files/f1" "Bearer Zhzx@666" "".

Definition uploadsListing : list DirEntry :=
  [mkDirEntry ".DS_Store" false true;
   mkDirEntry "failed" true true;
   mkDirEntry (savedName someUUID "年度..报告.v2.pdf") false true].

Definition manyDocs : list Document :=
  map (fun i => mkDocument (itoa (Z.of_nat i)) ∅) (seq 0 25).

End Examples.

(** * Properties *)

(** Case analysis on every integer comparison of the goal. *)
Ltac zcases :=
  repeat match goal with
  | |- context [?a =? ?b] => destruct (Z.eqb_spec a b)
  | |- context [?a <? ?b] => destruct (Z.ltb_spec a b)
  | |- context [?a <=? ?b] => destruct (Z.leb_spec a b)
  | |- context [?a >? ?b] => rewrite (Z.gtb_ltb a b)
  | |- context [?a >=? ?b] => rewrite (Z.geb_leb a b)
  end; cbn [andb orb negb]; try lia.

(** Decide every integer comparison of the goal that linear arithmetic
    settles, without splitting into cases. *)
Ltac zdecide :=
  repeat match goal with
  | |- context [?a =? ?b] =>
      first [ rewrite (proj2 (Z.eqb_eq a b)) by lia
            | rewrite (proj2 (Z.eqb_neq a b)) by lia ]
  | |- context [?a <? ?b] =>
      first [ rewrite (proj2 (Z.ltb_lt a b)) by lia
            | rewrite (proj2 (Z.ltb_ge a b)) by lia ]
  | |- context [?a <=? ?b] =>
      first [ rewrite (proj2 (Z.leb_le a b)) by lia
            | rewrite (proj2 (Z.leb_gt a b)) by lia ]
  end; cbn [andb orb negb].

Section StringFacts.

Lemma append_assoc' (a b c : string) : (a ++ b) ++ c = a ++ (b ++ c).
Proof. induction a as [|x a IH]; simpl; [reflexivity | now rewrite IH]. Qed.

Lemma append_empty_r (a : string) : a ++ "" = a.
Proof. induction a as [|x a IH]; simpl; [reflexivity | now rewrite IH]. Qed.

Lemma length_append' (a b : string) :
  String.length (a ++ b) = (String.length a + String.length b)%nat.
Proof. induction a as [|x a IH]; simpl; [reflexivity | now rewrite IH]. Qed.

Lemma HasPrefix_spec (s p : string) :
  HasPrefix s p = true <-> exists r, s = p ++ r.
Proof.
  revert s. induction p as [|c p IH]; intros s; simpl.
  - split; [intros _; now exists s | reflexivity].
  - destruct s as [|d s].
    + split; [discriminate | intros [r Hr]; discriminate].
    + destruct (Ascii.eqb_spec d c) as [->|Hne].
      * rewrite IH. split; intros [r Hr]; exists r; [now rewrite Hr | now inversion Hr].
      * split; [discriminate | intros [r Hr]; inversion Hr; contradiction].
Qed.

Lemma Contains_spec (s p : string) :
  Contains s p = true <-> exists a b, s = a ++ p ++ b.
Proof.
  induction s as [|c s IH].
  - simpl. rewrite orb_false_r, HasPrefix_spec. split.
    + intros [r Hr]. now exists "", r.
    + intros [a [b H]]. destruct a; simpl in H; [now exists b | discriminate].
  - cbn [Contains]. rewrite orb_true_iff, HasPrefix_spec, IH. split.
    + intros [[r Hr] | [a [b H]]].
      * now exists "", r.
      * exists (String c a), b. simpl. now rewrite H.
    + intros [a [b H]]. destruct a as [|x a]; simpl in H.
      * left. now exists b.
      * right. inversion H. now exists a, b.
Qed.

Lemma Contains_false (s p : string) :
  Contains s p = false <-> ~ exists a b, s = a ++ p ++ b.
Proof.
  rewrite <- Contains_spec. destruct (Contains s p); split; intros; congruence.
Qed.

Lemma Contains_trans (s p q : string) :
  Contains s p = true -> Contains p q = true -> Contains s q = true.
Proof.
  rewrite !Contains_spec. intros [a [b ->]] [a' [b' ->]].
  exists (a ++ a'), (b' ++ b). now rewrite !append_assoc'.
Qed.

Lemma Contains_refl (s : string) : Contains s s = true.
Proof. apply Contains_spec. exists "", "". simpl. now rewrite append_empty_r. Qed.

Lemma Contains_app_l (a b p : string) :
  Contains a p = true -> Contains (a ++ b) p = true.
Proof.
  rewrite !Contains_spec. intros [x [y ->]]. exists x, (y ++ b).
  now rewrite !append_assoc'.
Qed.

Lemma Contains_app_r (a b p : string) :
  Contains b p = true -> Contains (a ++ b) p = true.
Proof.
  rewrite !Contains_spec. intros [x [y ->]]. exists (a ++ x), y.
  now rewrite !append_assoc'.
Qed.

Lemma removeByte_app (c : ascii) (a b : string) :
  removeByte c (a ++ b) = removeByte c a ++ removeByte c b.
Proof.
  induction a as [|x a IH]; simpl; [reflexivity|].
  destruct (Ascii.eqb x c); simpl; now rewrite IH.
Qed.

Lemma removeByte_absent (c : ascii) (s : string) :
  hasByte c s = false -> removeByte c s = s.
Proof.
  induction s as [|x s IH]; simpl; [reflexivity|].
  intros H. apply orb_false_iff in H as [H1 H2]. rewrite H1, IH; auto.
Qed.

Lemma Contains_removeByte (c : ascii) (s p : string) :
  hasByte c p = false -> Contains s p = true -> Contains (removeByte c s) p = true.
Proof.
  intros Hp. rewrite !Contains_spec. intros [a [b ->]].
  exists (removeByte c a), (removeByte c b).
  now rewrite !removeByte_app, (removeByte_absent c p Hp).
Qed.

Lemma length_take (n : nat) (s : string) : (String.length (take n s) <= n)%nat.
Proof.
  revert s. induction n as [|n IH]; intros [|c s]; simpl; try lia.
  specialize (IH s). lia.
Qed.

Lemma take_all (n : nat) (s : string) : (String.length s <= n)%nat -> take n s = s.
Proof.
  revert s. induction n as [|n IH]; intros [|c s]; simpl; intros H; try reflexivity; try lia.
  rewrite IH; [reflexivity | lia].
Qed.

Lemma length_take_exact (n : nat) (s : string) :
  (n <= String.length s)%nat -> String.length (take n s) = n.
Proof.
  revert s. induction n as [|n IH]; intros [|c s]; simpl; intros H; try reflexivity; try lia.
  rewrite IH; [reflexivity | lia].
Qed.

End StringFacts.

(** ** UTF-8 round trips *)

Section Utf8Facts.

Lemma byteVal_range (c : ascii) : 0 <= byteVal c < 256.
Proof. unfold byteVal. pose proof (N_ascii_bounded c). lia. Qed.

Lemma byteVal_byteOf (n : Z) : 0 <= n < 256 -> byteVal (byteOf n) = n.
Proof.
  intros H. unfold byteVal, byteOf. rewrite N_ascii_embedding by lia. lia.
Qed.

Lemma validRune_spec (r : Z) :
  validRune r = true <-> 0 <= r <= 1114111 /\ ~ (55296 <= r <= 57343).
Proof. unfold validRune, MaxRune. zcases; intuition (try lia; try discriminate). Qed.

Lemma stringOfRunes_app (a b : list Z) :
  stringOfRunes (a ++ b)%list = stringOfRunes a ++ stringOfRunes b.
Proof.
  induction a as [|r a IH]; [reflexivity|].
  cbn [stringOfRunes app]. rewrite IH. now rewrite append_assoc'.
Qed.




Lemma DecodeRuneInString_encode (r : Z) (rest : string) :
  validRune r = true ->
  DecodeRuneInString (EncodeRune r ++ rest) = (r, String.length (EncodeRune r)).
Proof.
  intros Hv. unfold EncodeRune. rewrite Hv. apply validRune_spec in Hv.
  destruct (Z.ltb_spec r 128) as [H1|H1].
  { cbn [String.append DecodeRuneInString String.length].
    rewrite byteVal_byteOf by lia. now zdecide. }
  pose proof (Z.div_mod r 64 ltac:(lia)) as Hdm.
  pose proof (Z.mod_pos_bound r 64 ltac:(lia)) as Hm.
  destruct (Z.ltb_spec r 2048) as [H2|H2].
  { set (q := r / 64) in *. set (m := r mod 64) in *. clearbody q m.
    cbn [String.append String.length]. unfold DecodeRuneInString.
    rewrite !byteVal_byteOf by lia. zdecide. cbn. zdecide. f_equal. lia. }
  pose proof (Z.div_mod (r / 64) 64 ltac:(lia)) as Hdm2.
  pose proof (Z.mod_pos_bound (r / 64) 64 ltac:(lia)) as Hm2.
  destruct (Z.ltb_spec r 65536) as [H3|H3].
  { replace (r / 4096) with (r / 64 / 64) by (rewrite Z.div_div by lia; reflexivity).
    set (q := r / 64) in *. set (m := r mod 64) in *.
    set (q2 := q / 64) in *. set (m2 := q mod 64) in *. clearbody q m q2 m2.
    cbn [String.append String.length]. unfold DecodeRuneInString.
    rewrite !byteVal_byteOf by lia.
    destruct (Z.eq_dec q2 0) as [E0|E0]; [|destruct (Z.eq_dec q2 13) as [E13|E13]];
      zdecide; cbn; zdecide; f_equal; lia. }
  pose proof (Z.div_mod (r / 64 / 64) 64 ltac:(lia)) as Hdm3.
  pose proof (Z.mod_pos_bound (r / 64 / 64) 64 ltac:(lia)) as Hm3.
  replace (r / 262144) with (r / 64 / 64 / 64) by (rewrite !Z.div_div by lia; reflexivity).
  replace (r / 4096) with (r / 64 / 64) by (rewrite Z.div_div by lia; reflexivity).
  set (q := r / 64) in *. set (m := r mod 64) in *.
  set (q2 := q / 64) in *. set (m2 := q mod 64) in *.
  set (q3 := q2 / 64) in *. set (m3 := q2 mod 64) in *. clearbody q m q2 m2 q3 m3.
  cbn [String.append String.length]. unfold DecodeRuneInString.
  rewrite !byteVal_byteOf by lia.
  destruct (Z.eq_dec q3 0) as [E0|E0]; [|destruct (Z.eq_dec q3 4) as [E4|E4]];
    zdecide; cbn; zdecide; f_equal; lia.
Qed.

Lemma runes_encode (r : Z) (rest : string) :
  validRune r = true -> runes (EncodeRune r ++ rest) = r :: runes rest.
Proof.
  intros Hv. unfold runes.
  pose proof (DecodeRuneInString_encode r rest Hv) as Hd.
  destruct (EncodeRune r) as [|c0 [|c1 [|c2 [|c3 [|c4 e]]]]] eqn:He;
    cbn [String.append] in *; cbn [runesFrom]; try rewrite Hd; cbn; try reflexivity.
  - unfold EncodeRune in He. destruct (validRune r);
      repeat match type of He with context [if ?c then _ else _] => destruct c end;
      discriminate.
  - unfold EncodeRune in He. destruct (validRune r);
      repeat match type of He with context [if ?c then _ else _] => destruct c end;
      discriminate.
Qed.

Lemma runes_stringOfRunes (rs : list Z) :
  Forall (fun r => validRune r = true) rs -> runes (stringOfRunes rs) = rs.
Proof.
  induction 1 as [|r rs Hr _ IH]; [reflexivity|].
  cbn [stringOfRunes]. rewrite (runes_encode r _ Hr). now rewrite IH.
Qed.

(** ASCII text is well-formed. *)
Lemma isASCII_wellFormed (s : string) : GoCase.isASCII s = true -> wellFormed s.
Proof.
  unfold wellFormed, runes. induction s as [|c s IH]; [reflexivity|].
  cbn [GoCase.isASCII]. intros H. apply andb_true_iff in H as [Hc Hs].
  apply Z.ltb_lt in Hc. pose proof (byteVal_range c) as Hr.
  cbn [runesFrom DecodeRuneInString]. rewrite (proj2 (Z.ltb_lt _ _) Hc).
  cbn [Nat.pred stringOfRunes]. rewrite (IH Hs).
  unfold EncodeRune. rewrite (proj2 (validRune_spec (byteVal c))) by lia.
  rewrite (proj2 (Z.ltb_lt _ _) Hc). cbn [String.append].
  unfold byteOf, byteVal. now rewrite N2Z.id, ascii_N_embedding.
Qed.

Lemma lowerBytes_isASCII (s : string) :
  GoCase.isASCII s = true -> GoCase.isASCII (GoCase.lowerBytes s) = true.
Proof.
  induction s as [|c s IH]; [reflexivity|]. cbn [GoCase.isASCII GoCase.lowerBytes].
  intros H. apply andb_true_iff in H as [Hc Hs]. rewrite (IH Hs), andb_true_r.
  apply Z.ltb_lt in Hc. apply Z.ltb_lt. unfold GoCase.lowerByte.
  destruct ((65 <=? byteVal c) && (byteVal c <=? 90)) eqn:E; [|exact Hc].
  apply andb_true_iff in E as [E1 E2]. apply Z.leb_le in E1. apply Z.leb_le in E2.
  rewrite byteVal_byteOf; lia.
Qed.

(** What [EncodeRune] writes is the encoding of a scalar value. *)
Lemma EncodeRune_sanitized (r : Z) :
  exists r', validRune r' = true /\ EncodeRune r = EncodeRune r'.
Proof.
  destruct (validRune r) eqn:E; [now exists r|].
  exists RuneError. split; [reflexivity|]. unfold EncodeRune. now rewrite E.
Qed.

Lemma mapRunes_wellFormed (mapping : Z -> Z) (rs : list Z) :
  exists rs', Forall (fun r => validRune r = true) rs' /\
              GoCase.mapRunes mapping rs = stringOfRunes rs'.
Proof.
  induction rs as [|c rs (rs' & Hv & Heq)]; [now exists []|].
  cbn [GoCase.mapRunes]. rewrite Heq.
  destruct (mapping c <? 0); [now exists rs'|].
  destruct (EncodeRune_sanitized (mapping c)) as (r' & Hr' & ->).
  exists (r' :: rs'). split; [now constructor | reflexivity].
Qed.

(** Whatever the case table, the lower-cased text is well-formed
    UTF-8. *)
Lemma ToLower_wellFormed (unicodeToLower : Z -> Z) (s : string) :
  wellFormed (GoCase.ToLower unicodeToLower s).
Proof.
  unfold GoCase.ToLower. destruct (GoCase.isASCII s) eqn:E.
  - now apply isASCII_wellFormed, lowerBytes_isASCII.
  - unfold GoCase.Map.
    destruct (mapRunes_wellFormed unicodeToLower (runes s)) as (rs' & Hv & ->).
    unfold wellFormed. now rewrite (runes_stringOfRunes rs' Hv).
Qed.

End Utf8Facts.

(** ** The restriction-marker test *)

Section MarkerTest.

Lemma Contains_marker_ext (s q : string) :
  Contains q marker = true -> Contains s marker = false -> Contains s q = false.
Proof.
  intros Hq Hs. destruct (Contains s q) eqn:E; [|reflexivity].
  rewrite (Contains_trans s q marker E Hq) in Hs. discriminate.
Qed.

Lemma stripWhitespace_keeps_marker (s : string) :
  Contains s marker = true -> Contains (stripWhitespace s) marker = true.
Proof.
  intros H. unfold stripWhitespace.
  repeat (apply Contains_removeByte; [reflexivity|]). exact H.
Qed.

Lemma checkPublicFormInContent_refines (content : string) :
  checkPublicFormInContent content = containsMarkerNormalized content.
Proof.
  unfold checkPublicFormInContent, containsMarkerNormalized.
  destruct (String.eqb_spec content "") as [->|Hne]; [reflexivity|].
  fold marker.
  destruct (Contains content marker) eqn:Hc.
  - symmetry. now apply stripWhitespace_keeps_marker.
  - cbv zeta.
    rewrite !(fun q Hq => Contains_marker_ext content q Hq Hc) by reflexivity.
    cbn [orb]. fold (stripWhitespace content).
    destruct (Contains (stripWhitespace content) marker) eqn:Hn; [reflexivity|].
    rewrite !(fun q Hq => Contains_marker_ext (stripWhitespace content) q Hq Hn) by reflexivity.
    reflexivity.
Qed.

End MarkerTest.

(** C10: the marker test answers [true] exactly when the content, with
    every space, newline, carriage return and tab removed, contains the
    bare marker; whatever follows the marker is irrelevant, and the empty
    content is never marked. *)
Theorem checkPublicFormInContent_iff_normalized_marker :
  (forall content : string,
      checkPublicFormInContent content = true <->
      Contains (removeByte TAB (removeByte CR (removeByte NL (removeByte SP content))))
               "公开形式" = true) /\
  (forall before qualifier : string,
      checkPublicFormInContent (before ++ "公开形式" ++ qualifier) = true) /\
  checkPublicFormInContent "" = false.
Proof.
  split; [|split].
  - intros content. rewrite checkPublicFormInContent_refines. reflexivity.
  - intros before qualifier. rewrite checkPublicFormInContent_refines.
    apply stripWhitespace_keeps_marker, Contains_spec. now exists before, qualifier.
  - reflexivity.
Qed.

(** ** Citation extraction *)

Section Citations.

#[local] Opaque Ascii.eqb.

Lemma markUsed_lookup (answer : string) (nums : list string) :
  forall (base : Z) (used : gmap Z bool) (j : Z),
    markUsed answer base nums used !! j =
    if (base <? j) && (j <=? base + Z.of_nat (List.length nums)) &&
       Contains answer (nth (Z.to_nat (j - base - 1)) nums "")
    then Some true else used !! j.
Proof.
  induction nums as [|c rest IH]; intros base used j.
  - cbn [markUsed List.length]. zcases; reflexivity.
  - cbn [markUsed]. rewrite IH. cbn [List.length].
    destruct (Z.eq_dec j (base + 1)) as [->|Hne].
    + replace (base + 1 - base - 1) with 0 by lia.
      change (Z.to_nat 0) with 0%nat. cbn [nth].
      zcases; destruct (Contains answer c);
        rewrite ?lookup_insert_eq; reflexivity.
    + assert (Hused : (if Contains answer c then <[base + 1 := true]> used else used) !! j
                      = used !! j).
      { destruct (Contains answer c); [now rewrite lookup_insert_ne | reflexivity]. }
      rewrite Hused.
      destruct (Z.ltb_spec (base + 1) j) as [Hlt|Hge].
      * replace (Z.to_nat (j - base - 1)) with (S (Z.to_nat (j - (base + 1) - 1))) by lia.
        cbn [nth]. zcases; reflexivity.
      * zcases; reflexivity.
Qed.

Lemma extractUsedAnnotations_lookup (answer : string) (j : Z) :
  extractUsedAnnotations answer !! j =
  if (1 <=? j) && (j <=? 10) && Contains answer (getCircleNumber j)
  then Some true else None.
Proof.
  unfold extractUsedAnnotations. rewrite markUsed_lookup, lookup_empty.
  unfold getCircleNumber.
  change (Z.of_nat (List.length circleNumbers)) with 10.
  replace (j - 0 - 1) with (j - 1) by lia.
  zcases; reflexivity.
Qed.

(** No marker's last byte is [E2], so a marker never straddles the end
    of the text it is appended to. *)
Lemma HasPrefix_circled_append (a : string) (x y : ascii) :
  Ascii.eqb "226"%char x = false ->
  HasPrefix (a ++ circled y) (circled x) =
  HasPrefix a (circled x) || (String.eqb a "" && Ascii.eqb y x).
Proof.
  intros Hx. destruct a as [|c0 [|c1 [|c2 a]]]; cbn; rewrite ?Ascii.eqb_refl;
    change (Ascii.eqb "226" "145") with false;
    repeat match goal with
    | |- context [Ascii.eqb ?a ?b] => destruct (Ascii.eqb a b) eqn:?
    end; try reflexivity; congruence.
Qed.

Lemma Contains_circled_append (a : string) (x y : ascii) :
  Ascii.eqb "226"%char x = false -> Ascii.eqb y "226"%char = false ->
  Contains (a ++ circled y) (circled x) = Contains a (circled x) || Ascii.eqb y x.
Proof.
  intros Hx Hy. induction a as [|c a IH].
  - cbn. rewrite ?Ascii.eqb_refl, Hy.
    change (Ascii.eqb "145" "226") with false.
    destruct (Ascii.eqb y x); reflexivity.
  - change (String c a ++ circled y) with (String c (a ++ circled y)).
    cbn [Contains]. rewrite IH.
    change (String c (a ++ circled y)) with (String c a ++ circled y).
    rewrite (HasPrefix_circled_append (String c a) x y Hx).
    cbn [String.eqb andb]. rewrite orb_false_r.
    now rewrite orb_assoc.
Qed.

Lemma getCircleNumber_circled (k : Z) :
  1 <= k <= 10 -> getCircleNumber k = circled (circledByte k).
Proof.
  intros Hk.
  assert (H : k = 1 \/ k = 2 \/ k = 3 \/ k = 4 \/ k = 5 \/ k = 6 \/ k = 7 \/
              k = 8 \/ k = 9 \/ k = 10) by lia.
  repeat destruct H as [->|H]; try subst k; reflexivity.
Qed.

Lemma circledByte_not_lead (k : Z) :
  1 <= k <= 10 ->
  Ascii.eqb "226"%char (circledByte k) = false /\
  Ascii.eqb (circledByte k) "226"%char = false.
Proof.
  intros Hk.
  assert (H : k = 1 \/ k = 2 \/ k = 3 \/ k = 4 \/ k = 5 \/ k = 6 \/ k = 7 \/
              k = 8 \/ k = 9 \/ k = 10) by lia.
  repeat destruct H as [->|H]; try subst k; split; reflexivity.
Qed.

Lemma circledByte_eqb (j k : Z) :
  1 <= j <= 10 -> 1 <= k <= 10 ->
  Ascii.eqb (circledByte k) (circledByte j) = (k =? j).
Proof.
  intros Hj Hk. unfold circledByte.
  destruct (Ascii.eqb_spec (ascii_of_N (Z.to_N (159 + k))) (ascii_of_N (Z.to_N (159 + j))))
    as [E|E]; zcases.
  - apply (f_equal N_of_ascii) in E.
    rewrite !N_ascii_embedding in E by lia. lia.
  - subst. contradiction.
Qed.

Lemma extractUsedAnnotations_append_marker (answer : string) (k : Z) :
  1 <= k <= 10 ->
  extractUsedAnnotations (answer ++ getCircleNumber k) =
  <[k := true]> (extractUsedAnnotations answer).
Proof.
  intros Hk. apply map_eq. intros j.
  rewrite lookup_insert, !extractUsedAnnotations_lookup.
  destruct (decide (k = j)) as [<-|Hne].
  - replace ((1 <=? k) && (k <=? 10)) with true by (symmetry; zcases; reflexivity).
    cbn [andb]. rewrite Contains_app_r; [reflexivity | apply Contains_refl].
  - destruct ((1 <=? j) && (j <=? 10)) eqn:Hj; [|reflexivity]. cbn [andb].
    assert (Hj' : 1 <= j <= 10) by (revert Hj; zcases; congruence).
    rewrite (getCircleNumber_circled k Hk), (getCircleNumber_circled j Hj').
    destruct (circledByte_not_lead k Hk) as [_ Hk2].
    destruct (circledByte_not_lead j Hj') as [Hj1 _].
    rewrite (Contains_circled_append _ _ _ Hj1 Hk2), (circledByte_eqb j k Hj' Hk).
    replace (k =? j) with false by (symmetry; zcases; reflexivity).
    now rewrite orb_false_r.
Qed.

End Citations.

(** C7: index [i] in 1..10 is marked used exactly when the answer
    contains the [i]-th circled digit; no index outside 1..10 is ever
    marked (so a passage in position 11 or later cannot be cited); and
    appending marker [k] to an answer adds exactly index [k] to the used
    set, whatever other markers the answer holds. *)
Theorem extractUsedAnnotations_exact :
  (forall (answer : string) (i : Z),
      1 <= i <= 10 ->
      (isUsed (extractUsedAnnotations answer) i = true <->
       Contains answer (getCircleNumber i) = true)) /\
  (forall (answer : string) (i : Z),
      i < 1 \/ 10 < i ->
      extractUsedAnnotations answer !! i = None /\
      isUsed (extractUsedAnnotations answer) i = false) /\
  (forall (answer : string) (k : Z),
      1 <= k <= 10 ->
      extractUsedAnnotations (answer ++ getCircleNumber k) =
      <[k := true]> (extractUsedAnnotations answer)).
Proof.
  split; [|split].
  - intros answer i Hi. unfold isUsed. rewrite extractUsedAnnotations_lookup.
    replace ((1 <=? i) && (i <=? 10)) with true by (symmetry; zcases; reflexivity).
    cbn [andb]. destruct (Contains answer (getCircleNumber i)); split; congruence.
  - intros answer i Hi. unfold isUsed. rewrite extractUsedAnnotations_lookup.
    replace ((1 <=? i) && (i <=? 10)) with false by (symmetry; zcases; reflexivity).
    split; reflexivity.
  - apply extractUsedAnnotations_append_marker.
Qed.

(** The scenario of the specification: an answer citing ① and ③ but not
    ②, then the same answer with ② appended. *)
Lemma extractUsedAnnotations_exact_witness :
  (isUsed (extractUsedAnnotations "甲①乙③") 1 = true
   /\ isUsed (extractUsedAnnotations "甲①乙③") 2 = false
   /\ isUsed (extractUsedAnnotations "甲①乙③") 3 = true)
  /\ extractUsedAnnotations "甲①乙③" !! 11 = None
  /\ extractUsedAnnotations ("甲①乙③" ++ getCircleNumber 2) =
     <[2 := true]> (extractUsedAnnotations "甲①乙③").
Proof.
  destruct extractUsedAnnotations_exact as (Hiff & Hout & Happ).
  split; [split; [|split]|split].
  - apply (Hiff "甲①乙③" 1); [lia | reflexivity].
  - destruct (isUsed (extractUsedAnnotations "甲①乙③") 2) eqn:E; [|reflexivity].
    apply (Hiff "甲①乙③" 2) in E; [discriminate E | lia].
  - apply (Hiff "甲①乙③" 3); [lia | reflexivity].
  - apply (Hout "甲①乙③" 11). right. lia.
  - apply (Happ "甲①乙③" 2). lia.
Defined.

(** ** Relevance filtering *)

Section FilterFacts.

Variable ToLower : string -> string.

Lemma filter_nil_firstn {A : Type} (P : A -> bool) (n : nat) (l : list A) :
  List.filter P l = [] -> List.filter P (firstn n l) = [].
Proof.
  revert n. induction l as [|x l IH]; intros [|n] H; try reflexivity.
  cbn [List.filter] in H. cbn [firstn List.filter].
  destruct (P x); [discriminate | now apply IH].
Qed.

Lemma filter_fixed {A : Type} (P : A -> bool) (l : list A) :
  List.filter P (List.filter P l) = List.filter P l.
Proof.
  induction l as [|x l IH]; [reflexivity|]. cbn [List.filter].
  destruct (P x) eqn:E; [|exact IH]. cbn [List.filter]. now rewrite E, IH.
Qed.

(** The number of passages the fail-open branch keeps. *)
Lemma maxKeep_min (n : nat) :
  (if (n <? 3)%nat then n else 3%nat) = Nat.min 3 n.
Proof. destruct (Nat.ltb_spec n 3); lia. Qed.

(** What the filter does once the question has core keywords. *)
Lemma filterRelevantResults_unfold (question : string) (results : list Document) :
  filterRelevantResults ToLower question results =
  match coreKeywordsOf (ToLower question) with
  | [] => results
  | _ :: _ =>
      match List.filter (hasRelevantKeyword ToLower (coreKeywordsOf (ToLower question))) results with
      | [] => firstn (Nat.min 3 (List.length results)) results
      | kept => kept
      end
  end.
Proof.
  unfold filterRelevantResults. destruct results as [|d rest].
  - destruct (coreKeywordsOf (ToLower question)); reflexivity.
  - destruct (coreKeywordsOf (ToLower question)) as [|k ks]; [reflexivity|].
    cbv zeta. rewrite maxKeep_min.
    destruct (List.filter _ (d :: rest)); reflexivity.
Qed.

End FilterFacts.

(** C8: relevance filtering is idempotent.  Filtering the output of the
    filter again, with the same question, changes nothing: on the path
    that keeps the passages holding a core keyword, on the path without
    any core keyword, and on the fail-open path that keeps the first
    three passages. *)
Theorem filterRelevantResults_idempotent :
  forall (ToLower : string -> string) (question : string) (results : list Document),
    filterRelevantResults ToLower question
      (filterRelevantResults ToLower question results) =
    filterRelevantResults ToLower question results.
Proof.
  intros ToLower question results.
  rewrite !filterRelevantResults_unfold.
  destruct (coreKeywordsOf (ToLower question)) as [|k ks] eqn:Hkw; [reflexivity|].
  set (P := hasRelevantKeyword ToLower (k :: ks)).
  destruct (List.filter P results) as [|x kept] eqn:Hf.
  - rewrite (filter_nil_firstn P _ results Hf).
    rewrite length_firstn.
    replace (Nat.min 3 (Nat.min (Nat.min 3 (List.length results)) (List.length results)))
      with (Nat.min 3 (List.length results)) by lia.
    rewrite firstn_firstn. f_equal. lia.
  - rewrite <- Hf, filter_fixed, Hf. reflexivity.
Qed.

(** ** The sort of [reRankResults] *)

Section SortFacts.

Lemma sortPass_length (p : scoredDoc) (rest : list scoredDoc) :
  List.length (snd (sortPass p rest)) = List.length rest.
Proof.
  revert p. induction rest as [|x rest IH]; intros p; [reflexivity|].
  cbn [sortPass]. destruct (score p <? score x).
  - specialize (IH x). destruct (sortPass x rest). cbn in *. now rewrite IH.
  - specialize (IH p). destruct (sortPass p rest). cbn in *. now rewrite IH.
Qed.

Lemma sortPass_perm (p : scoredDoc) (rest : list scoredDoc) :
  Permutation (fst (sortPass p rest) :: snd (sortPass p rest)) (p :: rest).
Proof.
  revert p. induction rest as [|x rest IH]; intros p; [reflexivity|].
  cbn [sortPass]. destruct (score p <? score x).
  - specialize (IH x). destruct (sortPass x rest) as [m out]. cbn [fst snd] in *.
    transitivity (p :: m :: out); [apply perm_swap | now constructor].
  - specialize (IH p). destruct (sortPass p rest) as [m out]. cbn [fst snd] in *.
    transitivity (x :: m :: out); [apply perm_swap|].
    transitivity (x :: p :: rest); [now constructor | apply perm_swap].
Qed.

Lemma sortPass_max (p : scoredDoc) (rest : list scoredDoc) :
  score p <= score (fst (sortPass p rest)) /\
  Forall (byScoreDesc (fst (sortPass p rest))) (snd (sortPass p rest)).
Proof.
  revert p. induction rest as [|x rest IH]; intros p.
  - cbn. split; [lia | constructor].
  - cbn [sortPass]. destruct (Z.ltb_spec (score p) (score x)) as [Hlt|Hge].
    + destruct (IH x) as [H1 H2]. destruct (sortPass x rest) as [m out].
      cbn [fst snd] in *. split; [lia|]. constructor; [unfold byScoreDesc; lia | exact H2].
    + destruct (IH p) as [H1 H2]. destruct (sortPass p rest) as [m out].
      cbn [fst snd] in *. split; [lia|]. constructor; [unfold byScoreDesc; lia | exact H2].
Qed.

Lemma sortLoop_perm (fuel : nat) (docs : list scoredDoc) :
  Permutation (sortLoop fuel docs) docs.
Proof.
  revert docs. induction fuel as [|fuel IH]; intros docs; [destruct docs; reflexivity|].
  destruct docs as [|p rest]; [reflexivity|]. cbn [sortLoop].
  pose proof (sortPass_perm p rest) as Hp.
  destruct (sortPass p rest) as [m out]. cbn [fst snd] in Hp.
  rewrite IH. exact Hp.
Qed.

Lemma sortLoop_sorted (fuel : nat) (docs : list scoredDoc) :
  (List.length docs <= fuel)%nat -> StronglySorted byScoreDesc (sortLoop fuel docs).
Proof.
  revert docs. induction fuel as [|fuel IH]; intros docs Hlen.
  - destruct docs; [constructor | cbn in Hlen; lia].
  - destruct docs as [|p rest]; [constructor|]. cbn [sortLoop].
    pose proof (sortPass_max p rest) as [_ Hmax].
    pose proof (sortPass_length p rest) as Hl.
    destruct (sortPass p rest) as [m out]. cbn [fst snd] in *.
    constructor.
    + apply IH. cbn in Hlen. lia.
    + rewrite (sortLoop_perm fuel out). exact Hmax.
Qed.

Lemma sortByScore_perm (docs : list scoredDoc) : Permutation (sortByScore docs) docs.
Proof. apply sortLoop_perm. Qed.

Lemma sortByScore_sorted (docs : list scoredDoc) :
  StronglySorted byScoreDesc (sortByScore docs).
Proof. apply sortLoop_sorted. lia. Qed.

Lemma selectPositive_spec (room : nat) (docs : list scoredDoc) :
  selectPositive room docs = map doc (firstn room (List.filter positive docs)).
Proof.
  revert room. induction docs as [|sd rest IH]; intros [|room]; try reflexivity.
  cbn [selectPositive List.filter]. unfold positive at 1.
  destruct (0 <? score sd + index sd).
  - cbn [firstn map]. now rewrite IH.
  - apply IH.
Qed.

Lemma filter_positive_nil (docs : list scoredDoc) :
  List.filter positive docs = [] <-> Forall (fun sd => score sd + index sd <= 0) docs.
Proof.
  induction docs as [|sd rest IH].
  - split; [constructor | reflexivity].
  - cbn [List.filter]. unfold positive at 1.
    destruct (Z.ltb_spec 0 (score sd + index sd)) as [Hpos|Hle].
    + split; [discriminate | intros H; inversion H; lia].
    + rewrite IH. split; [now constructor | intros H; now inversion H].
Qed.

End SortFacts.

Section RerankFacts.

Variable ToLower : string -> string.

Lemma scoreAll_original (lq : string) (kws : list string) (allResults : list Document) :
  forall base : Z,
    Forall (fun sd => score sd + index sd = originalScore ToLower lq kws (doc sd))
           (scoreAll ToLower lq kws base allResults).
Proof.
  induction allResults as [|d rest IH]; intros base; cbn [scoreAll]; constructor.
  - cbn. lia.
  - apply IH.
Qed.

Lemma scoreAll_docs (lq : string) (kws : list string) (allResults : list Document) :
  forall base : Z, map doc (scoreAll ToLower lq kws base allResults) = allResults.
Proof.
  induction allResults as [|d rest IH]; intros base; cbn [scoreAll map]; [reflexivity|].
  cbn [doc]. now rewrite IH.
Qed.

Lemma scoreAll_lookup (lq : string) (kws : list string) (allResults : list Document) :
  forall (base : Z) (i : nat) (d : Document),
    nth_error allResults i = Some d ->
    nth_error (scoreAll ToLower lq kws base allResults) i =
    Some (mkScoredDoc d (originalScore ToLower lq kws d - (base + Z.of_nat i))
                      (base + Z.of_nat i)).
Proof.
  induction allResults as [|x rest IH]; intros base i d H.
  - destruct i; discriminate.
  - destruct i as [|i]; cbn [nth_error scoreAll] in *.
    + inversion H; subst. now replace (base + Z.of_nat 0) with base by lia.
    + rewrite (IH _ _ _ H).
      now replace (base + 1 + Z.of_nat i) with (base + Z.of_nat (S i)) by lia.
Qed.

Lemma firstn_nonempty {A : Type} (n : nat) (l : list A) :
  (0 < n)%nat -> l <> [] -> firstn n l <> [].
Proof. destruct n, l; cbn; intros; try lia; congruence. Qed.

End RerankFacts.

(** C5, as the program has it: when there are more than [k] candidates
    and [k] is at least 1, the scored candidates are sorted in descending
    order of score; the result is the first [k] of those whose score
    before the tie-break is positive, in that order; when no candidate
    has a positive score the result is the first [k] candidates in
    retrieval order; in both cases the result is not empty. *)
Theorem reRankResults_selection :
  forall (ToLower : string -> string) (question : string)
         (allResults : list Document) (topK : Z),
    1 <= topK < Z.of_nat (List.length allResults) ->
    let lq := ToLower question in
    let kws := extractKeywords lq in
    let scored := scoreAll ToLower lq kws 0 allResults in
    let sorted := sortByScore scored in
    Permutation sorted scored /\
    StronglySorted (fun a b => score b <= score a) sorted /\
    Forall (fun sd => score sd + index sd = originalScore ToLower lq kws (doc sd)) sorted /\
    exists out : list Document,
      reRankResults ToLower question allResults topK = Some out /\
      out <> [] /\
      (List.length out <= Z.to_nat topK)%nat /\
      ((exists sd, In sd scored /\ 0 < score sd + index sd) ->
       out = map doc (firstn (Z.to_nat topK)
                        (List.filter (fun sd => 0 <? score sd + index sd) sorted))) /\
      (Forall (fun sd => score sd + index sd <= 0) scored ->
       out = firstn (Z.to_nat topK) allResults).
Proof.
  intros ToLower question allResults topK Hk lq kws scored sorted.
  assert (Hperm : Permutation sorted scored) by apply sortByScore_perm.
  split; [exact Hperm|]. split; [apply sortByScore_sorted|].
  split; [rewrite Hperm; apply scoreAll_original|].
  unfold reRankResults.
  destruct (Z.leb_spec (Z.of_nat (List.length allResults)) topK) as [Hle|_]; [lia|].
  destruct (Z.ltb_spec topK 0) as [Hneg|_]; [lia|].
  fold lq. fold kws. fold scored. fold sorted.
  rewrite selectPositive_spec.
  destruct (List.filter positive sorted) as [|sd kept] eqn:Hf.
  - replace (firstn (Z.to_nat topK) []) with (@nil scoredDoc) by (now destruct (Z.to_nat topK)).
    cbn [map]. exists (firstn (Z.to_nat topK) allResults).
    split; [reflexivity|]. split.
    { apply firstn_nonempty; [lia|]. destruct allResults; cbn in Hk; [lia | congruence]. }
    split; [rewrite length_firstn; lia|]. split; [|reflexivity].
    intros [x [Hin Hpos]]. exfalso.
    apply filter_positive_nil in Hf. rewrite Hperm in Hf.
    rewrite List.Forall_forall in Hf. specialize (Hf x Hin). cbn in Hf. lia.
  - destruct (Z.to_nat topK) as [|n] eqn:Hn; [lia|].
    cbn [firstn map]. eexists. split; [reflexivity|].
    split; [congruence|]. split.
    { cbn [List.length]. rewrite length_map, length_firstn. lia. }
    split.
    + intros _. fold positive. rewrite Hf. reflexivity.
    + intros Hall. exfalso. rewrite <- Hperm in Hall.
      apply filter_positive_nil in Hall. rewrite Hall in Hf. discriminate Hf.
Qed.

(** Three candidates, two requested: the two passages with a positive
    score come back, best first. *)
Lemma reRankResults_selection_witness :
  reRankResults lowerASCII "ab的c"
    [mkDocument "zz" ∅; mkDocument "xab" ∅; mkDocument "ab的c" ∅] 2
  = Some [mkDocument "ab的c" ∅; mkDocument "xab" ∅].
Proof.
  destruct (reRankResults_selection lowerASCII "ab的c"
              [mkDocument "zz" ∅; mkDocument "xab" ∅; mkDocument "ab的c" ∅] 2)
    as (_ & _ & _ & out & Hout & _ & _ & Hsel & _); [cbn; lia|].
  rewrite Hout. f_equal. apply Hsel.
  exists (mkScoredDoc (mkDocument "xab" ∅) 69 1). split; [|cbn; lia].
  right. left. reflexivity.
Defined.

(** C5 as stated fails for [k = 0]: one candidate is more than zero
    candidates, and nothing comes back. *)
Lemma reRankResults_empty_for_zero_topK :
  (0 < List.length [mkDocument "ab" ∅])%nat /\
  reRankResults lowerASCII "ab" [mkDocument "ab" ∅] 0 = Some [].
Proof. split; [cbn; lia | reflexivity]. Qed.

(** ** Keywords and scores *)

Section KeywordFacts.

Variable ToLower : string -> string.




(** A keyword of the question is one of its windows of two to four
    runes without a stop word. *)
Lemma keywordsAt_in (rs : list Z) (i : nat) (kw : string) :
  In kw (keywordsAt rs i) ->
  exists n : nat,
    (i + n <= List.length rs)%nat /\ kw = phraseAt rs i n /\
    hasStopWord rerankStopWords kw = false.
Proof.
  unfold keywordsAt. rewrite in_flat_map. intros [n [_ Hin]].
  destruct (Nat.leb_spec (i + n) (List.length rs)) as [Hle|_]; [|destruct Hin].
  cbv zeta in Hin.
  destruct (hasStopWord rerankStopWords (phraseAt rs i n)) eqn:Hs; [destruct Hin|].
  destruct Hin as [<-|[]]. exists n. auto.
Qed.

Lemma window_split (rs : list Z) (i n : nat) :
  rs = (firstn i rs ++ firstn n (skipn i rs) ++ skipn n (skipn i rs))%list.
Proof. now rewrite firstn_skipn, firstn_skipn. Qed.



(** A window of a well-formed question occurs in the question. *)
Lemma window_in_question (lq : string) (i n : nat) :
  wellFormed lq -> Contains lq (phraseAt (runes lq) i n) = true.
Proof.
  intros Hwf. unfold phraseAt. apply Contains_spec.
  exists (stringOfRunes (firstn i (runes lq))),
         (stringOfRunes (skipn n (skipn i (runes lq)))).
  rewrite <- !stringOfRunes_app, <- window_split. symmetry. exact Hwf.
Qed.

(** The keywords are the stop-word-free windows, or else the question
    alone. *)
Lemma extractKeywords_cases (lq : string) :
  extractKeywords lq = [lq] \/
  (extractKeywords lq <> [] /\
   forall kw, In kw (extractKeywords lq) ->
     exists i n, kw = phraseAt (runes lq) i n /\
                 hasStopWord rerankStopWords kw = false).
Proof.
  unfold extractKeywords. cbv zeta.
  destruct (flat_map _ _) as [|k ks] eqn:Hf; [now left|].
  right. split; [discriminate|]. intros kw Hin. rewrite <- Hf in Hin.
  apply in_flat_map in Hin as [i [_ Hin]].
  apply keywordsAt_in in Hin as [n [_ [-> Hs]]]. eauto.
Qed.

Lemma extractKeywords_nonempty (lq : string) : extractKeywords lq <> [].
Proof. destruct (extractKeywords_cases lq) as [->|[H _]]; [discriminate | exact H]. Qed.


Lemma hasByte_app (c : ascii) (a b : string) :
  hasByte c (a ++ b) = hasByte c a || hasByte c b.
Proof.
  induction a as [|x a IH]; [reflexivity|]. cbn [String.append hasByte].
  now rewrite IH, orb_assoc.
Qed.

Lemma Contains_hasByte (c : ascii) (s p : string) :
  Contains s p = true -> hasByte c s = false -> hasByte c p = false.
Proof.
  rewrite Contains_spec. intros [a [b ->]]. rewrite !hasByte_app.
  intros H. apply orb_false_iff in H as [_ H]. now apply orb_false_iff in H as [H _].
Qed.








End KeywordFacts.






(** ** Response assembly *)

Section AssemblyFacts.

Lemma length_truncateText (s : string) :
  (String.length (truncateText s) <= maxChunkContentLength + 3)%nat.
Proof.
  unfold truncateText.
  destruct (Nat.ltb_spec maxChunkContentLength (String.length s)) as [Hlt|Hge].
  - rewrite length_append'. pose proof (length_take maxChunkContentLength s).
    change (String.length "...") with 3%nat. lia.
  - lia.
Qed.

Lemma truncateText_short (s : string) :
  (String.length s <= maxChunkContentLength)%nat -> truncateText s = s.
Proof.
  intros H. unfold truncateText.
  destruct (Nat.ltb_spec maxChunkContentLength (String.length s)); [lia | reflexivity].
Qed.

Lemma limitChunks_chunks (g : DocGroup) :
  exists kept : list Chunk,
    Chunks (limitChunks g) = map truncateChunk kept /\
    (List.length kept <= maxChunksPerGroup)%nat /\
    (forall c, In c kept -> In c (Chunks g)).
Proof.
  unfold limitChunks. cbn [Chunks withChunks].
  destruct (Nat.ltb_spec maxChunksPerGroup (List.length (Chunks g))) as [Hlt|Hge].
  - exists (firstn maxChunksPerGroup (Chunks g)). split; [reflexivity|]. split.
    + rewrite length_firstn. lia.
    + intros c Hc. rewrite <- (firstn_skipn maxChunksPerGroup (Chunks g)).
      apply in_or_app. now left.
  - exists (Chunks g). auto.
Qed.


Lemma limitDocGroups_in (docGroups : list DocGroup) (g' : DocGroup) :
  In g' (limitDocGroups docGroups) ->
  exists g, In g docGroups /\ g' = limitChunks g.
Proof.
  unfold limitDocGroups. rewrite in_map_iff. intros [g [<- Hin]].
  exists g. split; [|reflexivity].
  destruct (maxDocGroups <? List.length docGroups)%nat; [|exact Hin].
  rewrite <- (firstn_skipn maxDocGroups docGroups). apply in_or_app. now left.
Qed.

Lemma assembleResponse_docGroups (ToLower : string -> string)
    (classified : DocGroup -> bool) (sch : Schedule) (qr : QueryResult) :
  respDocGroups (assembleResponse ToLower classified sch qr) =
  limitDocGroups
    (map (fun kg => withHasPublicForm (snd kg) (classified (snd kg)))
       (rangeGroups sch
          (fst (fold_left mergeResult
                  (deliver sch (spawnAll ToLower (extractUsedAnnotations (Answer qr)) 0
                                         (Results qr)))
                  (∅, []))))).
Proof.
  unfold assembleResponse. destruct (fold_left mergeResult _ _) as [m sr]. reflexivity.
Qed.

End AssemblyFacts.




(** ** Attribution and grouping *)

Section GroupingFacts.

Variable ToLower : string -> string.

Lemma processDoc_result (idx : Z) (d : Document) :
  let res := processDoc ToLower idx d in
  resIndex res = idx + 1 /\
  chunkIndex (result res) = idx + 1 /\
  chunkContent (result res) = PageContent d /\
  chunkPageContent (result res) = PageContent d /\
  Chunks (group res) = [result res].
Proof.
  unfold processDoc.
  repeat match goal with
         | |- context [match ?x with _ => _ end] => destruct x
         end; cbn; auto.
Qed.

Lemma spawnAll_in (used : gmap Z bool) (results : list Document) :
  forall (base : Z) (res : docProcessResult),
    In res (spawnAll ToLower used base results) ->
    exists (i : nat) (d : Document),
      nth_error results i = Some d /\
      res = processDoc ToLower (base + Z.of_nat i) d /\
      isUsed used (base + Z.of_nat i + 1) = true.
Proof.
  induction results as [|d rest IH]; intros base res Hin; [destruct Hin|].
  cbn [spawnAll] in Hin.
  assert (Hrest : In res (spawnAll ToLower used (base + 1) rest) ->
                  exists i d0, nth_error (d :: rest) i = Some d0 /\
                               res = processDoc ToLower (base + Z.of_nat i) d0 /\
                               isUsed used (base + Z.of_nat i + 1) = true).
  { intros H. destruct (IH _ _ H) as (i & d0 & Hn & Hr & Hu). exists (S i), d0.
    replace (base + Z.of_nat (S i)) with (base + 1 + Z.of_nat i) by lia. auto. }
  destruct (isUsed used (base + 1)) eqn:Hu; [|now apply Hrest].
  destruct Hin as [<-|Hin]; [|now apply Hrest].
  exists 0%nat, d. replace (base + Z.of_nat 0) with base by lia. auto.
Qed.

Lemma mergeResult_collected (P : Chunk -> Prop)
    (st : gmap string DocGroup * list Chunk) (res : docProcessResult) :
  collected P st -> P (result res) -> Forall P (Chunks (group res)) ->
  collected P (mergeResult st res).
Proof.
  intros [Hm Hs] Hres Hgrp. destruct st as [m sr]. cbn [fst snd] in *.
  unfold mergeResult.
  assert (Hsr : Forall P (sr ++ [result res])) by (apply Forall_app; auto).
  destruct (m !! groupKey res) as [existing|] eqn:Hk; split; cbn [fst snd]; auto.
  - intros k g Hg. destruct (decide (groupKey res = k)) as [<-|Hne].
    + rewrite lookup_insert_eq in Hg. inversion Hg; subst g. clear Hg.
      cbn [Chunks withChunks]. apply Forall_app. split; [|auto].
      specialize (Hm _ _ Hk).
      repeat match goal with
             | |- context [if ?c then _ else _] => destruct c
             end; exact Hm.
    + rewrite lookup_insert_ne in Hg by exact Hne. eauto.
  - intros k g Hg. destruct (decide (groupKey res = k)) as [<-|Hne].
    + rewrite lookup_insert_eq in Hg. now inversion Hg; subst g.
    + rewrite lookup_insert_ne in Hg by exact Hne. eauto.
Qed.

Lemma fold_mergeResult_collected (P : Chunk -> Prop) (arrived : list docProcessResult) :
  forall st : gmap string DocGroup * list Chunk,
    collected P st ->
    (forall res, In res arrived -> P (result res) /\ Forall P (Chunks (group res))) ->
    collected P (fold_left mergeResult arrived st).
Proof.
  induction arrived as [|res rest IH]; intros st Hst Hall; [exact Hst|].
  cbn [fold_left]. apply IH.
  - destruct (Hall res (or_introl eq_refl)). now apply mergeResult_collected.
  - intros r Hr. apply Hall. now right.
Qed.

Lemma insertByIndex_perm (c : Chunk) (l : list Chunk) :
  Permutation (insertByIndex c l) (c :: l).
Proof.
  induction l as [|x l IH]; [reflexivity|]. cbn [insertByIndex].
  destruct (chunkIndex c <? chunkIndex x); [reflexivity|].
  transitivity (x :: c :: l); [now constructor | apply perm_swap].
Qed.

Lemma sortByIndex_perm (l : list Chunk) : Permutation (sortByIndex l) l.
Proof.
  induction l as [|c l IH]; [reflexivity|]. cbn [sortByIndex fold_right].
  fold (sortByIndex l). rewrite insertByIndex_perm. now constructor.
Qed.

Lemma promptPassages_app (a b : list Document) :
  forall base : Z,
    promptPassages base (a ++ b) =
    promptPassages base a ++ promptPassages (base + Z.of_nat (List.length a)) b.
Proof.
  induction a as [|d a IH]; intros base; cbn [promptPassages app List.length].
  - now replace (base + Z.of_nat 0) with base by lia.
  - rewrite IH, append_assoc'.
    now replace (base + 1 + Z.of_nat (List.length a))
      with (base + Z.of_nat (S (List.length a))) by lia.
Qed.

Lemma firstn_length_app {A : Type} (l1 l2 : list A) :
  firstn (List.length l1) (l1 ++ l2) = l1.
Proof. induction l1 as [|x l1 IH]; [reflexivity|]. cbn. now rewrite IH. Qed.

Lemma skipn_S_length_app {A : Type} (l1 : list A) (x : A) (l2 : list A) :
  skipn (S (List.length l1)) (l1 ++ x :: l2) = l2.
Proof. induction l1 as [|y l1 IH]; [reflexivity|]. cbn [List.length app skipn]. exact IH. Qed.

(** The passage at position [i] of the list is written to the prompt
    under the number [i+1]. *)
Lemma promptPassages_nth (results : list Document) (i : nat) (d : Document) :
  nth_error results i = Some d ->
  promptPassages 0 results =
  promptPassages 0 (firstn i results) ++ promptPassage (Z.of_nat i) d ++
  promptPassages (Z.of_nat i + 1) (skipn (S i) results).
Proof.
  intros Hn. pose proof (nth_error_split results i Hn) as (l1 & l2 & Heq & Hlen).
  subst results. rewrite <- Hlen.
  rewrite firstn_length_app, skipn_S_length_app.
  rewrite promptPassages_app. cbn [promptPassages]. now rewrite Z.add_0_l.
Qed.

End GroupingFacts.

Section ResponseFacts.

Variable ToLower : string -> string.
Variable classified : DocGroup -> bool.
Variable sch : Schedule.

Lemma collected_traces (qr : QueryResult) :
  fairSchedule sch ->
  collected (tracesTo (Results qr) (extractUsedAnnotations (Answer qr)))
    (fold_left mergeResult
       (deliver sch (spawnAll ToLower (extractUsedAnnotations (Answer qr)) 0 (Results qr)))
       (∅, [])).
Proof.
  intros [Hdel _]. apply fold_mergeResult_collected.
  - split; cbn [fst snd]; [|constructor]. intros k g Hg. now rewrite lookup_empty in Hg.
  - intros res Hin. apply (Permutation_in _ (Hdel _)) in Hin.
    apply spawnAll_in in Hin as (i & d & Hn & -> & Hu).
    destruct (processDoc_result ToLower (0 + Z.of_nat i) d) as (_ & Hi & Hc & Hp & Hg).
    assert (Ht : tracesTo (Results qr) (extractUsedAnnotations (Answer qr))
                   (result (processDoc ToLower (0 + Z.of_nat i) d))).
    { exists i, d. rewrite Hi, Hc, Hp. repeat split; auto. }
    split; [exact Ht|]. rewrite Hg. now constructor.
Qed.

Lemma assembleResponse_results (qr : QueryResult) :
  respResults (assembleResponse ToLower classified sch qr) =
  shareTruncation (respDocGroups (assembleResponse ToLower classified sch qr))
    (sortByIndex
       (snd (fold_left mergeResult
               (deliver sch (spawnAll ToLower (extractUsedAnnotations (Answer qr)) 0
                                      (Results qr)))
               (∅, [])))).
Proof.
  unfold assembleResponse. destruct (fold_left mergeResult _ _) as [m sr]. reflexivity.
Qed.

(** A chunk of a returned group is the truncation of a collected
    chunk. *)
Lemma respDocGroups_chunk (qr : QueryResult) (g : DocGroup) (c : Chunk) :
  fairSchedule sch ->
  In g (respDocGroups (assembleResponse ToLower classified sch qr)) ->
  In c (Chunks g) ->
  exists c0 : Chunk,
    c = truncateChunk c0 /\
    tracesTo (Results qr) (extractUsedAnnotations (Answer qr)) c0.
Proof.
  intros Hfair Hg Hc. pose proof (collected_traces qr Hfair) as [Hcol _].
  destruct Hfair as [_ Hrange].
  rewrite assembleResponse_docGroups in Hg.
  apply limitDocGroups_in in Hg as [g1 [Hg1 ->]].
  apply in_map_iff in Hg1 as [[k g0] [<- Hkg]]. cbn [snd] in *.
  apply (Permutation_in _ (Hrange _)) in Hkg.
  apply list_elem_of_In, elem_of_map_to_list in Hkg.
  specialize (Hcol _ _ Hkg).
  destruct (limitChunks_chunks (withHasPublicForm g0 (classified g0)))
    as [kept [Hk [_ Hsub]]].
  rewrite Hk in Hc. apply in_map_iff in Hc as [c0 [<- Hc0]].
  exists c0. split; [reflexivity|].
  apply Hsub in Hc0. cbn [Chunks withHasPublicForm] in Hc0.
  rewrite List.Forall_forall in Hcol. now apply Hcol.
Qed.


End ResponseFacts.


Lemma fairSchedule_inOrder : fairSchedule inOrder.
Proof. split; intros; reflexivity. Qed.


(** ** The empty-result answer *)

Section SentinelFacts.

Variable ToLower : string -> string.

Lemma reRankResults_nonempty (question : string) (allResults : list Document) (topK : Z) :
  1 <= topK -> allResults <> [] ->
  exists out, reRankResults ToLower question allResults topK = Some out /\ out <> [].
Proof.
  intros Hk Hne. unfold reRankResults.
  destruct (Z.leb_spec (Z.of_nat (List.length allResults)) topK); [eauto|].
  destruct (Z.ltb_spec topK 0); [lia|]. cbv zeta.
  destruct (selectPositive _ _) as [|d rest]; eexists; (split; [reflexivity|]).
  - apply firstn_nonempty; [lia | exact Hne].
  - discriminate.
Qed.

Lemma filterRelevantResults_nonempty (question : string) (results : list Document) :
  results <> [] -> filterRelevantResults ToLower question results <> [].
Proof.
  intros Hne. rewrite filterRelevantResults_unfold.
  destruct (coreKeywordsOf (ToLower question)); [exact Hne|].
  destruct (List.filter _ results) eqn:Hf; [|discriminate].
  apply firstn_nonempty; [|exact Hne].
  destruct results; [congruence | cbn; lia].
Qed.

(** With a result size of at least 1, the passages handed on are empty
    only when nothing was retrieved. *)
Lemma selectPassages_empty (topK : Z) (question : string) (allResults : list Document) :
  1 <= topK ->
  selectPassages ToLower topK question allResults = Some [] -> allResults = [].
Proof.
  intros Hk Hsel. destruct allResults as [|d rest]; [reflexivity|]. exfalso.
  destruct (reRankResults_nonempty question (d :: rest) topK Hk ltac:(discriminate))
    as (out & Hout & Hne).
  unfold selectPassages in Hsel. rewrite Hout in Hsel. inversion Hsel as [Hf].
  now apply (filterRelevantResults_nonempty question out Hne).
Qed.

Lemma assembleResponse_no_results (classified : DocGroup -> bool) (sch : Schedule)
    (answer : string) :
  fairSchedule sch ->
  assembleResponse ToLower classified sch (mkQueryResult answer []) =
  mkQueryResponse answer [] [].
Proof.
  intros [Hdel Hrange]. unfold assembleResponse. cbn [Results Answer spawnAll].
  rewrite (Permutation_nil (Permutation_sym (Hdel []))). cbn [fold_left].
  assert (Hr : rangeGroups sch ∅ = []).
  { apply Permutation_nil. rewrite (Hrange ∅). now rewrite map_to_list_empty. }
  rewrite Hr. reflexivity.
Qed.

End SentinelFacts.

(** Passages without any core keyword are not dropped: the filter keeps
    the first three, the generator is asked, and its answer is
    returned. *)
Lemma irrelevant_candidates_reach_generator :
  QueryWithResults lowerASCII
    (fun _ _ => Some [mkDocument "今日天气晴" ∅; mkDocument "周末安排" ∅])
    (fun _ => GenerateOk "根据提供的上下文，我无法找到相关信息")
    3 "培训要求有几条"
  = inl (mkQueryResult "根据提供的上下文，我无法找到相关信息"
           [mkDocument "今日天气晴" ∅; mkDocument "周末安排" ∅]).
Proof. reflexivity. Qed.

(** C1: when re-ranking and relevance filtering leave no passage, the
    query answers with the fixed sentence, lists no passage, and the
    response built from it has no result and no document group; the
    generator is not consulted. *)
Theorem no_passage_gives_fixed_answer :
  forall (ToLower : string -> string) (Search : string -> Z -> option (list Document))
         (Generate : string -> GenerateResult) (classified : DocGroup -> bool)
         (sch : Schedule) (topK : Z) (question : string) (allResults : list Document),
    fairSchedule sch ->
    Search question (searchTopKOf topK) = Some allResults ->
    selectPassages ToLower topK question allResults = Some [] ->
    QueryWithResults ToLower Search Generate topK question =
      inl (mkQueryResult "抱歉，我在知识库中没有找到相关信息。" []) /\
    Query ToLower Search Generate topK question =
      inl "抱歉，我在知识库中没有找到相关信息。" /\
    assembleResponse ToLower classified sch
      (mkQueryResult "抱歉，我在知识库中没有找到相关信息。" []) =
      mkQueryResponse "抱歉，我在知识库中没有找到相关信息。" [] [].
Proof.
  intros ToLower Search Generate classified sch topK question allResults Hfair Hs Hsel.
  split; [|split].
  - unfold QueryWithResults. now rewrite Hs, Hsel.
  - unfold Query. now rewrite Hs, Hsel.
  - now apply assembleResponse_no_results.
Qed.

(** Nothing retrieved for a result size of 3; and, for a result size of
    0, a candidate that does not survive. *)
Lemma no_passage_gives_fixed_answer_witness :
  QueryWithResults lowerASCII (fun _ _ => Some []) (fun _ => GenerateFailed) 3 "培训要求有几条"
    = inl (mkQueryResult noResultsAnswer []) /\
  QueryWithResults lowerASCII (fun _ _ => Some [mkDocument "培训要求包括三项" ∅])
    (fun _ => GenerateFailed) 0 "培训要求有几条"
    = inl (mkQueryResult noResultsAnswer []).
Proof.
  split.
  - apply (no_passage_gives_fixed_answer lowerASCII (fun _ _ => Some [])
             (fun _ => GenerateFailed) (fun _ => false) inOrder 3 "培训要求有几条" []).
    + exact fairSchedule_inOrder.
    + reflexivity.
    + reflexivity.
  - apply (no_passage_gives_fixed_answer lowerASCII
             (fun _ _ => Some [mkDocument "培训要求包括三项" ∅])
             (fun _ => GenerateFailed) (fun _ => false) inOrder 0 "培训要求有几条"
             [mkDocument "培训要求包括三项" ∅]).
    + exact fairSchedule_inOrder.
    + reflexivity.
    + reflexivity.
Defined.

(** ** The handler *)

(** A successful reply is the response assembled from what
    [QueryWithResults] returned for the effective result size. *)
Lemma handleQuery_ok (ToLower : string -> string)
    (Search : string -> Z -> option (list Document)) (Generate : string -> GenerateResult)
    (classified : DocGroup -> bool) (sch : Schedule)
    (question : string) (reqTopK : Z) (r : QueryResponse) :
  handleQuery ToLower Search Generate classified sch question reqTopK = ReplyOk r ->
  exists qr : QueryResult,
    QueryWithResults ToLower Search Generate (if reqTopK =? 0 then 3 else reqTopK) question
      = inl qr /\
    r = assembleResponse ToLower classified sch qr.
Proof.
  unfold handleQuery. destruct (String.eqb question ""); [discriminate|]. cbv zeta.
  destruct (QueryWithResults _ _ _ _ _) as [qr|e]; [|discriminate].
  intros H. inversion H. eauto.
Qed.

(** ** The classification cache *)

Section CacheFacts.

Variable ToLower : string -> string.
Variable Join : string -> string -> string.
Variable statOk : string -> bool.
Variable fileBytes : string -> option string.
Variable loadFile : string -> option (list Document).

#[local] Abbreviation submit := (checkPublicForm_submit ToLower).
#[local] Abbreviation after := (serverAfter ToLower Join statOk fileBytes loadFile).

Lemma submit_cached (s : Server) (g : DocGroup) (v : bool) :
  eligibleType (ToLower (FileType g)) = true ->
  FileID g <> "" ->
  publicFormCache s !! FileID g = Some v ->
  submit s g = CheckReturned s (withHasPublicForm g v).
Proof.
  intros He Hid Hc. unfold checkPublicForm_submit. rewrite He. cbn [negb].
  destruct (String.eqb_spec (FileID g) "") as [E|_]; [contradiction|].
  cbn [negb]. now rewrite Hc.
Qed.


Lemma submit_queued (s : Server) (g : DocGroup) :
  eligibleType (ToLower (FileType g)) = true ->
  FileID g <> "" ->
  publicFormCache s !! FileID g = None ->
  (List.length (checkQueue s) < checkQueueCapacity)%nat ->
  submit s g = CheckSleeping (withQueue s (checkQueue s ++ [g])) g.
Proof.
  intros He Hid Hc Hroom. unfold checkPublicForm_submit. rewrite He, Hc. cbn [negb].
  destruct (String.eqb_spec (FileID g) "") as [E|_]; [contradiction|]. cbn [negb].
  destruct (Nat.ltb_spec (List.length (checkQueue s)) checkQueueCapacity); [reflexivity | lia].
Qed.







Lemma checkPublicForm_cached (during : Server -> Server) (s : Server) (g : DocGroup)
    (v : bool) :
  eligibleType (ToLower (FileType g)) = true ->
  FileID g <> "" ->
  publicFormCache s !! FileID g = Some v ->
  checkPublicForm ToLower during s g = (s, withHasPublicForm g v).
Proof.
  intros He Hid Hc. unfold checkPublicForm. now rewrite (submit_cached s g v He Hid Hc).
Qed.

End CacheFacts.




(** A task queued twice is classified twice: the second worker reads the
    file again although the verdict is already cached. *)
Lemma pending_duplicate_is_read_again :
  publicFormCache
    (runEvents lowerASCII Examples.uploadsJoin Examples.worldStat Examples.worldBytes
       Examples.worldLoad Examples.twicePendingServer
       [WorkerTake; WorkerFinish 0]) !! "f1" = Some true /\
  List.length
    (accessesFor "f1"
       (accessLog (runEvents lowerASCII Examples.uploadsJoin Examples.worldStat
                     Examples.worldBytes Examples.worldLoad Examples.twicePendingServer
                     [WorkerTake; WorkerFinish 0]))) = 2%nat /\
  List.length
    (accessesFor "f1"
       (accessLog (runEvents lowerASCII Examples.uploadsJoin Examples.worldStat
                     Examples.worldBytes Examples.worldLoad Examples.twicePendingServer
                     [WorkerTake; WorkerFinish 0; WorkerTake; WorkerFinish 0]))) = 4%nat.
Proof. repeat split. Qed.



(** * Further properties of the retrieval pipeline ([rag.go]) *)

Section PipelineFacts.

Variable ToLower : string -> string.

Lemma List_filter_sublist {A : Type} (p : A -> bool) (l : list A) :
  List.filter p l `sublist_of` l.
Proof.
  induction l as [|x l IH]; cbn [List.filter]; [constructor|].
  destruct (p x); [now apply sublist_skip | now apply sublist_cons].
Qed.

Lemma List_filter_Forall {A : Type} (p : A -> bool) (l : list A) :
  Forall (fun x => p x = true) (List.filter p l).
Proof.
  apply List.Forall_forall. intros x Hx. now apply filter_In in Hx.
Qed.

Lemma map_submseteq {A B : Type} (f : A -> B) (l1 l2 : list A) :
  l1 ⊆+ l2 -> map f l1 ⊆+ map f l2.
Proof.
  induction 1; cbn [map]; try (now constructor).
  etransitivity; eassumption.
Qed.

(** What [reRankResults] returns when it returns: passages of the
    candidate list, none twice, no more than [topK]. *)
Lemma reRankResults_some (question : string) (allResults : list Document) (topK : Z)
    (out : list Document) :
  reRankResults ToLower question allResults topK = Some out ->
  out ⊆+ allResults /\
  (List.length out <= Z.to_nat topK)%nat /\
  (topK < Z.of_nat (List.length allResults) \/ out = allResults).
Proof.
  unfold reRankResults.
  destruct (Z.leb_spec (Z.of_nat (List.length allResults)) topK) as [Hle|Hgt].
  - intros [= <-]. split; [reflexivity|]. split; [lia | now right].
  - destruct (Z.ltb_spec topK 0) as [|Hk]; [discriminate|].
    rewrite selectPositive_spec.
    set (kept := List.filter positive _).
    destruct (map doc (firstn (Z.to_nat topK) kept)) as [|d l] eqn:Hsel; intros [= <-].
    + split; [apply submseteq_take|]. split; [apply firstn_le_length | now left].
    + rewrite <- Hsel. split; [|split; [|now left]].
      * transitivity (map doc (sortByScore (scoreAll ToLower (ToLower question)
                         (extractKeywords (ToLower question)) 0 allResults))).
        -- apply map_submseteq, sublist_submseteq.
           etransitivity; [apply sublist_take | apply List_filter_sublist].
        -- apply Permutation_submseteq.
           rewrite sortByScore_perm, scoreAll_docs. reflexivity.
      * rewrite length_map. apply firstn_le_length.
Qed.

Lemma reRankResults_none (question : string) (allResults : list Document) (topK : Z) :
  reRankResults ToLower question allResults topK = None <-> topK < 0.
Proof.
  unfold reRankResults.
  destruct (Z.leb_spec (Z.of_nat (List.length allResults)) topK) as [Hle|Hgt].
  - split; [discriminate | lia].
  - destruct (Z.ltb_spec topK 0) as [|Hk]; [tauto|].
    destruct (selectPositive _ _); split; try discriminate; lia.
Qed.

(** The filter keeps passages of its input in their order; it empties
    nothing; its fallback is the first three passages. *)
Lemma filterRelevantResults_cases (question : string) (results : list Document) :
  let out := filterRelevantResults ToLower question results in
  out = results \/
  (out = List.filter (hasRelevantKeyword ToLower (coreKeywordsOf (ToLower question))) results /\
   out <> []) \/
  (out = firstn 3 results /\
   Forall (fun d => hasRelevantKeyword ToLower (coreKeywordsOf (ToLower question)) d = false)
          results).
Proof.
  cbv zeta. rewrite filterRelevantResults_unfold.
  destruct (coreKeywordsOf (ToLower question)) as [|k ks] eqn:Hk; [now left|].
  destruct (List.filter _ results) as [|d l] eqn:Hf.
  - right; right. split.
    + destruct (Nat.le_gt_cases 3 (List.length results)) as [H|H].
      * now rewrite Nat.min_l by exact H.
      * rewrite Nat.min_r by lia. now rewrite !firstn_all2 by lia.
    + apply List.Forall_forall. intros x Hx.
      destruct (hasRelevantKeyword ToLower (k :: ks) x) eqn:Hx'; [|reflexivity].
      assert (Hin : In x (List.filter (hasRelevantKeyword ToLower (k :: ks)) results))
        by (apply filter_In; auto).
      rewrite Hf in Hin. destruct Hin.
  - right; left. split; [reflexivity | discriminate].
Qed.

Lemma filterRelevantResults_sublist (question : string) (results : list Document) :
  filterRelevantResults ToLower question results `sublist_of` results.
Proof.
  destruct (filterRelevantResults_cases question results) as [->|[[-> _]|[-> _]]].
  - reflexivity.
  - apply List_filter_sublist.
  - apply sublist_take.
Qed.

Lemma selectPassages_some (topK : Z) (question : string)
    (allResults results : list Document) :
  selectPassages ToLower topK question allResults = Some results ->
  results ⊆+ allResults /\ (List.length results <= Z.to_nat topK)%nat.
Proof.
  unfold selectPassages.
  destruct (reRankResults ToLower question allResults topK) as [ranked|] eqn:Hr;
    [|discriminate].
  intros [= <-]. apply reRankResults_some in Hr as (Hsub & Hlen & _).
  pose proof (filterRelevantResults_sublist question ranked) as Hf.
  split.
  - etransitivity; [apply sublist_submseteq, Hf | exact Hsub].
  - apply sublist_length in Hf. lia.
Qed.

End PipelineFacts.

(** X1. [reRankResults] fails exactly for a negative [topK]; what it
    returns is made of candidates, each used at most as often as it was
    retrieved, and holds no more than [topK] passages; a candidate list
    that already fits is returned as it is. *)
Theorem reRankResults_returns_candidates :
  forall (ToLower : string -> string) (question : string)
         (allResults : list Document) (topK : Z),
    (reRankResults ToLower question allResults topK = None <-> topK < 0) /\
    forall out : list Document,
      reRankResults ToLower question allResults topK = Some out ->
      out ⊆+ allResults /\
      (List.length out <= Z.to_nat topK)%nat /\
      (topK < Z.of_nat (List.length allResults) \/ out = allResults).
Proof.
  intros ToLower question allResults topK. split.
  - apply reRankResults_none.
  - intros out. apply reRankResults_some.
Qed.

Lemma reRankResults_returns_candidates_witness :
  [mkDocument "ab的c" ∅; mkDocument "xab" ∅] ⊆+
    [mkDocument "zz" ∅; mkDocument "xab" ∅; mkDocument "ab的c" ∅] /\
  (List.length [mkDocument "ab的c" ∅; mkDocument "xab" ∅] <= Z.to_nat 2)%nat.
Proof.
  destruct (reRankResults_returns_candidates lowerASCII "ab的c"
              [mkDocument "zz" ∅; mkDocument "xab" ∅; mkDocument "ab的c" ∅] 2)
    as [_ H].
  destruct (H [mkDocument "ab的c" ∅; mkDocument "xab" ∅]) as (Hsub & Hlen & _).
  - vm_compute. reflexivity.
  - split; assumption.
Defined.

(** X2. [filterRelevantResults] returns passages of its input in their
    order, and returns none only when it is given none; it returns its
    input, or the passages holding a core keyword, or, when no passage
    holds one, the first three. *)
Theorem filterRelevantResults_keeps_order :
  forall (ToLower : string -> string) (question : string) (results : list Document),
    let out := filterRelevantResults ToLower question results in
    let relevant := hasRelevantKeyword ToLower (coreKeywordsOf (ToLower question)) in
    out `sublist_of` results /\
    (out = [] <-> results = []) /\
    (out = results \/
     (out = List.filter relevant results /\ out <> []) \/
     (out = firstn 3 results /\ Forall (fun d => relevant d = false) results)).
Proof.
  intros ToLower question results. cbv zeta. split; [|split].
  - apply filterRelevantResults_sublist.
  - split.
    + intros H. destruct results as [|d l]; [reflexivity|].
      exfalso. revert H. now apply filterRelevantResults_nonempty.
    + now intros ->.
  - apply filterRelevantResults_cases.
Qed.

(** X3. A successful query hands the generator, and returns, at most
    [topK] passages, all taken from what the store returned for the
    widened search. *)
Theorem at_most_topK_passages_returned :
  forall (ToLower : string -> string) (Search : string -> Z -> option (list Document))
         (Generate : string -> GenerateResult) (topK : Z) (question : string)
         (qr : QueryResult),
    QueryWithResults ToLower Search Generate topK question = inl qr ->
    (List.length (Results qr) <= Z.to_nat topK)%nat /\
    exists allResults : list Document,
      Search question (searchTopKOf topK) = Some allResults /\
      Results qr ⊆+ allResults.
Proof.
  intros ToLower Search Generate topK question qr. unfold QueryWithResults.
  destruct (Search question (searchTopKOf topK)) as [allResults|]; [|discriminate].
  destruct (selectPassages ToLower topK question allResults) as [results|] eqn:Hs;
    [|discriminate].
  apply selectPassages_some in Hs as [Hsub Hlen].
  destruct results as [|d l].
  - intros [= <-]. cbn. split; [lia|]. exists allResults. split; [reflexivity|].
    apply submseteq_nil_l.
  - destruct (Generate _); try discriminate. intros [= <-]. cbn [Results].
    split; [exact Hlen|]. exists allResults. auto.
Qed.

Lemma at_most_topK_passages_returned_witness :
  (List.length Examples.kbDocs <= Z.to_nat 3)%nat /\
  exists allResults : list Document,
    Examples.kbSearch Examples.kbQuestion (searchTopKOf 3) = Some allResults /\
    Examples.kbDocs ⊆+ allResults.
Proof.
  apply (at_most_topK_passages_returned lowerASCII Examples.kbSearch Examples.kbGenerate
           3 Examples.kbQuestion Examples.kbResult).
  vm_compute. reflexivity.
Defined.

(** X4. [Query] and [QueryWithResults] run the same pipeline: [Query]
    returns the answer of [QueryWithResults], and fails with the same
    error. *)
Theorem Query_agrees_with_QueryWithResults :
  forall (ToLower : string -> string) (Search : string -> Z -> option (list Document))
         (Generate : string -> GenerateResult) (topK : Z) (question : string),
    Query ToLower Search Generate topK question =
    match QueryWithResults ToLower Search Generate topK question with
    | inl qr => inl (Answer qr)
    | inr e => inr e
    end.
Proof.
  intros ToLower Search Generate topK question. unfold Query, QueryWithResults.
  destruct (Search question (searchTopKOf topK)) as [allResults|]; [|reflexivity].
  destruct (selectPassages ToLower topK question allResults) as [[|d l]|];
    try reflexivity.
  destruct (Generate _); reflexivity.
Qed.


(** ** Keywords of the question ([rag.go], [reRankResults]) *)

Section KeywordShape.

Lemma keywordsAt_window (rs : list Z) (i : nat) (kw : string) :
  In kw (keywordsAt rs i) ->
  exists n : nat,
    (2 <= n <= 4)%nat /\ (i + n <= List.length rs)%nat /\ kw = phraseAt rs i n /\
    hasStopWord rerankStopWords kw = false.
Proof.
  unfold keywordsAt. rewrite in_flat_map. intros [n [Hn Hin]].
  destruct (Nat.leb_spec (i + n) (List.length rs)) as [Hle|_]; [|destruct Hin].
  cbv zeta in Hin.
  destruct (hasStopWord rerankStopWords (phraseAt rs i n)) eqn:Hs; [destruct Hin|].
  destruct Hin as [<-|[]]. exists n. repeat split; auto.
  - destruct Hn as [<-|[<-|[<-|[]]]]; lia.
  - destruct Hn as [<-|[<-|[<-|[]]]]; lia.
Qed.

Lemma length_keywordsAt (rs : list Z) (i : nat) :
  (List.length (keywordsAt rs i) <= 3)%nat.
Proof.
  unfold keywordsAt. cbn [flat_map]. rewrite !length_app. cbv zeta.
  repeat match goal with
         | |- context [if ?b then _ else _] => destruct b
         end; cbn [List.length]; lia.
Qed.

Lemma length_flat_map_le {A B : Type} (f : A -> list B) (k : nat) (l : list A) :
  (forall x, List.length (f x) <= k)%nat ->
  (List.length (flat_map f l) <= k * List.length l)%nat.
Proof.
  intros Hf. induction l as [|x l IH]; cbn [flat_map List.length]; [lia|].
  rewrite length_app. specialize (Hf x). lia.
Qed.

End KeywordShape.

(** X6. The keywords drawn from a lower-cased question: there is always
    one; there are at most three per rune position; each occurs in the
    question, and is the question itself or a window of two to four of
    its runes that holds no stop word. *)
Theorem extractKeywords_shape :
  forall (unicodeToLower : Z -> Z) (question : string),
    let lq := GoCase.ToLower unicodeToLower question in
    extractKeywords lq <> [] /\
    (List.length (extractKeywords lq) <= Nat.max 1 (3 * (List.length (runes lq) - 1)))%nat /\
    Forall (fun kw =>
              Contains lq kw = true /\
              (kw = lq \/
               (hasStopWord rerankStopWords kw = false /\
                exists i n : nat,
                  (2 <= n <= 4)%nat /\ (i + n <= List.length (runes lq))%nat /\
                  kw = phraseAt (runes lq) i n)))
           (extractKeywords lq).
Proof.
  intros unicodeToLower question lq.
  assert (Hwf : wellFormed lq) by apply ToLower_wellFormed.
  split; [apply extractKeywords_nonempty|].
  unfold extractKeywords. cbv zeta.
  pose proof (length_flat_map_le (keywordsAt (runes lq)) 3
                (seq 0 (List.length (runes lq) - 1)) (length_keywordsAt (runes lq))) as Hlen.
  rewrite length_seq in Hlen.
  destruct (flat_map _ _) as [|k ks] eqn:Hf.
  - split; [cbn; lia|]. constructor; [|constructor].
    split; [apply Contains_refl | now left].
  - split; [lia|]. rewrite <- Hf. apply List.Forall_forall. intros kw Hin.
    apply in_flat_map in Hin as [i [_ Hin]].
    apply keywordsAt_window in Hin as (n & Hn & Hle & -> & Hs).
    split; [now apply window_in_question|].
    right. split; [exact Hs|]. exists i, n. auto.
Qed.

(** ** The prompt ([rag.go], [buildPrompt]) *)

Section PromptFacts.

#[local] Opaque promptHeader promptFooter.

Lemma promptPassage_contains (i : Z) (d : Document) :
  Contains (promptPassage i d)
    (("[文档片段 " ++ itoa (i + 1) ++ "] " ++ getCircleNumber (i + 1) ++ nl) ++
     take maxDocLength (PageContent d)) = true.
Proof.
  unfold promptPassage. cbv zeta.
  set (src := match metaString d "source" with Some _ => _ | None => _ end).
  apply Contains_spec.
  destruct (Nat.ltb_spec maxDocLength (String.length (PageContent d))) as [Hlt|Hge].
  - exists nl, ("..." ++ nl ++ src). now rewrite !append_assoc'.
  - exists nl, (nl ++ src). rewrite (take_all maxDocLength (PageContent d)) by exact Hge.
    now rewrite !append_assoc'.
Qed.

Lemma buildPrompt_passage (question : string) (results : list Document)
    (i : nat) (d : Document) :
  nth_error results i = Some d ->
  Contains (buildPrompt question results)
    (("[文档片段 " ++ itoa (Z.of_nat i + 1) ++ "] " ++ getCircleNumber (Z.of_nat i + 1) ++ nl) ++
     take maxDocLength (PageContent d)) = true.
Proof.
  intros Hnth. unfold buildPrompt.
  apply Contains_app_r, Contains_app_l.
  rewrite (promptPassages_nth results i d Hnth).
  apply Contains_app_r, Contains_app_l, promptPassage_contains.
Qed.

Lemma buildPrompt_question (question : string) (results : list Document) :
  HasPrefix (buildPrompt question results) promptHeader = true /\
  Contains (buildPrompt question results) (nl ++ "问题: " ++ question ++ promptFooter) = true.
Proof.
  unfold buildPrompt. split.
  - apply HasPrefix_spec. eauto.
  - apply Contains_app_r, Contains_app_r, Contains_refl.
Qed.

End PromptFacts.

(** X7. The prompt starts with the fixed instructions and holds the
    question followed by the closing instructions; for every passage it
    holds the header with the passage number and its citation marker,
    directly followed by the first 800 bytes of the passage. *)
Theorem buildPrompt_holds_question_and_passages :
  forall (question : string) (results : list Document),
    HasPrefix (buildPrompt question results) promptHeader = true /\
    Contains (buildPrompt question results)
      (nl ++ "问题: " ++ question ++ promptFooter) = true /\
    forall (i : nat) (d : Document),
      nth_error results i = Some d ->
      Contains (buildPrompt question results)
        (("[文档片段 " ++ itoa (Z.of_nat i + 1) ++ "] " ++
          getCircleNumber (Z.of_nat i + 1) ++ nl) ++
         take 800 (PageContent d)) = true.
Proof.
  intros question results.
  destruct (buildPrompt_question question results) as [Hp Hq].
  split; [exact Hp|]. split; [exact Hq|].
  intros i d. apply buildPrompt_passage.
Qed.

Lemma buildPrompt_holds_question_and_passages_witness :
  Contains (buildPrompt Examples.kbQuestion Examples.kbDocs)
    ("[文档片段 3] ③" ++ nl ++ "其他培训要求") = true.
Proof.
  destruct (buildPrompt_holds_question_and_passages Examples.kbQuestion Examples.kbDocs)
    as (_ & _ & H).
  apply (H 2%nat (mkDocument "其他培训要求"
                    {[ "source" := MetaString "uploads/a_规定.pdf" ]})).
  reflexivity.
Defined.

(** ** Citation markers: what [getCircleNumber] prints and what
    [extractUsedAnnotations] reads back *)

Section MarkerRoundTrip.

Lemma digitChar_not_lead (d : Z) :
  0 <= d < 10 -> Ascii.eqb (digitChar d) "226"%char = false.
Proof.
  intros H.
  assert (Hd : d = 0 \/ d = 1 \/ d = 2 \/ d = 3 \/ d = 4 \/ d = 5 \/ d = 6 \/ d = 7 \/
               d = 8 \/ d = 9) by lia.
  repeat (destruct Hd as [->|Hd]; [reflexivity|]). now subst.
Qed.

Lemma itoaPos_no_lead (fuel : nat) :
  forall (n : Z) (acc : string),
    hasByte "226"%char acc = false ->
    hasByte "226"%char (itoaPos fuel n acc) = false.
Proof.
  induction fuel as [|fuel IH]; intros n acc Hacc; cbn [itoaPos]; [exact Hacc|].
  assert (Hacc' : hasByte "226"%char (String (digitChar (n mod 10)) acc) = false).
  { cbn [hasByte]. rewrite digitChar_not_lead, Hacc; [reflexivity|].
    apply Z.mod_pos_bound. lia. }
  cbv zeta. destruct (n / 10 =? 0); [exact Hacc' | now apply IH].
Qed.

Lemma itoa_no_lead (n : Z) : hasByte "226"%char (itoa n) = false.
Proof.
  unfold itoa. destruct (n <? 0).
  - cbn [hasByte]. now rewrite itoaPos_no_lead.
  - now apply itoaPos_no_lead.
Qed.

Lemma Contains_marker_in_marker (n j : Z) :
  1 <= n <= 10 -> 1 <= j <= 10 ->
  Contains (getCircleNumber n) (getCircleNumber j) = (n =? j).
Proof.
  intros Hn Hj. rewrite !getCircleNumber_circled by assumption.
  change (circled (circledByte n)) with ("" ++ circled (circledByte n)).
  destruct (circledByte_not_lead n Hn) as [_ Hn2].
  destruct (circledByte_not_lead j Hj) as [Hj1 _].
  rewrite Contains_circled_append by assumption.
  rewrite circledByte_eqb by assumption. reflexivity.
Qed.

Lemma Contains_marker_in_fallback (n j : Z) :
  1 <= j <= 10 -> Contains ("(" ++ itoa n ++ ")") (getCircleNumber j) = false.
Proof.
  intros Hj. rewrite getCircleNumber_circled by assumption.
  destruct (Contains _ _) eqn:Hc; [|reflexivity].
  apply (Contains_hasByte "226"%char) in Hc.
  - discriminate Hc.
  - rewrite !hasByte_app, itoa_no_lead. reflexivity.
Qed.

End MarkerRoundTrip.

(** X8. Reading back the label printed for passage [n]: the labels of
    passages 1 to 10 are recognised as exactly that passage; the label
    of any other passage (a number in brackets) is recognised as no
    passage at all. *)
Theorem getCircleNumber_read_back :
  forall n : Z,
    extractUsedAnnotations (getCircleNumber n) =
    if (1 <=? n) && (n <=? 10) then {[ n := true ]} else ∅.
Proof.
  intros n. apply map_eq. intros j. rewrite extractUsedAnnotations_lookup.
  destruct (Z.leb_spec 1 j) as [Hj1|Hj1]; cbn [andb];
    [destruct (Z.leb_spec j 10) as [Hj2|Hj2]; cbn [andb]|].
  - destruct (Z.leb_spec 1 n) as [Hn1|Hn1]; cbn [andb];
      [destruct (Z.leb_spec n 10) as [Hn2|Hn2]; cbn [andb]|].
    + rewrite Contains_marker_in_marker by lia.
      destruct (Z.eqb_spec n j) as [->|Hne].
      * now rewrite lookup_singleton_eq.
      * now rewrite lookup_singleton_ne.
    + unfold getCircleNumber at 1.
      replace (n <=? Z.of_nat (List.length circleNumbers)) with false
        by (symmetry; apply Z.leb_gt; cbn; lia).
      rewrite andb_false_r, Contains_marker_in_fallback by lia. reflexivity.
    + unfold getCircleNumber at 1.
      replace (1 <=? n) with false by (symmetry; apply Z.leb_gt; lia).
      cbn [andb]. rewrite Contains_marker_in_fallback by lia. reflexivity.
  - destruct ((1 <=? n) && (n <=? 10)) eqn:Hn; [|reflexivity].
    apply andb_true_iff in Hn as [Hn1 Hn2].
    apply Z.leb_le in Hn1, Hn2. rewrite lookup_singleton_ne by lia. reflexivity.
  - destruct ((1 <=? n) && (n <=? 10)) eqn:Hn; [|reflexivity].
    apply andb_true_iff in Hn as [Hn1 Hn2].
    apply Z.leb_le in Hn1, Hn2. rewrite lookup_singleton_ne by lia. reflexivity.
Qed.

(** * Further properties of the response ([server.go], [handleQuery]) *)

Section CollectorFacts.

Variable ToLower : string -> string.

Lemma spawnAll_indices (used : gmap Z bool) (results : list Document) :
  forall base : Z,
    map (fun res => chunkIndex (result res)) (spawnAll ToLower used base results) =
    List.filter (isUsed used)
      (map (fun i => base + Z.of_nat i + 1) (seq 0 (List.length results))).
Proof.
  induction results as [|d rest IH]; intros base; [reflexivity|].
  cbn [spawnAll List.length seq map List.filter].
  replace (base + Z.of_nat 0 + 1) with (base + 1) by lia.
  assert (Hshift : map (fun i => base + Z.of_nat i + 1) (seq 1 (List.length rest)) =
                   map (fun i => base + 1 + Z.of_nat i + 1) (seq 0 (List.length rest))).
  { rewrite <- seq_shift, map_map. apply map_ext. intros i. lia. }
  rewrite Hshift, <- IH.
  destruct (isUsed used (base + 1)); [|reflexivity].
  cbn [map]. f_equal. now destruct (processDoc_result ToLower base d) as (_ & -> & _).
Qed.

Lemma spawnAll_cited (used : gmap Z bool) (results : list Document) :
  map (fun res => chunkIndex (result res)) (spawnAll ToLower used 0 results) =
  citedPositions used (List.length results).
Proof.
  rewrite spawnAll_indices. unfold citedPositions. f_equal.
Qed.

Lemma processDoc_groupKey (idx : Z) (d : Document) :
  groupKeyOf (group (processDoc ToLower idx d)) = groupKey (processDoc ToLower idx d) /\
  chunkKeyOf (result (processDoc ToLower idx d)) = groupKey (processDoc ToLower idx d).
Proof.
  unfold processDoc.
  repeat match goal with
         | |- context [match ?x with _ => _ end] => destruct x eqn:?
         end;
    unfold groupKeyOf, chunkKeyOf;
    cbn [group groupKey result DocSource DocTitle chunkSource chunkTitle];
    repeat match goal with
           | H : String.eqb _ _ = _ |- _ => rewrite H
           end; split; reflexivity.
Qed.

End CollectorFacts.

Section MergeFacts.

Lemma fold_mergeResult_snd (arrived : list docProcessResult) :
  forall st : gmap string DocGroup * list Chunk,
    snd (fold_left mergeResult arrived st) = (snd st ++ map result arrived)%list.
Proof.
  induction arrived as [|res rest IH]; intros [m sr]; cbn [fold_left map snd].
  - now rewrite app_nil_r.
  - rewrite IH. unfold mergeResult.
    destruct (m !! groupKey res); cbn [snd]; now rewrite <- app_assoc.
Qed.


Lemma mergeResult_filed (st : gmap string DocGroup * list Chunk) (res : docProcessResult) :
  filedConsistently st ->
  Chunks (group res) = [result res] ->
  groupKeyOf (group res) = groupKey res ->
  chunkKeyOf (result res) = groupKey res ->
  filedConsistently (mergeResult st res).
Proof.
  destruct st as [m sr]. intros (Hperm & Hsize & Hgroups) Hone Hkey Hchunk.
  cbn [fst snd] in *. unfold mergeResult.
  destruct (m !! groupKey res) as [existing|] eqn:Hk.
  - set (g1 := if negb (String.eqb (FileType (group res)) "") &&
                  String.eqb (FileType existing) ""
               then withFileType existing (FileType (group res)) else existing).
    set (g2 := if negb (String.eqb (FileID (group res)) "") && String.eqb (FileID g1) ""
               then withFileID g1 (FileID (group res)) else g1).
    assert (Hc : Chunks g2 = Chunks existing).
    { unfold g2, g1. repeat match goal with
                            | |- context [if ?c then _ else _] => destruct c
                            end; reflexivity. }
    assert (Hg : groupKeyOf g2 = groupKeyOf existing).
    { unfold g2, g1. repeat match goal with
                            | |- context [if ?c then _ else _] => destruct c
                            end; reflexivity. }
    destruct (Hgroups _ _ Hk) as (Hlen & Hself & Hfiled).
    split; [|split]; cbn [fst snd].
    + rewrite <- insert_delete_eq.
      rewrite map_to_list_insert by apply lookup_delete_eq.
      rewrite <- (map_to_list_delete m _ _ Hk) in Hperm.
      cbn [flat_map snd Chunks withChunks] in *.
      rewrite Hc, !map_app. cbn [map].
      rewrite <- Hperm, <- !app_assoc.
      apply Permutation_app_head, Permutation_app_comm.
    + rewrite <- insert_delete_eq.
      rewrite map_to_list_insert by apply lookup_delete_eq.
      rewrite <- (map_to_list_delete m _ _ Hk) in Hsize.
      rewrite length_app. cbn [List.length] in *. lia.
    + intros k g Hlook. destruct (decide (groupKey res = k)) as [<-|Hne].
      * rewrite lookup_insert_eq in Hlook. inversion Hlook; subst g.
        cbn [Chunks withChunks]. rewrite Hc, !length_app. cbn [List.length].
        split; [lia|]. split.
        -- unfold groupKeyOf in *. cbn [DocSource DocTitle withChunks].
           rewrite <- Hself. exact Hg.
        -- apply Forall_app. split; [exact Hfiled|]. now constructor.
      * rewrite lookup_insert_ne in Hlook by exact Hne.
        destruct (Hgroups _ _ Hlook) as (? & ? & ?). rewrite length_app. cbn [List.length].
        split; [lia | split; assumption].
  - split; [|split]; cbn [fst snd].
    + rewrite map_to_list_insert by exact Hk. cbn [flat_map snd].
      rewrite Hone, map_app. cbn [map]. rewrite <- Hperm.
      apply Permutation_cons_append.
    + rewrite map_to_list_insert by exact Hk. rewrite length_app.
      cbn [List.length]. lia.
    + intros k g Hlook. destruct (decide (groupKey res = k)) as [<-|Hne].
      * rewrite lookup_insert_eq in Hlook. inversion Hlook; subst g.
        rewrite Hone, length_app. cbn [List.length].
        split; [lia|]. split; [exact Hkey|]. now constructor.
      * rewrite lookup_insert_ne in Hlook by exact Hne.
        destruct (Hgroups _ _ Hlook) as (? & ? & ?). rewrite length_app. cbn [List.length].
        split; [lia | split; assumption].
Qed.

Lemma fold_mergeResult_filed (arrived : list docProcessResult) :
  forall st : gmap string DocGroup * list Chunk,
    filedConsistently st ->
    (forall res, In res arrived ->
       Chunks (group res) = [result res] /\
       groupKeyOf (group res) = groupKey res /\
       chunkKeyOf (result res) = groupKey res) ->
    filedConsistently (fold_left mergeResult arrived st).
Proof.
  induction arrived as [|res rest IH]; intros st Hst Hall; [exact Hst|].
  cbn [fold_left]. apply IH.
  - destruct (Hall res (or_introl eq_refl)) as (? & ? & ?). now apply mergeResult_filed.
  - intros r Hr. apply Hall. now right.
Qed.

Lemma filedConsistently_empty : filedConsistently (∅, []).
Proof.
  split; [|split]; cbn [fst snd].
  - now rewrite map_to_list_empty.
  - now rewrite map_to_list_empty.
  - intros k g H. now rewrite lookup_empty in H.
Qed.

End MergeFacts.

Section OrderFacts.

Lemma positions_sorted (n : nat) :
  forall a : nat, StronglySorted Z.lt (map (fun i => Z.of_nat i + 1) (seq a n)).
Proof.
  induction n as [|n IH]; intros a; cbn [seq map]; constructor; [apply IH|].
  apply List.Forall_forall. intros z Hz.
  apply in_map_iff in Hz as [i [<- Hi]]. apply in_seq in Hi. lia.
Qed.

Lemma List_filter_sorted {A : Type} (R : A -> A -> Prop) (p : A -> bool) (l : list A) :
  StronglySorted R l -> StronglySorted R (List.filter p l).
Proof.
  induction 1 as [|x l Hl IH Hx]; cbn [List.filter]; [constructor|].
  destruct (p x); [|exact IH]. constructor; [exact IH|].
  apply List.Forall_forall. intros y Hy. apply filter_In in Hy as [Hy _].
  rewrite List.Forall_forall in Hx. now apply Hx.
Qed.

Lemma citedPositions_sorted (used : gmap Z bool) (n : nat) :
  StronglySorted Z.lt (citedPositions used n).
Proof. apply List_filter_sorted, positions_sorted. Qed.

Lemma sorted_lt_le (l : list Z) : StronglySorted Z.lt l -> StronglySorted Z.le l.
Proof.
  induction 1 as [|x l Hl IH Hx]; constructor; [exact IH|].
  eapply List.Forall_impl; [|exact Hx]. cbn. intros; lia.
Qed.

Lemma sorted_lt_length (l : list Z) :
  forall lo hi : Z,
    StronglySorted Z.lt l -> Forall (fun x => lo <= x <= hi) l ->
    Z.of_nat (List.length l) <= Z.max 0 (hi - lo + 1).
Proof.
  induction l as [|x l IH]; intros lo hi Hs Hr; cbn [List.length]; [lia|].
  inversion Hs as [|? ? Hs' Hx]; subst. inversion Hr as [|? ? Hx0 Hr']; subst.
  assert (Hr2 : Forall (fun y => x + 1 <= y <= hi) l).
  { rewrite List.Forall_forall in *. intros y Hy.
    specialize (Hx y Hy). specialize (Hr' y Hy). lia. }
  specialize (IH (x + 1) hi Hs' Hr2). lia.
Qed.

Lemma citedPositions_range (answer : string) (n : nat) :
  Forall (fun x => 1 <= x <= 10) (citedPositions (extractUsedAnnotations answer) n).
Proof.
  apply List.Forall_forall. intros x Hx. apply filter_In in Hx as [_ Hx].
  unfold isUsed in Hx. rewrite extractUsedAnnotations_lookup in Hx.
  destruct (Z.leb_spec 1 x); destruct (Z.leb_spec x 10); cbn [andb] in Hx;
    try discriminate; lia.
Qed.

Lemma length_citedPositions (answer : string) (n : nat) :
  (List.length (citedPositions (extractUsedAnnotations answer) n) <= 10)%nat.
Proof.
  pose proof (sorted_lt_length _ 1 10 (citedPositions_sorted _ n)
                (citedPositions_range answer n)). lia.
Qed.

Lemma insertByIndex_sorted (c : Chunk) (l : list Chunk) :
  StronglySorted Z.le (map chunkIndex l) ->
  StronglySorted Z.le (map chunkIndex (insertByIndex c l)).
Proof.
  induction l as [|x l IH]; intros Hs; cbn [insertByIndex map].
  - constructor; constructor.
  - cbn [map] in Hs. inversion Hs as [|? ? Hs' Hx]; subst.
    destruct (Z.ltb_spec (chunkIndex c) (chunkIndex x)) as [Hlt|Hge]; cbn [map].
    + constructor; [exact Hs|]. constructor; [lia|].
      eapply List.Forall_impl; [|exact Hx]. cbn. intros; lia.
    + constructor; [now apply IH|].
      apply List.Forall_forall. intros z Hz.
      apply in_map_iff in Hz as [c0 [<- Hin]].
      apply (Permutation_in _ (insertByIndex_perm c l)) in Hin.
      destruct Hin as [<-|Hin]; [lia|].
      rewrite List.Forall_forall in Hx. apply Hx. now apply in_map.
Qed.

Lemma sortByIndex_sorted (l : list Chunk) :
  StronglySorted Z.le (map chunkIndex (sortByIndex l)).
Proof.
  induction l as [|c l IH]; [constructor|]. cbn [sortByIndex fold_right].
  fold (sortByIndex l). now apply insertByIndex_sorted.
Qed.

Lemma shareTruncation_indices (limited : list DocGroup) (l : list Chunk) :
  map chunkIndex (shareTruncation limited l) = map chunkIndex l.
Proof.
  unfold shareTruncation. rewrite map_map. apply map_ext.
  intros c. now destruct (existsb _ _).
Qed.

Lemma shareTruncation_all (limited : list DocGroup) (l : list Chunk) :
  (forall c, In c l -> In (chunkIndex c) (keptIndices limited)) ->
  shareTruncation limited l = map truncateChunk l.
Proof.
  intros H. unfold shareTruncation. apply map_ext_in. intros c Hc.
  destruct (existsb _ _) eqn:He; [reflexivity|].
  assert (Ht : existsb (Z.eqb (chunkIndex c)) (keptIndices limited) = true).
  { apply existsb_exists. exists (chunkIndex c). split; [now apply H | apply Z.eqb_refl]. }
  congruence.
Qed.

Lemma keptIndices_uncut (classified : DocGroup -> bool) (l : list (string * DocGroup)) :
  (List.length l <= maxDocGroups)%nat ->
  (forall kg, In kg l -> (List.length (Chunks (snd kg)) <= maxChunksPerGroup)%nat) ->
  keptIndices
    (limitDocGroups (map (fun kg => withHasPublicForm (snd kg) (classified (snd kg))) l)) =
  flat_map (fun kg => map chunkIndex (Chunks (snd kg))) l.
Proof.
  intros Hlen Hall. unfold limitDocGroups. rewrite length_map.
  destruct (Nat.ltb_spec maxDocGroups (List.length l)) as [Hcut|_]; [lia|].
  clear Hlen. unfold keptIndices.
  induction l as [|kg l IH]; [reflexivity|]. cbn [map flat_map]. f_equal.
  - unfold limitChunks. cbn [Chunks withHasPublicForm withChunks].
    specialize (Hall kg (or_introl eq_refl)).
    destruct (Nat.ltb_spec maxChunksPerGroup (List.length (Chunks (snd kg)))); [lia|].
    rewrite map_map. now apply map_ext.
  - apply IH. intros kg' Hin. apply Hall. now right.
Qed.

Lemma fmap_is_map {A B : Type} (f : A -> B) (l : list A) : f <$> l = map f l.
Proof. induction l as [|x l IH]; [reflexivity|]. cbn. now rewrite <- IH. Qed.

Lemma groupKeyOf_limitDocGroups (gs : list DocGroup) :
  map groupKeyOf (limitDocGroups gs) `sublist_of` map groupKeyOf gs.
Proof.
  unfold limitDocGroups. rewrite map_map.
  assert (Hk : forall l, map (fun g => groupKeyOf (limitChunks g)) l = map groupKeyOf l)
    by (intros l; now apply map_ext).
  rewrite Hk. destruct (_ <? _)%nat; [|reflexivity].
  rewrite <- firstn_map. apply sublist_take.
Qed.

End OrderFacts.

Section ResponseContents.

Variable ToLower : string -> string.
Variable classified : DocGroup -> bool.
Variable sch : Schedule.

#[local] Abbreviation sentOf qr :=
  (spawnAll ToLower (extractUsedAnnotations (Answer qr)) 0 (Results qr)).
#[local] Abbreviation citedOf qr :=
  (citedPositions (extractUsedAnnotations (Answer qr)) (List.length (Results qr))).
#[local] Abbreviation collectedOf qr :=
  (fold_left mergeResult (deliver sch (sentOf qr)) (∅, [])).

Lemma collected_filed (qr : QueryResult) :
  fairSchedule sch -> filedConsistently (collectedOf qr).
Proof.
  intros [Hdel _]. apply fold_mergeResult_filed; [apply filedConsistently_empty|].
  intros res Hin. apply (Permutation_in _ (Hdel _)) in Hin.
  apply spawnAll_in in Hin as (i & d & _ & -> & _).
  split; [apply processDoc_result | apply processDoc_groupKey].
Qed.

Lemma collected_flat (qr : QueryResult) :
  fairSchedule sch ->
  Permutation (map chunkIndex (snd (collectedOf qr))) (citedOf qr).
Proof.
  intros [Hdel _]. rewrite fold_mergeResult_snd. cbn [snd app].
  rewrite map_map, (Hdel _). now rewrite spawnAll_cited.
Qed.

Lemma length_collected_flat (qr : QueryResult) :
  fairSchedule sch -> (List.length (snd (collectedOf qr)) <= 10)%nat.
Proof.
  intros Hfair. pose proof (Permutation_length (collected_flat qr Hfair)) as Hlen.
  rewrite length_map in Hlen. rewrite Hlen. apply length_citedPositions.
Qed.

Lemma respResults_indices (qr : QueryResult) :
  fairSchedule sch ->
  map chunkIndex (respResults (assembleResponse ToLower classified sch qr)) = citedOf qr.
Proof.
  intros Hfair. rewrite assembleResponse_results, shareTruncation_indices.
  apply (StronglySorted_unique_strong Z.le).
  - intros; lia.
  - apply sortByIndex_sorted.
  - apply sorted_lt_le, citedPositions_sorted.
  - rewrite sortByIndex_perm. now apply collected_flat.
Qed.

Lemma respDocGroups_indices (qr : QueryResult) :
  fairSchedule sch ->
  Permutation (keptIndices (respDocGroups (assembleResponse ToLower classified sch qr)))
              (citedOf qr).
Proof.
  intros Hfair. pose proof (collected_filed qr Hfair) as (Hperm & Hsize & Hgroups).
  pose proof (length_collected_flat qr Hfair) as Hten.
  pose proof (collected_flat qr Hfair) as Hflat.
  destruct Hfair as [_ Hrange].
  rewrite assembleResponse_docGroups, keptIndices_uncut.
  - rewrite (Hrange _). now rewrite Hperm.
  - rewrite (Permutation_length (Hrange _)). unfold maxDocGroups. lia.
  - intros [k g] Hin. apply (Permutation_in _ (Hrange _)) in Hin.
    apply list_elem_of_In, elem_of_map_to_list in Hin.
    destruct (Hgroups _ _ Hin) as [Hlen _]. cbn [snd]. unfold maxChunksPerGroup. lia.
Qed.

Lemma respDocGroups_keys (qr : QueryResult) :
  fairSchedule sch ->
  NoDup (map groupKeyOf (respDocGroups (assembleResponse ToLower classified sch qr))).
Proof.
  intros Hfair. pose proof (collected_filed qr Hfair) as (_ & _ & Hgroups).
  destruct Hfair as [_ Hrange].
  rewrite assembleResponse_docGroups.
  eapply sublist_NoDup; [|apply groupKeyOf_limitDocGroups].
  rewrite map_map.
  assert (Hkeys : map (fun kg => groupKeyOf (withHasPublicForm (snd kg) (classified (snd kg))))
                      (rangeGroups sch (fst (collectedOf qr))) =
                  map fst (rangeGroups sch (fst (collectedOf qr)))).
  { apply map_ext_in. intros [k g] Hin. apply (Permutation_in _ (Hrange _)) in Hin.
    apply list_elem_of_In, elem_of_map_to_list in Hin.
    now destruct (Hgroups _ _ Hin) as (_ & <- & _). }
  rewrite Hkeys, (Hrange _), <- fmap_is_map. apply NoDup_fst_map_to_list.
Qed.

Lemma respResults_truncated (qr : QueryResult) :
  fairSchedule sch ->
  respResults (assembleResponse ToLower classified sch qr) =
  map truncateChunk (sortByIndex (snd (collectedOf qr))).
Proof.
  intros Hfair. rewrite assembleResponse_results. apply shareTruncation_all.
  intros c Hc. apply (Permutation_in _ (sortByIndex_perm _)) in Hc.
  apply (Permutation_in (chunkIndex c)
           (Permutation_sym (respDocGroups_indices qr Hfair))).
  apply (Permutation_in (chunkIndex c) (collected_flat qr Hfair)).
  now apply in_map.
Qed.

Lemma respDocGroups_chunk_key (qr : QueryResult) (g : DocGroup) (c : Chunk) :
  fairSchedule sch ->
  In g (respDocGroups (assembleResponse ToLower classified sch qr)) ->
  In c (Chunks g) ->
  chunkKeyOf c = groupKeyOf g.
Proof.
  intros Hfair Hg Hc. pose proof (collected_filed qr Hfair) as (_ & _ & Hgroups).
  destruct Hfair as [_ Hrange].
  rewrite assembleResponse_docGroups in Hg.
  apply limitDocGroups_in in Hg as [g1 [Hg1 ->]].
  apply in_map_iff in Hg1 as [[k g0] [<- Hkg]]. cbn [snd] in *.
  apply (Permutation_in _ (Hrange _)) in Hkg.
  apply list_elem_of_In, elem_of_map_to_list in Hkg.
  destruct (Hgroups _ _ Hkg) as (_ & Hkey & Hfiled).
  destruct (limitChunks_chunks (withHasPublicForm g0 (classified g0)))
    as [kept [Hk [_ Hsub]]].
  rewrite Hk in Hc. apply in_map_iff in Hc as [c0 [<- Hc0]].
  apply Hsub in Hc0. cbn [Chunks withHasPublicForm] in Hc0.
  rewrite List.Forall_forall in Hfiled.
  change (chunkKeyOf c0 = groupKeyOf g0). rewrite Hkey. now apply Hfiled.
Qed.

Lemma cited_passage_grouped (qr : QueryResult) (i : nat) (d : Document) :
  fairSchedule sch ->
  nth_error (Results qr) i = Some d ->
  isUsed (extractUsedAnnotations (Answer qr)) (Z.of_nat i + 1) = true ->
  exists (g : DocGroup) (c : Chunk),
    In g (respDocGroups (assembleResponse ToLower classified sch qr)) /\
    In c (Chunks g) /\
    chunkIndex c = Z.of_nat i + 1 /\
    chunkContent c = truncateText (PageContent d) /\
    chunkPageContent c = truncateText (PageContent d).
Proof.
  intros Hfair Hnth Hused.
  assert (Hcited : In (Z.of_nat i + 1) (citedOf qr)).
  { apply filter_In. split; [|exact Hused].
    apply in_map_iff. exists i. split; [reflexivity|].
    apply in_seq.
    assert (i < List.length (Results qr))%nat by (apply nth_error_Some; congruence).
    lia. }
  apply (Permutation_in _ (Permutation_sym (respDocGroups_indices qr Hfair))) in Hcited.
  apply in_flat_map in Hcited as [g [Hg Hc]].
  apply in_map_iff in Hc as [c [Hidx Hc]].
  exists g, c. repeat split; auto.
  - destruct (respDocGroups_chunk ToLower classified sch qr g c Hfair Hg Hc)
      as (c0 & -> & i' & d' & Hn' & Hi' & Hc' & _).
    cbn [truncateChunk chunkContent chunkIndex] in *. rewrite Hc'.
    assert (i' = i) by lia. subst i'. congruence.
  - destruct (respDocGroups_chunk ToLower classified sch qr g c Hfair Hg Hc)
      as (c0 & -> & i' & d' & Hn' & Hi' & _ & Hp' & _).
    cbn [truncateChunk chunkPageContent chunkIndex] in *. rewrite Hp'.
    assert (i' = i) by lia. subst i'. congruence.
Qed.

Lemma sorted_lt_NoDup (l : list Z) : StronglySorted Z.lt l -> NoDup l.
Proof.
  induction 1 as [|x l Hl IH Hx]; constructor; [|exact IH].
  rewrite list_elem_of_In. intros Hin. rewrite List.Forall_forall in Hx.
  specialize (Hx x Hin). lia.
Qed.

End ResponseContents.

(** X9. The flat result list of a response holds exactly the passages
    the answer cites, one entry each, in ascending order of passage
    number, whatever the order in which the goroutines delivered them;
    it never holds more than ten. *)
Theorem response_lists_exactly_the_cited_passages :
  forall (ToLower : string -> string) (classified : DocGroup -> bool)
         (sch : Schedule) (qr : QueryResult),
    fairSchedule sch ->
    let resp := assembleResponse ToLower classified sch qr in
    map chunkIndex (respResults resp) =
      citedPositions (extractUsedAnnotations (Answer qr)) (List.length (Results qr)) /\
    StronglySorted Z.lt (map chunkIndex (respResults resp)) /\
    (List.length (respResults resp) <= 10)%nat.
Proof.
  intros ToLower classified sch qr Hfair resp.
  pose proof (respResults_indices ToLower classified sch qr Hfair) as Heq.
  fold resp in Heq. split; [exact Heq|]. split.
  - rewrite Heq. apply citedPositions_sorted.
  - rewrite <- (length_map chunkIndex), Heq. apply length_citedPositions.
Qed.

Lemma response_lists_exactly_the_cited_passages_witness :
  map chunkIndex (respResults Examples.kbResponse) =
    citedPositions (extractUsedAnnotations Examples.kbAnswer) 3 /\
  StronglySorted Z.lt (map chunkIndex (respResults Examples.kbResponse)) /\
  (List.length (respResults Examples.kbResponse) <= 10)%nat.
Proof.
  apply (response_lists_exactly_the_cited_passages lowerASCII (fun _ => false) inOrder
           Examples.kbResult).
  split; intros; reflexivity.
Defined.

(** X10. Every passage the answer cites is filed in exactly one group
    of the response, under its passage number and with its text, and
    the groups hold nothing else: the limits of 50 groups and 20 chunks
    never remove a cited passage. *)
Theorem cited_passages_are_grouped_once :
  forall (ToLower : string -> string) (classified : DocGroup -> bool)
         (sch : Schedule) (qr : QueryResult),
    fairSchedule sch ->
    let resp := assembleResponse ToLower classified sch qr in
    Permutation (keptIndices (respDocGroups resp))
      (citedPositions (extractUsedAnnotations (Answer qr)) (List.length (Results qr))) /\
    NoDup (keptIndices (respDocGroups resp)) /\
    forall (i : nat) (d : Document),
      nth_error (Results qr) i = Some d ->
      isUsed (extractUsedAnnotations (Answer qr)) (Z.of_nat i + 1) = true ->
      exists (g : DocGroup) (c : Chunk),
        In g (respDocGroups resp) /\ In c (Chunks g) /\
        chunkIndex c = Z.of_nat i + 1 /\
        chunkContent c = truncateText (PageContent d) /\
        chunkPageContent c = truncateText (PageContent d).
Proof.
  intros ToLower classified sch qr Hfair resp.
  pose proof (respDocGroups_indices ToLower classified sch qr Hfair) as Hperm.
  fold resp in Hperm. split; [exact Hperm|]. split.
  - rewrite Hperm. apply sorted_lt_NoDup, citedPositions_sorted.
  - intros i d. now apply cited_passage_grouped.
Qed.

Lemma cited_passages_are_grouped_once_witness :
  Permutation (keptIndices (respDocGroups Examples.kbResponse))
    (citedPositions (extractUsedAnnotations Examples.kbAnswer) 3) /\
  exists (g : DocGroup) (c : Chunk),
    In g (respDocGroups Examples.kbResponse) /\ In c (Chunks g) /\
    chunkIndex c = 3 /\
    chunkContent c = truncateText "其他培训要求" /\
    chunkPageContent c = truncateText "其他培训要求".
Proof.
  destruct (cited_passages_are_grouped_once lowerASCII (fun _ => false) inOrder
              Examples.kbResult fairSchedule_inOrder) as (Hperm & _ & Hall).
  split; [exact Hperm|].
  apply (Hall 2%nat (mkDocument "其他培训要求"
                       {[ "source" := MetaString "uploads/a_规定.pdf" ]}));
    reflexivity.
Defined.

(** X11. The groups of a response have pairwise different keys (the
    source, or the title when there is none), and every chunk of a
    group has the key of its group: passages are grouped by source. *)
Theorem one_group_per_source :
  forall (ToLower : string -> string) (classified : DocGroup -> bool)
         (sch : Schedule) (qr : QueryResult),
    fairSchedule sch ->
    let resp := assembleResponse ToLower classified sch qr in
    NoDup (map groupKeyOf (respDocGroups resp)) /\
    forall (g : DocGroup) (c : Chunk),
      In g (respDocGroups resp) -> In c (Chunks g) -> chunkKeyOf c = groupKeyOf g.
Proof.
  intros ToLower classified sch qr Hfair resp. split.
  - now apply respDocGroups_keys.
  - intros g c. now apply respDocGroups_chunk_key.
Qed.

Lemma one_group_per_source_witness :
  NoDup (map groupKeyOf (respDocGroups Examples.kbResponse)) /\
  Forall (fun g => Forall (fun c => chunkKeyOf c = groupKeyOf g) (Chunks g))
         (respDocGroups Examples.kbResponse).
Proof.
  destruct (one_group_per_source lowerASCII (fun _ => false) inOrder
              Examples.kbResult fairSchedule_inOrder) as [Hkeys Hall].
  split; [exact Hkeys|].
  apply List.Forall_forall. intros g Hg. apply List.Forall_forall. intros c Hc.
  now apply Hall.
Defined.

(** X12. The chunks of the flat result list are the same objects as
    the chunks of the groups, so each of them carries the text of its
    passage cut at 2000 bytes, three dots appended: at most 2003
    bytes. *)
Theorem flat_results_share_the_truncation :
  forall (ToLower : string -> string) (classified : DocGroup -> bool)
         (sch : Schedule) (qr : QueryResult),
    fairSchedule sch ->
    forall c : Chunk,
      In c (respResults (assembleResponse ToLower classified sch qr)) ->
      (exists (i : nat) (d : Document),
         nth_error (Results qr) i = Some d /\
         chunkIndex c = Z.of_nat i + 1 /\
         chunkContent c = truncateText (PageContent d) /\
         chunkPageContent c = truncateText (PageContent d)) /\
      (String.length (chunkContent c) <= 2003)%nat /\
      (String.length (chunkPageContent c) <= 2003)%nat.
Proof.
  intros ToLower classified sch qr Hfair c Hc.
  pose proof (collected_traces ToLower sch qr Hfair) as [_ Hcol].
  rewrite (respResults_truncated ToLower classified sch qr Hfair) in Hc.
  apply in_map_iff in Hc as [c0 [<- Hc0]].
  apply (Permutation_in _ (sortByIndex_perm _)) in Hc0.
  rewrite List.Forall_forall in Hcol.
  destruct (Hcol c0 Hc0) as (i & d & Hn & Hi & Hcont & Hpage & _).
  cbn [truncateChunk chunkContent chunkPageContent chunkIndex].
  split; [|split; apply length_truncateText].
  exists i, d. rewrite Hcont, Hpage. auto.
Qed.

Lemma flat_results_share_the_truncation_witness :
  Forall (fun c => (String.length (chunkContent c) <= 2003)%nat /\
                   (String.length (chunkPageContent c) <= 2003)%nat)
         (respResults Examples.longResponse).
Proof.
  apply List.Forall_forall. intros c Hc.
  apply (flat_results_share_the_truncation lowerASCII (fun _ => false) inOrder
           (mkQueryResult "答案①" [Examples.longPassage]) fairSchedule_inOrder c Hc).
Defined.

(** * Further properties of the classification ([server.go]) *)

Section TailFacts.

Lemma take_drop (n : nat) (s : string) : take n s ++ drop n s = s.
Proof.
  revert s. induction n as [|n IH]; intros [|c s]; cbn [take drop String.append];
    try reflexivity. now rewrite IH.
Qed.

Lemma length_drop (n : nat) (s : string) :
  String.length (drop n s) = (String.length s - n)%nat.
Proof.
  revert s. induction n as [|n IH]; intros [|c s]; cbn [drop String.length];
    try reflexivity; try lia. apply IH.
Qed.

Lemma lastBytes_suffix (n : nat) (s : string) :
  exists before : string,
    s = before ++ lastBytes n s /\
    String.length (lastBytes n s) = Nat.min n (String.length s).
Proof.
  unfold lastBytes. destruct (Nat.ltb_spec n (String.length s)) as [Hlt|Hge].
  - exists (take (String.length s - n) s). split; [now rewrite take_drop|].
    rewrite length_drop. lia.
  - exists "". split; [reflexivity | lia].
Qed.

End TailFacts.

(** X13. [readFileLastBytes] fails only when the file cannot be read;
    otherwise it returns the end of the file: a suffix of its bytes, as
    long as the file but no longer than [maxBytes]. *)
Theorem readFileLastBytes_returns_the_tail :
  forall (fileBytes : string -> option string) (filePath : string) (maxBytes : nat),
    match fileBytes filePath with
    | None => readFileLastBytes fileBytes filePath maxBytes = None
    | Some bytes =>
        exists before out : string,
          readFileLastBytes fileBytes filePath maxBytes = Some out /\
          bytes = before ++ out /\
          String.length out = Nat.min maxBytes (String.length bytes)
    end.
Proof.
  intros fileBytes filePath maxBytes. unfold readFileLastBytes.
  destruct (fileBytes filePath) as [bytes|]; [|reflexivity].
  destruct (Nat.eqb_spec (String.length bytes) 0) as [Hz|Hnz].
  - exists bytes, "". split; [reflexivity|].
    split; [now rewrite append_empty_r | cbn; lia].
  - cbv zeta.
    destruct (Nat.ltb_spec (String.length bytes) maxBytes) as [Hlt|Hge].
    + exists "", bytes. rewrite Nat.sub_diag. cbn [drop String.append].
      split; [reflexivity|]. split; [reflexivity | lia].
    + exists (take (String.length bytes - maxBytes) bytes),
             (drop (String.length bytes - maxBytes) bytes).
      split; [reflexivity|]. split; [now rewrite take_drop|].
      rewrite length_drop. lia.
Qed.

(** X14. [loadDocumentLastPart] fails exactly when the loader fails or
    returns no document; otherwise it returns the end of the content
    of the last document, at most [maxChars] bytes of it, and at most
    100 when [maxChars] is given as 0. *)
Theorem loadDocumentLastPart_returns_the_tail :
  forall (loadFile : string -> option (list Document)) (filePath : string) (maxChars : nat),
    match loadFile filePath with
    | None => loadDocumentLastPart loadFile filePath maxChars = None
    | Some docs =>
        match last docs with
        | None => docs = [] /\ loadDocumentLastPart loadFile filePath maxChars = None
        | Some lastDoc =>
            exists before out : string,
              loadDocumentLastPart loadFile filePath maxChars = Some out /\
              PageContent lastDoc = before ++ out /\
              String.length out =
                Nat.min (if (maxChars =? 0)%nat then 100%nat else maxChars)
                        (String.length (PageContent lastDoc))
        end
    end.
Proof.
  intros loadFile filePath maxChars. unfold loadDocumentLastPart. cbv zeta.
  destruct (loadFile filePath) as [docs|]; [|reflexivity].
  destruct (last docs) as [lastDoc|] eqn:Hlast.
  - destruct (lastBytes_suffix (if (maxChars =? 0)%nat then 100%nat else maxChars)
                (PageContent lastDoc)) as [before [Hsuf Hlen]].
    exists before, (lastBytes (if (maxChars =? 0)%nat then 100%nat else maxChars)
                      (PageContent lastDoc)).
    auto.
  - split; [now apply last_None in Hlast | reflexivity].
Qed.

Section WorkerFacts.

Variable ToLower : string -> string.
Variable Join : string -> string -> string.
Variable statOk : string -> bool.
Variable fileBytes : string -> option string.
Variable loadFile : string -> option (list Document).

#[local] Abbreviation classify :=
  (checkPublicFormAsync ToLower Join statOk fileBytes loadFile).
#[local] Abbreviation step := (serverAfter ToLower Join statOk fileBytes loadFile).
#[local] Abbreviation run := (runEvents ToLower Join statOk fileBytes loadFile).

#[local] Ltac unchanged :=
  repeat split; auto; try (exists []; now rewrite app_nil_r).

(** The classification of a file reads the server's file table and
    directory, nothing else of the server. *)
Lemma classify_depends_on_files (s s' : Server) (g : DocGroup) :
  files s' = files s -> filesDir s' = filesDir s -> classify s' g = classify s g.
Proof. intros Hf Hd. unfold checkPublicFormAsync. now rewrite Hf, Hd. Qed.

Lemma classify_true (s : Server) (g : DocGroup) :
  fst (classify s g) = true ->
  eligibleType (ToLower (FileType g)) = true /\
  FileID g <> "" /\
  exists (info : FileInfo) (path : string),
    files s !! FileID g = Some info /\
    statOk path = true /\
    last (snd (classify s g)) = Some (AccessRead path) /\
    (path = Join (filesDir s) (FileID g ++ "_" ++ Filename info) \/
     path = Join (filesDir s) (FileID g ++ Ext (Filename info))).
Proof.
  unfold checkPublicFormAsync. cbv zeta.
  destruct (eligibleType (ToLower (FileType g))); cbn [negb]; [|discriminate].
  destruct (String.eqb_spec (FileID g) "") as [|Hid]; [discriminate|].
  destruct (files s !! FileID g) as [info|]; [|discriminate].
  destruct (statOk (Join (filesDir s) (FileID g ++ "_" ++ Filename info))) eqn:Hnew.
  - intros _. split; [reflexivity|]. split; [exact Hid|].
    exists info, (Join (filesDir s) (FileID g ++ "_" ++ Filename info)).
    cbn [snd]. auto.
  - destruct (statOk (Join (filesDir s) (FileID g ++ Ext (Filename info)))) eqn:Hold;
      [|discriminate].
    intros _. split; [reflexivity|]. split; [exact Hid|].
    exists info, (Join (filesDir s) (FileID g ++ Ext (Filename info))).
    cbn [snd]. auto.
Qed.

Lemma classify_accesses (s : Server) (g : DocGroup) :
  (List.length (snd (classify s g)) <= 3)%nat /\
  (files s !! FileID g = None -> classify s g = (false, [])).
Proof.
  unfold checkPublicFormAsync. cbv zeta.
  destruct (negb (eligibleType (ToLower (FileType g)))); [cbn; split; [lia | reflexivity]|].
  destruct (String.eqb (FileID g) ""); [cbn; split; [lia | reflexivity]|].
  destruct (files s !! FileID g) as [info|]; [|cbn; split; [lia | reflexivity]].
  split; [|discriminate].
  destruct (statOk _); [cbn; lia|]. destruct (statOk _); cbn; lia.
Qed.

(** What no event changes, and what every event keeps. *)
Lemma step_frame (s : Server) (e : Event) :
  filesDir (step s e) = filesDir s /\
  files (step s e) = files s /\
  ((List.length (checkQueue s) <= checkQueueCapacity)%nat ->
   (List.length (checkQueue (step s e)) <= checkQueueCapacity)%nat) /\
  ((List.length (inFlight s) <= checkWorkers)%nat ->
   (List.length (inFlight (step s e)) <= checkWorkers)%nat) /\
  (forall fid, is_Some (publicFormCache s !! fid) ->
               is_Some (publicFormCache (step s e) !! fid)) /\
  (publicFormCache s !! "" = None -> publicFormCache (step s e) !! "" = None) /\
  exists more, accessLog (step s e) = (accessLog s ++ more)%list.
Proof.
  destruct e as [g| |i]; cbn [serverAfter].
  - unfold checkPublicForm_submit. cbv zeta.
    destruct (negb (eligibleType _));
      [unchanged|].
    destruct (if negb (String.eqb (FileID g) "") then _ else _);
      [unchanged|].
    destruct (negb (String.eqb (FileID g) ""));
      [|unchanged].
    destruct (Nat.ltb_spec (List.length (checkQueue s)) checkQueueCapacity) as [Hroom|_];
      [|unchanged].
    cbn [withQueue filesDir files checkQueue inFlight publicFormCache accessLog].
    repeat split; auto.
    + intros _. rewrite length_app. cbn [List.length]. lia.
    + exists []. now rewrite app_nil_r.
  - unfold workerTake. destruct (checkQueue s) as [|g rest] eqn:Hq;
      [unchanged; rewrite Hq; auto|].
    destruct (Nat.ltb_spec (List.length (inFlight s)) checkWorkers) as [Hfree|_];
      [|unchanged; rewrite Hq; auto].
    cbn [filesDir files checkQueue inFlight publicFormCache accessLog].
    repeat split; auto.
    + cbn [List.length]. intros. lia.
    + intros _. rewrite length_app. cbn [List.length]. lia.
    + exists []. now rewrite app_nil_r.
  - unfold workerFinish. destruct (inFlight s !! i) as [g|] eqn:Hi;
      [|unchanged].
    destruct (classify s g) as [verdict accesses].
    cbn [filesDir files checkQueue inFlight publicFormCache accessLog].
    repeat split; auto.
    + intros Hlen. rewrite length_delete by eauto. lia.
    + intros fid Hfid. destruct (negb (String.eqb (FileID g) "")); [|exact Hfid].
      apply lookup_insert_is_Some. destruct (decide (FileID g = fid)); auto.
    + intros Hnone. destruct (String.eqb_spec (FileID g) "") as [|Hid]; cbn [negb];
        [exact Hnone|]. now rewrite lookup_insert_ne.
    + eauto.
Qed.

Lemma run_frame (events : list Event) :
  forall s : Server,
    filesDir (run s events) = filesDir s /\
    files (run s events) = files s /\
    ((List.length (checkQueue s) <= checkQueueCapacity)%nat ->
     (List.length (checkQueue (run s events)) <= checkQueueCapacity)%nat) /\
    ((List.length (inFlight s) <= checkWorkers)%nat ->
     (List.length (inFlight (run s events)) <= checkWorkers)%nat) /\
    (forall fid, is_Some (publicFormCache s !! fid) ->
                 is_Some (publicFormCache (run s events) !! fid)) /\
    (publicFormCache s !! "" = None -> publicFormCache (run s events) !! "" = None) /\
    exists more, accessLog (run s events) = (accessLog s ++ more)%list.
Proof.
  induction events as [|e events IH]; intros s.
  - cbn. repeat split; auto. exists []. now rewrite app_nil_r.
  - unfold runEvents. cbn [fold_left].
    fold (run (step s e) events).
    destruct (IH (step s e)) as (D2 & F2 & Q2 & W2 & C2 & E2 & [m2 L2]).
    destruct (step_frame s e) as (D1 & F1 & Q1 & W1 & C1 & E1 & [m1 L1]).
    repeat split.
    + now rewrite D2.
    + now rewrite F2.
    + auto.
    + auto.
    + auto.
    + auto.
    + exists (m1 ++ m2)%list. now rewrite L2, L1, app_assoc.
Qed.

(** A worker takes the only queued task and completes it. *)
Lemma run_take_finish (s : Server) (g : DocGroup) :
  FileID g <> "" ->
  checkQueue s = [] ->
  (List.length (inFlight s) < checkWorkers)%nat ->
  run (withQueue s (checkQueue s ++ [g])) [WorkerTake; WorkerFinish (List.length (inFlight s))] =
  mkServer (filesDir s) (files s) []
           (<[FileID g := fst (classify s g)]> (publicFormCache s))
           (inFlight s)
           (accessLog s ++ map (fun a => (FileID g, a)) (snd (classify s g))).
Proof.
  intros Hid Hq Hfree. rewrite Hq. cbn [app].
  unfold runEvents. cbn [fold_left serverAfter].
  unfold workerTake. cbn [withQueue checkQueue inFlight].
  destruct (Nat.ltb_spec (List.length (inFlight s)) checkWorkers) as [_|Hbusy]; [|lia].
  cbn [withQueue filesDir files publicFormCache accessLog checkQueue inFlight].
  set (s2 := mkServer (filesDir s) (files s) [] (publicFormCache s)
                      (inFlight s ++ [g]) (accessLog s)).
  unfold workerFinish.
  assert (Hlook : inFlight s2 !! List.length (inFlight s) = Some g)
    by (cbn [s2 inFlight]; now apply list_lookup_middle).
  rewrite Hlook.
  rewrite (classify_depends_on_files s s2 g eq_refl eq_refl).
  destruct (classify s g) as [verdict accesses]. cbn [fst snd].
  destruct (String.eqb_spec (FileID g) "") as [|_]; [contradiction|]. cbn [negb].
  cbn [s2 filesDir files publicFormCache accessLog checkQueue inFlight].
  rewrite delete_middle, app_nil_r. reflexivity.
Qed.

(** A request that queues a group on an idle queue, while a worker is
    free to take it and completes it before the request resumes. *)
Lemma checkPublicForm_served (s : Server) (g : DocGroup) :
  eligibleType (ToLower (FileType g)) = true ->
  FileID g <> "" ->
  publicFormCache s !! FileID g = None ->
  checkQueue s = [] ->
  (List.length (inFlight s) < checkWorkers)%nat ->
  exists s' : Server,
    checkPublicForm ToLower
      (fun s1 => run s1 [WorkerTake; WorkerFinish (List.length (inFlight s))]) s g =
      (s', withHasPublicForm g (fst (classify s g))) /\
    publicFormCache s' = <[FileID g := fst (classify s g)]> (publicFormCache s) /\
    checkQueue s' = [] /\
    inFlight s' = inFlight s /\
    accessLog s' =
      (accessLog s ++ map (fun a => (FileID g, a)) (snd (classify s g)))%list.
Proof.
  intros Helig Hid Hmiss Hq Hfree. unfold checkPublicForm.
  rewrite (submit_queued ToLower s g Helig Hid Hmiss)
    by (rewrite Hq; cbn; unfold checkQueueCapacity; lia).
  cbv beta. rewrite (run_take_finish s g Hid Hq Hfree).
  eexists. split.
  - unfold checkPublicForm_resume. cbn [publicFormCache].
    rewrite lookup_insert_eq. reflexivity.
  - cbn [publicFormCache checkQueue inFlight accessLog]. repeat split.
Qed.

Lemma checkPublicForm_only_flag (during : Server -> Server) (s : Server) (g : DocGroup) :
  let r := checkPublicForm ToLower during s g in
  snd r = withHasPublicForm g (HasPublicForm (snd r)) /\
  (HasPublicForm (snd r) = true ->
   HasPublicForm g = true \/ publicFormCache (fst r) !! FileID g = Some true) /\
  (fst r = s \/ fst r = during (withQueue s (checkQueue s ++ [g]))) /\
  (eligibleType (ToLower (FileType g)) = false -> r = (s, g)).
Proof.
  cbv zeta. unfold checkPublicForm, checkPublicForm_submit. cbv zeta.
  destruct (eligibleType (ToLower (FileType g))); cbn [negb].
  2:{ cbn [fst snd]. destruct g; cbn. repeat split; auto. }
  destruct (String.eqb_spec (FileID g) "") as [Hid|Hid]; cbn [negb].
  { cbn [fst snd]. repeat split; auto; try discriminate. }
  destruct (publicFormCache s !! FileID g) as [cached|] eqn:Hc.
  { cbn [fst snd]. repeat split; auto; try discriminate.
    cbn [HasPublicForm withHasPublicForm]. intros ->. now right. }
  destruct (_ <? _)%nat.
  - cbn [fst snd]. unfold checkPublicForm_resume.
    destruct (publicFormCache (during _) !! FileID g) as [cached|] eqn:Hd;
      repeat split; auto; try discriminate.
    cbn [HasPublicForm withHasPublicForm]. intros ->. now right.
  - cbn [fst snd]. repeat split; auto; try discriminate.
Qed.

End WorkerFacts.

(** X15. [checkPublicFormAsync] reports a restriction only after it
    has read a file: the group has a checked file type and a file ID
    known to the server, the file exists under the new or the old
    naming scheme, and the read of that file is the last of at most
    three file accesses.  For a file ID the server does not know, the
    verdict is negative and no file is touched. *)
Theorem restriction_verdict_comes_from_a_read :
  forall (ToLower : string -> string) (Join : string -> string -> string)
         (statOk : string -> bool) (fileBytes : string -> option string)
         (loadFile : string -> option (list Document)) (s : Server) (g : DocGroup),
    let r := checkPublicFormAsync ToLower Join statOk fileBytes loadFile s g in
    (fst r = true ->
     eligibleType (ToLower (FileType g)) = true /\
     FileID g <> "" /\
     exists (info : FileInfo) (path : string),
       files s !! FileID g = Some info /\
       statOk path = true /\
       last (snd r) = Some (AccessRead path) /\
       (path = Join (filesDir s) (FileID g ++ "_" ++ Filename info) \/
        path = Join (filesDir s) (FileID g ++ Ext (Filename info)))) /\
    (List.length (snd r) <= 3)%nat /\
    (files s !! FileID g = None -> r = (false, [])).
Proof.
  intros ToLower Join statOk fileBytes loadFile s g r. split.
  - apply classify_true.
  - apply classify_accesses.
Qed.

Lemma restriction_verdict_comes_from_a_read_witness :
  eligibleType (lowerASCII (FileType Examples.txtGroup)) = true /\
  FileID Examples.txtGroup <> "" /\
  exists (info : FileInfo) (path : string),
    files Examples.pendingServer !! FileID Examples.txtGroup = Some info /\
    Examples.worldStat path = true /\
    last (snd (checkPublicFormAsync lowerASCII Examples.uploadsJoin Examples.worldStat
                 Examples.worldBytes Examples.worldLoad Examples.pendingServer
                 Examples.txtGroup)) = Some (AccessRead path) /\
    (path = Examples.uploadsJoin (filesDir Examples.pendingServer)
              (FileID Examples.txtGroup ++ "_" ++ Filename info) \/
     path = Examples.uploadsJoin (filesDir Examples.pendingServer)
              (FileID Examples.txtGroup ++ Ext (Filename info))).
Proof.
  apply (restriction_verdict_comes_from_a_read lowerASCII Examples.uploadsJoin
           Examples.worldStat Examples.worldBytes Examples.worldLoad
           Examples.pendingServer Examples.txtGroup).
  vm_compute. reflexivity.
Defined.

(** X16. Whatever requests and workers do, the queue never holds more
    than 100 tasks and never more than 3 tasks are in the hands of
    workers; the file table and the upload directory are not touched. *)
Theorem queue_and_workers_stay_bounded :
  forall (ToLower : string -> string) (Join : string -> string -> string)
         (statOk : string -> bool) (fileBytes : string -> option string)
         (loadFile : string -> option (list Document))
         (s : Server) (events : list Event),
    (List.length (checkQueue s) <= 100)%nat ->
    (List.length (inFlight s) <= 3)%nat ->
    let s' := runEvents ToLower Join statOk fileBytes loadFile s events in
    (List.length (checkQueue s') <= 100)%nat /\
    (List.length (inFlight s') <= 3)%nat /\
    files s' = files s /\
    filesDir s' = filesDir s.
Proof.
  intros ToLower Join statOk fileBytes loadFile s events Hq Hw s'.
  destruct (run_frame ToLower Join statOk fileBytes loadFile events s)
    as (D & F & Q & W & _).
  fold s' in D, F, Q, W. auto.
Qed.

Lemma queue_and_workers_stay_bounded_witness :
  (List.length
     (checkQueue
        (runEvents lowerASCII Examples.uploadsJoin Examples.worldStat Examples.worldBytes
           Examples.worldLoad Examples.fullServer
           [RequestCheck Examples.txtGroup; WorkerTake; RequestCheck Examples.txtGroup]))
   <= 100)%nat.
Proof.
  apply (queue_and_workers_stay_bounded lowerASCII Examples.uploadsJoin Examples.worldStat
           Examples.worldBytes Examples.worldLoad Examples.fullServer
           [RequestCheck Examples.txtGroup; WorkerTake; RequestCheck Examples.txtGroup]).
  - apply Nat.leb_le. vm_compute. reflexivity.
  - cbn. lia.
Defined.

(** X17. No request and no worker removes a verdict from the cache: a
    file ID that has a verdict keeps one; the empty file ID never gets
    one; and the record of file accesses only grows. *)
Theorem verdicts_are_never_evicted :
  forall (ToLower : string -> string) (Join : string -> string -> string)
         (statOk : string -> bool) (fileBytes : string -> option string)
         (loadFile : string -> option (list Document))
         (s : Server) (events : list Event),
    let s' := runEvents ToLower Join statOk fileBytes loadFile s events in
    (forall fid : string,
        is_Some (publicFormCache s !! fid) -> is_Some (publicFormCache s' !! fid)) /\
    (publicFormCache s !! "" = None -> publicFormCache s' !! "" = None) /\
    exists more : list (string * FileAccess), accessLog s' = (accessLog s ++ more)%list.
Proof.
  intros ToLower Join statOk fileBytes loadFile s events s'.
  destruct (run_frame ToLower Join statOk fileBytes loadFile events s)
    as (_ & _ & _ & _ & C & E & L).
  fold s' in C, E, L. auto.
Qed.

Lemma verdicts_are_never_evicted_witness :
  is_Some
    (publicFormCache
       (runEvents lowerASCII Examples.uploadsJoin Examples.worldStat Examples.worldBytes
          Examples.worldLoad Examples.cachedServer
          [RequestCheck Examples.otherGroup; WorkerTake; WorkerFinish 0]) !! "f1") /\
  publicFormCache
    (runEvents lowerASCII Examples.uploadsJoin Examples.worldStat Examples.worldBytes
       Examples.worldLoad Examples.cachedServer
       [RequestCheck Examples.otherGroup; WorkerTake; WorkerFinish 0]) !! "" = None.
Proof.
  destruct (verdicts_are_never_evicted lowerASCII Examples.uploadsJoin Examples.worldStat
              Examples.worldBytes Examples.worldLoad Examples.cachedServer
              [RequestCheck Examples.otherGroup; WorkerTake; WorkerFinish 0])
    as (C & E & _).
  split; [apply C; exists true; reflexivity | apply E; reflexivity].
Defined.

(** X18. [checkPublicForm] changes nothing of a group but its flag; it
    raises the flag only when the cache holds a positive verdict for
    the file ID at that moment; it leaves the server as it is, or adds
    the group at the end of the queue; a group whose file type is not
    checked is returned as it came. *)
Theorem checkPublicForm_touches_only_the_flag :
  forall (ToLower : string -> string) (during : Server -> Server)
         (s : Server) (g : DocGroup),
    let r := checkPublicForm ToLower during s g in
    snd r = withHasPublicForm g (HasPublicForm (snd r)) /\
    (HasPublicForm (snd r) = true ->
     HasPublicForm g = true \/ publicFormCache (fst r) !! FileID g = Some true) /\
    (fst r = s \/ fst r = during (withQueue s (checkQueue s ++ [g]))) /\
    (eligibleType (ToLower (FileType g)) = false -> r = (s, g)).
Proof.
  intros ToLower during s g. apply checkPublicForm_only_flag.
Qed.

Lemma checkPublicForm_touches_only_the_flag_witness :
  (HasPublicForm Examples.txtGroup = true \/
   publicFormCache Examples.cachedServer !! FileID Examples.txtGroup = Some true) /\
  checkPublicForm lowerASCII (fun s => s) Examples.cachedServer Examples.mdGroup =
    (Examples.cachedServer, Examples.mdGroup).
Proof.
  destruct (checkPublicForm_touches_only_the_flag lowerASCII (fun s => s)
              Examples.cachedServer Examples.txtGroup) as (_ & Hflag & _).
  destruct (checkPublicForm_touches_only_the_flag lowerASCII (fun s => s)
              Examples.cachedServer Examples.mdGroup) as (_ & _ & _ & Hskip).
  split; [apply Hflag; reflexivity | apply Hskip; reflexivity].
Defined.

(** X19. The first request for a file: with an idle queue and a free
    worker, a request for a group without a verdict queues the group;
    if a worker takes and completes the task while the request sleeps,
    the request returns the worker's verdict, the verdict is in the
    cache, and queue and workers are as before. *)
Theorem first_request_gets_the_worker_verdict :
  forall (ToLower : string -> string) (Join : string -> string -> string)
         (statOk : string -> bool) (fileBytes : string -> option string)
         (loadFile : string -> option (list Document)) (s : Server) (g : DocGroup),
    eligibleType (ToLower (FileType g)) = true ->
    FileID g <> "" ->
    publicFormCache s !! FileID g = None ->
    checkQueue s = [] ->
    (List.length (inFlight s) < 3)%nat ->
    let verdict := fst (checkPublicFormAsync ToLower Join statOk fileBytes loadFile s g) in
    exists s' : Server,
      checkPublicForm ToLower
        (fun s1 => runEvents ToLower Join statOk fileBytes loadFile s1
                     [WorkerTake; WorkerFinish (List.length (inFlight s))]) s g =
        (s', withHasPublicForm g verdict) /\
      publicFormCache s' = <[FileID g := verdict]> (publicFormCache s) /\
      checkQueue s' = [] /\
      inFlight s' = inFlight s /\
      accessLog s' =
        (accessLog s ++
         map (fun a => (FileID g, a))
             (snd (checkPublicFormAsync ToLower Join statOk fileBytes loadFile s g)))%list.
Proof.
  intros ToLower Join statOk fileBytes loadFile s g Helig Hid Hmiss Hq Hfree verdict.
  now apply checkPublicForm_served.
Qed.

Lemma first_request_gets_the_worker_verdict_witness :
  exists s' : Server,
    checkPublicForm lowerASCII
      (fun s1 => runEvents lowerASCII Examples.uploadsJoin Examples.worldStat
                   Examples.worldBytes Examples.worldLoad s1
                   [WorkerTake; WorkerFinish 0])
      (mkServer "uploads" Examples.knownFiles [] ∅ [] []) Examples.txtGroup =
      (s', withHasPublicForm Examples.txtGroup true) /\
    publicFormCache s' = <[ "f1" := true ]> ∅.
Proof.
  destruct (first_request_gets_the_worker_verdict lowerASCII Examples.uploadsJoin
              Examples.worldStat Examples.worldBytes Examples.worldLoad
              (mkServer "uploads" Examples.knownFiles [] ∅ [] []) Examples.txtGroup)
    as (s' & Hr & Hc & _).
  - reflexivity.
  - discriminate.
  - reflexivity.
  - reflexivity.
  - cbn. lia.
  - exists s'. split; [exact Hr | exact Hc].
Defined.

(** * Ingestion in batches ([rag.go], [AddDocuments]) *)

Section IngestionFacts.

Local Open Scope nat_scope.

Variable Store : Type.
Variable storeAdd : Store -> list Document -> Store * option string.

Lemma ceil_div_spec (bs n b : nat) :
  0 < bs -> (b < (n + bs - 1) / bs <-> b * bs < n).
Proof.
  intros Hbs. split; intros H.
  - pose proof (Nat.Div0.mul_div_le (n + bs - 1) bs) as Hle. nia.
  - apply (Nat.div_le_lower_bound (n + bs - 1) bs (S b)); [lia | nia].
Qed.

Lemma firstn_add_skipn {A : Type} (a c : nat) (l : list A) :
  firstn (a + c) l = (firstn a l ++ firstn c (skipn a l))%list.
Proof.
  revert l. induction a as [|a IH]; intros [|x l]; cbn [Nat.add firstn skipn app];
    try reflexivity.
  - now rewrite firstn_nil.
  - now rewrite IH.
Qed.

(** The slice [docs[i:end]] of one round. *)
Lemma batch_slice (docs : list Document) (i bs : nat) :
  i < List.length docs ->
  firstn ((if List.length docs <? i + bs then List.length docs else i + bs) - i)
         (skipn i docs) =
  firstn bs (skipn i docs).
Proof.
  intros Hi. destruct (Nat.ltb_spec (List.length docs) (i + bs)) as [Hlt|Hge].
  - rewrite !firstn_all2; try reflexivity; rewrite length_skipn; lia.
  - f_equal. lia.
Qed.

Lemma storedBatches_app (a b : list AddEffect) :
  storedBatches (a ++ b) = (storedBatches a ++ storedBatches b)%list.
Proof. apply flat_map_app. Qed.

Lemma offeredBatches_app (a b : list AddEffect) :
  offeredBatches (a ++ b) = (offeredBatches a ++ offeredBatches b)%list.
Proof. apply flat_map_app. Qed.

Lemma pauses_app (a b : list AddEffect) : pauses (a ++ b) = (pauses a ++ pauses b)%list.
Proof. apply flat_map_app. Qed.

(** The retry loop on one batch. *)
Lemma addBatch_attempts (st st' : Store) (batch : list Document)
    (err : option string) (effects : list AddEffect) :
  addBatch Store storeAdd maxRetries 0 st batch None = (st', err, effects) ->
  exists k : nat,
    1 <= k <= 3 /\
    offeredBatches effects = repeat batch k /\
    pauses effects = firstn (k - 1) [2000%Z; 4000%Z] /\
    storedBatches effects = match err with None => [batch] | Some _ => [] end /\
    match err with
    | Some errMsg => isRateLimit errMsg = false \/ k = 3
    | None => True
    end.
Proof.
  unfold maxRetries. cbn [addBatch].
  destruct (storeAdd st batch) as [st1 [e1|]];
    [|intros [= <- <- <-]; exists 1; cbn; auto 10].
  destruct (isRateLimit e1) eqn:H1; cbn [andb Nat.ltb Nat.leb Nat.sub];
    [|intros [= <- <- <-]; exists 1; cbn; auto 10].
  destruct (storeAdd st1 batch) as [st2 [e2|]];
    [|intros [= <- <- <-]; exists 2; cbn; auto 10].
  destruct (isRateLimit e2) eqn:H2; cbn [andb Nat.ltb Nat.leb Nat.sub Nat.add];
    [|intros [= <- <- <-]; exists 2; cbn; auto 10].
  destruct (storeAdd st2 batch) as [st3 [e3|]];
    [|intros [= <- <- <-]; exists 3; cbn; auto 10].
  rewrite andb_false_r. intros [= <- <- <-]. exists 3. cbn. auto 10.
Qed.

(** The loop over the batches, from batch [b] (0-based) on. *)
Lemma addBatches_rounds (docs : list Document) (bs total : nat) :
  0 < bs ->
  (forall b, b < total <-> b * bs < List.length docs) ->
  forall (fuel b : nat) (st st' : Store) (result : option AddError)
         (effects : list AddEffect),
    List.length docs <= (b + fuel) * bs ->
    addBatches Store storeAdd fuel (b * bs) docs bs total st = (st', result, effects) ->
    match result with
    | None =>
        concat (storedBatches effects) = skipn (b * bs) docs /\
        List.length (storedBatches effects) = total - b
    | Some e =>
        b < failedBatch e <= total /\
        concat (storedBatches effects) =
          firstn ((failedBatch e - 1 - b) * bs) (skipn (b * bs) docs)
    end /\
    Forall (fun batch => 1 <= List.length batch <= bs) (offeredBatches effects) /\
    Forall (fun ms => ms = 2000%Z \/ ms = 4000%Z \/ ms = batchDelay bs) (pauses effects) /\
    List.length (offeredBatches effects) <= 3 * (total - b).
Proof.
  intros Hbs Htotal. induction fuel as [|fuel IH];
    intros b st st' result effects Hfuel; cbn [addBatches].
  - intros [= <- <- <-]. cbn.
    assert (Hdone : total <= b).
    { destruct (Nat.le_gt_cases total b) as [|Hlt]; [assumption|].
      apply Htotal in Hlt. lia. }
    repeat split; auto; try lia.
    rewrite skipn_all2; [reflexivity | lia].
  - destruct (Nat.ltb_spec (b * bs) (List.length docs)) as [Hin|Hout].
    2:{ intros [= <- <- <-]. cbn.
        assert (Hdone : total <= b).
        { destruct (Nat.le_gt_cases total b) as [|Hlt]; [assumption|].
          apply Htotal in Hlt. lia. }
        repeat split; auto; try lia.
        rewrite skipn_all2; [reflexivity | lia]. }
    cbv zeta. rewrite (batch_slice docs (b * bs) bs Hin).
    rewrite Nat.div_mul by lia.
    set (batch := firstn bs (skipn (b * bs) docs)).
    assert (Hb : b < total) by now apply Htotal.
    assert (Hlen : 1 <= List.length batch <= bs).
    { unfold batch. rewrite length_firstn, length_skipn. lia. }
    destruct (addBatch Store storeAdd maxRetries 0 st batch None)
      as [[st1 err] tried] eqn:Htry.
    apply addBatch_attempts in Htry as (k & Hk & Hoff & Hpause & Hstored & Hwhy).
    assert (Htried : Forall (fun x => 1 <= List.length x <= bs) (offeredBatches tried)).
    { rewrite Hoff. apply List.Forall_forall. intros x Hx.
      apply repeat_spec in Hx. now subst x. }
    assert (Hwaits : Forall (fun ms => ms = 2000%Z \/ ms = 4000%Z \/ ms = batchDelay bs)
                            (pauses tried)).
    { rewrite Hpause. apply List.Forall_forall. intros ms Hms.
      assert (Hcases : k = 1 \/ k = 2 \/ k = 3) by lia.
      destruct Hcases as [->|[->| ->]]; cbn in Hms; intuition congruence. }
    assert (Hcalls : List.length (offeredBatches tried) <= 3).
    { rewrite Hoff, repeat_length. lia. }
    destruct err as [errMsg|].
    + intros [= <- <- <-]. cbn [failedBatch]. rewrite Hstored.
      replace (b + 1 - 1 - b) with 0 by lia. cbn [concat Nat.mul firstn].
      repeat split; auto; lia.
    + destruct (addBatches Store storeAdd fuel (b * bs + bs) docs bs total st1)
        as [[st2 result2] effects2] eqn:Hrest.
      intros [= <- <- <-].
      replace (b * bs + bs) with (S b * bs) in Hrest by lia.
      apply IH in Hrest; [|lia].
      destruct Hrest as (Hres & Hoff2 & Hpause2 & Hcalls2).
      set (pause := if b + 1 <? total then [Sleep (batchDelay (List.length batch))] else []).
      assert (Hp1 : storedBatches pause = []) by (unfold pause; now destruct (_ <? _)).
      assert (Hp2 : offeredBatches pause = []) by (unfold pause; now destruct (_ <? _)).
      assert (Hp3 : Forall (fun ms => ms = 2000%Z \/ ms = 4000%Z \/ ms = batchDelay bs)
                           (pauses pause)).
      { unfold pause. destruct (Nat.ltb_spec (b + 1) total) as [Hmore|_]; [|constructor].
        constructor; [|constructor]. right; right. f_equal.
        assert (Hfull : S b * bs < List.length docs) by (apply Htotal; lia).
        unfold batch. rewrite length_firstn, length_skipn. lia. }
      rewrite !storedBatches_app, !offeredBatches_app, !pauses_app, Hp1, Hp2, Hstored.
      cbn [app concat].
      split; [|split; [|split]].
      * destruct result2 as [e|].
        -- destruct Hres as [Hrange Hpre]. split; [lia|]. rewrite Hpre.
           replace ((failedBatch e - 1 - b) * bs)
             with (bs + (failedBatch e - 1 - S b) * bs) by nia.
           rewrite firstn_add_skipn, skipn_skipn. unfold batch.
           now replace (bs + b * bs) with (S b * bs) by lia.
        -- destruct Hres as [Hall Hcount]. split; [|cbn [List.length]; lia].
           rewrite Hall. unfold batch.
           replace (S b * bs) with (bs + b * bs) by lia.
           rewrite <- skipn_skipn. apply firstn_skipn.
      * apply Forall_app. split; [exact Htried | exact Hoff2].
      * apply Forall_app. split; [exact Hwaits|]. apply Forall_app. now split.
      * rewrite length_app. lia.
Qed.

Lemma batchSizeOf_cases (n : nat) : batchSizeOf n = 10 \/ batchSizeOf n = 15.
Proof. unfold batchSizeOf. destruct (n <? 50); [auto|]. destruct (n <? 200); auto. Qed.

(** [AddDocuments] on a list that is not empty. *)
Lemma AddDocuments_rounds (st st' : Store) (docs : list Document)
    (result : option AddError) (effects : list AddEffect) :
  AddDocuments Store storeAdd st docs = (st', result, effects) ->
  let bs := batchSizeOf (List.length docs) in
  let total := (List.length docs + bs - 1) / bs in
  match result with
  | None =>
      concat (storedBatches effects) = docs /\
      List.length (storedBatches effects) = total
  | Some e =>
      1 <= failedBatch e <= total /\
      concat (storedBatches effects) = firstn ((failedBatch e - 1) * bs) docs
  end /\
  Forall (fun batch => 1 <= List.length batch <= bs) (offeredBatches effects) /\
  Forall (fun ms => ms = 2000%Z \/ ms = 4000%Z \/ ms = batchDelay bs) (pauses effects) /\
  List.length (offeredBatches effects) <= 3 * total.
Proof.
  intros Hrun bs total.
  assert (Hbs : 0 < bs) by (unfold bs; destruct (batchSizeOf_cases (List.length docs)); lia).
  unfold AddDocuments in Hrun.
  destruct (Nat.eqb_spec (List.length docs) 0) as [Hempty|Hsome].
  - injection Hrun as <- <- <-. cbn.
    assert (Hzero : total = 0).
    { unfold total. rewrite Hempty. apply Nat.div_small. lia. }
    apply length_zero_iff_nil in Hempty. subst docs. rewrite Hzero.
    repeat split; auto.
  - fold bs total in Hrun.
    pose proof (addBatches_rounds docs bs total Hbs
                  (fun b => ceil_div_spec bs (List.length docs) b Hbs)
                  (List.length docs) 0 st st' result effects) as Hspec.
    assert (Hfuel : List.length docs <= (0 + List.length docs) * bs) by nia.
    specialize (Hspec Hfuel Hrun).
    destruct result as [e|]; rewrite !Nat.sub_0_r in Hspec; cbn [skipn Nat.mul] in Hspec;
      [|exact Hspec].
    destruct Hspec as ((Hrange & Hpre) & Hrest).
    split; [split; [lia | exact Hpre] | exact Hrest].
Qed.

(** [AddDocuments] on a list that fits one batch. *)
Lemma AddDocuments_single_batch (st : Store) (docs : list Document) :
  1 <= List.length docs <= 10 ->
  AddDocuments Store storeAdd st docs =
  let '(st', err, effects) := addBatch Store storeAdd maxRetries 0 st docs None in
  (st', match err with Some errMsg => Some (mkAddError 1 errMsg) | None => None end,
   effects).
Proof.
  intros Hlen. unfold AddDocuments.
  destruct (Nat.eqb_spec (List.length docs) 0) as [|_]; [lia|].
  assert (Hbs : batchSizeOf (List.length docs) = 10).
  { unfold batchSizeOf. destruct (Nat.ltb_spec (List.length docs) 50); [reflexivity | lia]. }
  rewrite Hbs. cbv zeta.
  assert (Htotal : (List.length docs + 10 - 1) / 10 = 1).
  { symmetry. apply Nat.div_unique with (r := List.length docs - 1); lia. }
  rewrite Htotal.
  destruct (List.length docs) as [|fuel] eqn:Hn; [lia|].
  cbn [addBatches]. rewrite Hn.
  destruct (Nat.ltb_spec 0 (S fuel)) as [_|]; [|lia].
  cbv zeta. rewrite <- Hn. rewrite (batch_slice docs 0 10) by lia.
  change (skipn 0 docs) with docs. rewrite firstn_all2 by lia.
  destruct (addBatch Store storeAdd maxRetries 0 st docs None) as [[st1 err] tried].
  destruct err as [errMsg|]; [reflexivity|].
  cbn [Nat.div Nat.divmod fst Nat.add Nat.ltb Nat.leb app].
  assert (Hdone : addBatches Store storeAdd fuel 10 docs 10 1 st1 = (st1, None, [])).
  { destruct fuel as [|fuel']; [reflexivity|]. cbn [addBatches].
    destruct (Nat.ltb_spec 10 (List.length docs)) as [|_]; [lia | reflexivity]. }
  rewrite Hdone. now rewrite app_nil_r.
Qed.

End IngestionFacts.

(** X20. When [AddDocuments] succeeds, the batches the store accepted
    are, put end to end, the documents it was given, in their order and
    each once; there are as many batches as the size of the list
    requires, and no batch offered to the store is empty or longer than
    15 documents. *)
Theorem AddDocuments_stores_every_document_once :
  forall (Store : Type) (storeAdd : Store -> list Document -> Store * option string)
         (st st' : Store) (docs : list Document) (effects : list AddEffect),
    AddDocuments Store storeAdd st docs = (st', None, effects) ->
    concat (storedBatches effects) = docs /\
    List.length (storedBatches effects) =
      ((List.length docs + batchSizeOf (List.length docs) - 1) /
       batchSizeOf (List.length docs))%nat /\
    Forall (fun batch => (1 <= List.length batch <= 15)%nat) (offeredBatches effects).
Proof.
  intros Store storeAdd st st' docs effects Hrun.
  apply AddDocuments_rounds in Hrun. cbv zeta in Hrun.
  destruct Hrun as ((Hall & Hcount) & Hsizes & _).
  split; [exact Hall|]. split; [exact Hcount|].
  eapply List.Forall_impl; [|exact Hsizes]. cbn. intros batch Hb.
  destruct (batchSizeOf_cases (List.length docs)); lia.
Qed.

Lemma AddDocuments_stores_every_document_once_witness :
  concat (storedBatches
            (snd (AddDocuments _ Examples.throttledStore (0%nat, 0%nat) Examples.manyDocs)))
    = Examples.manyDocs /\
  List.length (storedBatches
                 (snd (AddDocuments _ Examples.throttledStore (0%nat, 0%nat)
                         Examples.manyDocs))) = 3%nat.
Proof.
  destruct (AddDocuments_stores_every_document_once _ Examples.throttledStore
              (0%nat, 0%nat)
              (fst (fst (AddDocuments _ Examples.throttledStore (0%nat, 0%nat)
                           Examples.manyDocs)))
              Examples.manyDocs
              (snd (AddDocuments _ Examples.throttledStore (0%nat, 0%nat)
                      Examples.manyDocs)))
    as (Hall & Hcount & _).
  - vm_compute. reflexivity.
  - split; [exact Hall | exact Hcount].
Defined.

(** X21. When [AddDocuments] fails, it names the batch that failed;
    the store has accepted exactly the batches before it, that is, the
    documents before the failed batch, in their order, and none after. *)
Theorem AddDocuments_failure_keeps_earlier_batches :
  forall (Store : Type) (storeAdd : Store -> list Document -> Store * option string)
         (st st' : Store) (docs : list Document) (e : AddError)
         (effects : list AddEffect),
    AddDocuments Store storeAdd st docs = (st', Some e, effects) ->
    (1 <= failedBatch e <=
       (List.length docs + batchSizeOf (List.length docs) - 1) /
       batchSizeOf (List.length docs))%nat /\
    concat (storedBatches effects) =
      firstn ((failedBatch e - 1) * batchSizeOf (List.length docs)) docs.
Proof.
  intros Store storeAdd st st' docs e effects Hrun.
  apply AddDocuments_rounds in Hrun. cbv zeta in Hrun. now destruct Hrun as [H _].
Qed.

Lemma AddDocuments_failure_keeps_earlier_batches_witness :
  (1 <= 1 <= (List.length Examples.manyDocs + batchSizeOf (List.length Examples.manyDocs) - 1) /
             batchSizeOf (List.length Examples.manyDocs))%nat /\
  concat (storedBatches [StoreCall (firstn 10 Examples.manyDocs) false]) =
    firstn ((1 - 1) * batchSizeOf (List.length Examples.manyDocs)) Examples.manyDocs.
Proof.
  apply (AddDocuments_failure_keeps_earlier_batches _ Examples.brokenStore 0%nat 0%nat
           Examples.manyDocs (mkAddError 1 "connection refused")
           [StoreCall (firstn 10 Examples.manyDocs) false]).
  vm_compute. reflexivity.
Defined.

(** X22. The retry loop, seen on a list that fits one batch: the store
    is offered the batch one to three times, with pauses of 2 s and
    then 4 s between the attempts; the batch is stored exactly when
    the call succeeds; the call is given up before the third attempt
    only on an error that does not read as a rate limit. *)
Theorem AddDocuments_retries_only_rate_limits :
  forall (Store : Type) (storeAdd : Store -> list Document -> Store * option string)
         (st st' : Store) (docs : list Document) (result : option AddError)
         (effects : list AddEffect),
    (1 <= List.length docs <= 10)%nat ->
    AddDocuments Store storeAdd st docs = (st', result, effects) ->
    exists k : nat,
      (1 <= k <= 3)%nat /\
      offeredBatches effects = repeat docs k /\
      pauses effects = firstn (k - 1) [2000; 4000] /\
      storedBatches effects = match result with None => [docs] | Some _ => [] end /\
      match result with
      | Some e => failedBatch e = 1%nat /\ (isRateLimit (cause e) = false \/ k = 3%nat)
      | None => True
      end.
Proof.
  intros Store storeAdd st st' docs result effects Hlen.
  rewrite (AddDocuments_single_batch Store storeAdd st docs Hlen).
  destruct (addBatch Store storeAdd maxRetries 0 st docs None) as [[st1 err] tried] eqn:Htry.
  intros [= <- <- <-].
  apply addBatch_attempts in Htry as (k & Hk & Hoff & Hpause & Hstored & Hwhy).
  exists k. destruct err as [errMsg|]; cbn [failedBatch cause]; auto 10.
Qed.

Lemma AddDocuments_retries_only_rate_limits_witness :
  exists k : nat,
    (1 <= k <= 3)%nat /\
    offeredBatches (snd (AddDocuments _ Examples.brokenStore 0%nat Examples.kbDocs)) =
      repeat Examples.kbDocs k /\
    pauses (snd (AddDocuments _ Examples.brokenStore 0%nat Examples.kbDocs)) =
      firstn (k - 1) [2000; 4000].
Proof.
  destruct (AddDocuments_retries_only_rate_limits _ Examples.brokenStore 0%nat
              (fst (fst (AddDocuments _ Examples.brokenStore 0%nat Examples.kbDocs)))
              Examples.kbDocs
              (snd (fst (AddDocuments _ Examples.brokenStore 0%nat Examples.kbDocs)))
              (snd (AddDocuments _ Examples.brokenStore 0%nat Examples.kbDocs)))
    as (k & Hk & Hoff & Hpause & _).
  - cbn. lia.
  - vm_compute. reflexivity.
  - exists k. auto.
Defined.

(** X23. Pacing of [AddDocuments]: every pause is 2 s or 4 s (between
    two attempts on a batch) or 1 s or 1.5 s (between two batches), so
    the limits of 0.5 s and 2 s on the pause between batches never
    apply; the store is called at most three times per batch; nothing
    is done for an empty list. *)
Theorem AddDocuments_pacing :
  forall (Store : Type) (storeAdd : Store -> list Document -> Store * option string)
         (st : Store) (docs : list Document),
    let effects := snd (AddDocuments Store storeAdd st docs) in
    Forall (fun ms => ms = 2000 \/ ms = 4000 \/ ms = 1000 \/ ms = 1500) (pauses effects) /\
    (List.length (offeredBatches effects) <=
       3 * ((List.length docs + batchSizeOf (List.length docs) - 1) /
            batchSizeOf (List.length docs)))%nat /\
    AddDocuments Store storeAdd st [] = (st, None, []).
Proof.
  intros Store storeAdd st docs effects.
  destruct (AddDocuments Store storeAdd st docs) as [[st' result] tr] eqn:Hrun.
  apply AddDocuments_rounds in Hrun. cbv zeta in Hrun.
  destruct Hrun as (_ & _ & Hpauses & Hcalls). subst effects. cbn [snd].
  split; [|split; [exact Hcalls | reflexivity]].
  eapply List.Forall_impl; [|exact Hpauses]. cbn. intros ms Hms.
  destruct (batchSizeOf_cases (List.length docs)) as [Hbs|Hbs]; rewrite Hbs in Hms;
    vm_compute in Hms; intuition congruence.
Qed.

(** * File administration ([server.go]) *)

Section NamingFacts.

Lemma Contains_byte (a : ascii) (s : string) : Contains s (String a "") = hasByte a s.
Proof.
  induction s as [|c s IH]; [reflexivity|]. cbn [Contains HasPrefix hasByte].
  rewrite IH. now destruct (Ascii.eqb c a).
Qed.

Lemma replaceFrom_absent (s old new : string) :
  Contains s old = false -> replaceFrom 0 s old new = s.
Proof.
  induction s as [|c s IH]; [reflexivity|]. cbn [Contains replaceFrom].
  intros H. apply orb_false_iff in H as [Hp Hc]. rewrite Hp, IH; auto.
Qed.

Lemma hasByte_replaceFrom (a : ascii) (s old new : string) :
  hasByte a s = false -> hasByte a new = false ->
  forall skip : nat, hasByte a (replaceFrom skip s old new) = false.
Proof.
  intros Hs Hn. induction s as [|c s IH]; intros skip; [reflexivity|].
  cbn [hasByte] in Hs. apply orb_false_iff in Hs as [Hc Hs].
  cbn [replaceFrom]. destruct skip as [|skip]; [|now apply IH].
  destruct (HasPrefix (String c s) old).
  - rewrite hasByte_app, Hn, IH; auto.
  - cbn [hasByte]. rewrite Hc, IH; auto.
Qed.

Lemma hasByte_replaced (a : ascii) (s new : string) :
  hasByte a new = false -> hasByte a (replaceFrom 0 s (String a "") new) = false.
Proof.
  intros Hn. induction s as [|c s IH]; [reflexivity|].
  cbn [replaceFrom HasPrefix String.length Nat.sub].
  destruct (Ascii.eqb c a) eqn:Hc.
  - rewrite hasByte_app, Hn, IH. reflexivity.
  - cbn [hasByte]. now rewrite Hc, IH.
Qed.

(** After [".."] is replaced, no two dots are adjacent. *)
Lemma no_double_dot (s : string) :
  Contains (replaceFrom 0 s ".." "_") ".." = false /\
  Contains (replaceFrom 1 s ".." "_") ".." = false /\
  (HasPrefix s "." = false -> HasPrefix (replaceFrom 0 s ".." "_") "." = false).
Proof.
  induction s as [|c s (IH0 & IH1 & IHp)]; [repeat split|].
  split; [|split].
  - cbn [replaceFrom String.length Nat.sub].
    destruct (HasPrefix (String c s) "..") eqn:Hp.
    + change ("_" ++ replaceFrom 1 s ".." "_") with (String "_" (replaceFrom 1 s ".." "_")).
      cbn [Contains]. rewrite IH1. reflexivity.
    + cbn [Contains]. rewrite IH0, orb_false_r.
      cbn [HasPrefix] in Hp |- *.
      destruct (Ascii.eqb c "."); [|reflexivity].
      specialize (IHp Hp). exact IHp.
  - cbn [replaceFrom]. exact IH0.
  - intros Hdot. cbn [replaceFrom String.length Nat.sub].
    destruct (HasPrefix (String c s) "..") eqn:Hp; [reflexivity|].
    cbn [HasPrefix] in Hdot |- *. exact Hdot.
Qed.

Lemma cleanedFilename_safe (name : string) :
  Contains (cleanedFilename name) "/" = false /\
  Contains (cleanedFilename name) backslash = false /\
  Contains (cleanedFilename name) ".." = false.
Proof.
  unfold cleanedFilename, ReplaceAll, backslash. cbv zeta.
  rewrite !Contains_byte. split; [|split].
  - apply hasByte_replaceFrom; [|reflexivity].
    apply hasByte_replaceFrom; [|reflexivity]. now apply hasByte_replaced.
  - apply hasByte_replaceFrom; [|reflexivity]. now apply hasByte_replaced.
  - apply no_double_dot.
Qed.

Lemma cleanedFilename_clean (name : string) :
  Contains name "/" = false -> Contains name backslash = false ->
  Contains name ".." = false ->
  cleanedFilename name = name.
Proof.
  intros H1 H2 H3. unfold cleanedFilename, ReplaceAll. cbv zeta.
  now rewrite (replaceFrom_absent name "/" "_" H1), (replaceFrom_absent name backslash "_" H2),
    (replaceFrom_absent name ".." "_" H3).
Qed.

Lemma indexByte_app (c : ascii) (a b : string) :
  hasByte c a = false -> indexByte c (a ++ String c b) = Some (String.length a).
Proof.
  induction a as [|x a IH]; cbn [hasByte String.append indexByte String.length].
  - intros _. now rewrite Ascii.eqb_refl.
  - intros H. apply orb_false_iff in H as [Hx Ha]. now rewrite Hx, IH.
Qed.

Lemma take_app_length (a b : string) : take (String.length a) (a ++ b) = a.
Proof. induction a as [|x a IH]; cbn; [now destruct b | now rewrite IH]. Qed.

Lemma drop_app_length (a b : string) : drop (String.length a) (a ++ b) = b.
Proof. induction a as [|x a IH]; cbn; [reflexivity | exact IH]. Qed.

Lemma uuid_prefix (fileID name : string) :
  uuidShaped fileID = true ->
  indexByte "_"%char (fileID ++ "_" ++ name) = Some 36%nat /\
  take 36 (fileID ++ "_" ++ name) = fileID /\
  drop 37 (fileID ++ "_" ++ name) = name /\
  String.length fileID = 36%nat /\
  Contains fileID "-" = true /\
  List.length (splitByte "-"%char fileID) = 5%nat.
Proof.
  unfold uuidShaped. intros H.
  apply andb_true_iff in H as [H Hu]. apply andb_true_iff in H as [H Hs].
  apply andb_true_iff in H as [Hl Hc].
  apply Nat.eqb_eq in Hl, Hs. apply negb_true_iff in Hu.
  change (fileID ++ "_" ++ name) with (fileID ++ String "_" name).
  rewrite (indexByte_app "_" fileID name Hu), <- Hl.
  rewrite take_app_length.
  replace (S (String.length fileID)) with (String.length (fileID ++ "_"))
    by (rewrite length_append'; cbn; lia).
  change (String "_" name) with ("_" ++ name). rewrite <- append_assoc'.
  rewrite drop_app_length. repeat split; auto.
Qed.

Lemma cleanedFilename_nonempty (name : string) : name <> "" -> cleanedFilename name <> "".
Proof.
  assert (Hrep : forall s old, s <> "" -> ReplaceAll s old "_" <> "").
  { intros [|c s] old Hs; [congruence|]. unfold ReplaceAll. cbn [replaceFrom].
    destruct (HasPrefix (String c s) old); discriminate. }
  intros Hn. unfold cleanedFilename. cbv zeta. auto.
Qed.

Lemma extractOriginalFilename_uuid (fileID name : string) :
  uuidShaped fileID = true -> name <> "" ->
  extractOriginalFilename (fileID ++ "_" ++ name) = name /\
  fileIDOf (fileID ++ "_" ++ name) "" = fileID.
Proof.
  intros Hu Hn. destruct (uuid_prefix fileID name Hu) as (Hi & Ht & Hd & Hl & Hc & Hs).
  unfold extractOriginalFilename, fileIDOf. rewrite Hi. cbv zeta.
  change (36 + 1)%nat with 37%nat. rewrite Ht, Hd, Hl, Hc, Hs.
  destruct (String.eqb_spec (fileID ++ "_" ++ name) "") as [E|_].
  - apply (f_equal String.length) in E. rewrite length_append' in E. cbn in E. lia.
  - destruct (String.eqb_spec name "") as [|_]; [contradiction|]. split; reflexivity.
Qed.

End NamingFacts.

(** X24. The name under which an upload is saved holds no slash, no
    backslash and no two adjacent dots, whatever name the client sent;
    cleaning a cleaned name changes nothing, and a name that holds none
    of the three is saved as it is. *)
Theorem cleanedFilename_is_safe :
  forall headerFilename : string,
    Contains (cleanedFilename headerFilename) "/" = false /\
    Contains (cleanedFilename headerFilename) backslash = false /\
    Contains (cleanedFilename headerFilename) ".." = false /\
    cleanedFilename (cleanedFilename headerFilename) = cleanedFilename headerFilename /\
    (cleanedFilename headerFilename = headerFilename \/
     Contains headerFilename "/" = true \/
     Contains headerFilename backslash = true \/
     Contains headerFilename ".." = true).
Proof.
  intros headerFilename.
  destruct (cleanedFilename_safe headerFilename) as (H1 & H2 & H3).
  repeat split; auto.
  - now apply cleanedFilename_clean.
  - destruct (Contains headerFilename "/") eqn:E1; [auto|].
    destruct (Contains headerFilename backslash) eqn:E2; [auto|].
    destruct (Contains headerFilename "..") eqn:E3; [auto|].
    left. now apply cleanedFilename_clean.
Qed.

(** X25. The name of a saved upload is read back correctly: for a
    file ID shaped like a UUID and a file name that is not empty,
    [extractOriginalFilename] returns the cleaned file name from the
    saved name, and the file ID taken from the saved name (the part
    before the first underscore) is the ID the upload generated. *)
Theorem saved_name_is_read_back :
  forall fileID headerFilename : string,
    uuidShaped fileID = true ->
    headerFilename <> "" ->
    extractOriginalFilename (savedName fileID headerFilename) =
      cleanedFilename headerFilename /\
    fileIDOf (savedName fileID headerFilename) "" = fileID.
Proof.
  intros fileID headerFilename Hu Hn. unfold savedName.
  apply extractOriginalFilename_uuid; [exact Hu | now apply cleanedFilename_nonempty].
Qed.

Lemma saved_name_is_read_back_witness :
  extractOriginalFilename (savedName Examples.someUUID "a/b..规定.txt") =
    cleanedFilename "a/b..规定.txt" /\
  fileIDOf (savedName Examples.someUUID "a/b..规定.txt") "" = Examples.someUUID.
Proof.
  apply (saved_name_is_read_back Examples.someUUID "a/b..规定.txt").
  - reflexivity.
  - discriminate.
Defined.

Section AdminFacts.

Lemma TrimPrefix_app (prefix s : string) : TrimPrefix (prefix ++ s) prefix = s.
Proof.
  unfold TrimPrefix.
  assert (H : HasPrefix (prefix ++ s) prefix = true) by (apply HasPrefix_spec; eauto).
  rewrite H. apply drop_app_length.
Qed.

Lemma TrimPrefix_cases (s prefix : string) :
  s = prefix ++ TrimPrefix s prefix \/ s = TrimPrefix s prefix.
Proof.
  unfold TrimPrefix. destruct (HasPrefix s prefix) eqn:H; [left | now right].
  apply HasPrefix_spec in H as [rest ->]. now rewrite drop_app_length.
Qed.

Lemma checkAdminAuth_sound (adminToken : string) (r : Request) :
  checkAdminAuth adminToken r = true ->
  HeaderAuthorization r = "Bearer " ++ adminToken \/
  HeaderAuthorization r = adminToken \/
  (HeaderAuthorization r = "" /\ QueryToken r = adminToken).
Proof.
  unfold checkAdminAuth. cbv zeta.
  destruct (String.eqb_spec (HeaderAuthorization r) "") as [He|Hne]; cbn [negb].
  - intros H. apply String.eqb_eq in H. auto.
  - intros H. apply String.eqb_eq in H.
    destruct (TrimPrefix_cases (HeaderAuthorization r) "Bearer ") as [E|E];
      rewrite H in E; auto.
Qed.

Variable adminToken : string.
Variable Join : string -> string -> string.
Variable statOk : string -> bool.

Lemma handleFileDelete_cases (s s' : Server) (r : Request) (reply : DeleteReply)
    (removed : list string) :
  handleFileDelete adminToken Join statOk s r = (s', reply, removed) ->
  match reply with
  | DeleteOk message =>
      Method r = "DELETE" /\
      checkAdminAuth adminToken r = true /\
      exists info : FileInfo,
        let fileID := TrimPrefix (URLPath r) "/api/files/" in
        fileID <> "" /\
        files s !! fileID = Some info /\
        s' = withFiles s (delete fileID (files s)) /\
        message = "文件 " ++ Filename info ++ " 已删除" /\
        (List.length removed <= 1)%nat /\
        Forall (fun p => statOk p = true /\
                         (p = Join (filesDir s) (fileID ++ "_" ++ Filename info) \/
                          p = Join (filesDir s) (fileID ++ Ext (Filename info))))
               removed
  | _ => s' = s /\ removed = []
  end.
Proof.
  unfold handleFileDelete.
  destruct (String.eqb_spec (Method r) "DELETE") as [Hm|_]; cbn [negb];
    [|intros [= <- <- <-]; now split].
  destruct (checkAdminAuth adminToken r) eqn:Hauth; cbn [negb];
    [|intros [= <- <- <-]; now split].
  cbv zeta.
  destruct (String.eqb_spec (TrimPrefix (URLPath r) "/api/files/") "") as [|Hid];
    [intros [= <- <- <-]; now split|].
  destruct (files s !! TrimPrefix (URLPath r) "/api/files/") as [info|] eqn:Hf;
    [|intros [= <- <- <-]; now split].
  intros [= <- <- <-]. split; [exact Hm|]. split; [reflexivity|].
  exists info. cbv zeta. repeat split; auto.
  - destruct (negb _); cbn; lia.
  - repeat match goal with
           | |- context [if statOk ?p then _ else _] => destruct (statOk p) eqn:?
           end.
    + destruct (String.eqb _ ""); cbn [negb]; [constructor|].
      constructor; [|constructor]. split; [assumption | left; reflexivity].
    + destruct (String.eqb _ ""); cbn [negb]; [constructor|].
      constructor; [|constructor]. split; [assumption | right; reflexivity].
    + cbn. constructor.
Qed.

End AdminFacts.

(** X26. [checkAdminAuth] lets a request pass only if it presents the
    administrator token: in the [Authorization] header, bare or after
    ["Bearer "], or, when there is no such header, in the [token] query
    parameter.  The header with ["Bearer "] and the query parameter
    always work; a request that presents nothing is refused as long as
    the token is not empty. *)
Theorem checkAdminAuth_accepts_only_the_token :
  forall (adminToken : string) (r : Request),
    (checkAdminAuth adminToken r = true ->
     HeaderAuthorization r = "Bearer " ++ adminToken \/
     HeaderAuthorization r = adminToken \/
     (HeaderAuthorization r = "" /\ QueryToken r = adminToken)) /\
    checkAdminAuth adminToken
      (mkRequest (Method r) (URLPath r) ("Bearer " ++ adminToken) (QueryToken r)) = true /\
    checkAdminAuth adminToken (mkRequest (Method r) (URLPath r) "" adminToken) = true /\
    (adminToken <> "" ->
     checkAdminAuth adminToken (mkRequest (Method r) (URLPath r) "" "") = false).
Proof.
  intros adminToken r. split; [apply checkAdminAuth_sound|]. split; [|split].
  - unfold checkAdminAuth. cbn [HeaderAuthorization]. cbv zeta.
    change (String.eqb ("Bearer " ++ adminToken) "") with false. cbn [negb].
    rewrite TrimPrefix_app. apply String.eqb_refl.
  - unfold checkAdminAuth. cbn. apply String.eqb_refl.
  - intros Hne. unfold checkAdminAuth. cbn.
    destruct adminToken; [congruence | reflexivity].
Qed.

Lemma checkAdminAuth_accepts_only_the_token_witness :
  (HeaderAuthorization Examples.deleteRequest = "Bearer " ++ "Zhzx@666" \/
   HeaderAuthorization Examples.deleteRequest = "Zhzx@666" \/
   (HeaderAuthorization Examples.deleteRequest = "" /\
    QueryToken Examples.deleteRequest = "Zhzx@666")) /\
  checkAdminAuth "Zhzx@666" (mkRequest "DELETE" "/api/files/f1" "" "") = false.
Proof.
  destruct (checkAdminAuth_accepts_only_the_token "Zhzx@666" Examples.deleteRequest)
    as (Hsound & _ & _ & Hnone).
  split; [apply Hsound; reflexivity | apply Hnone; discriminate].
Defined.

(** X27. [handleFileDelete] changes the server only when it answers
    with success, and then only its file table: the request was a
    DELETE carrying the administrator token, the file ID after
    [/api/files/] was in the table and is removed from it; at most one
    file is handed to [os.Remove], and it is one that exists under the
    new or the old naming scheme of that file ID.  The classification
    cache, the queue and the tasks of the workers are left as they
    are. *)
Theorem handleFileDelete_removes_one_entry :
  forall (adminToken : string) (Join : string -> string -> string)
         (statOk : string -> bool) (s s' : Server) (r : Request)
         (reply : DeleteReply) (removed : list string),
    handleFileDelete adminToken Join statOk s r = (s', reply, removed) ->
    publicFormCache s' = publicFormCache s /\
    checkQueue s' = checkQueue s /\
    inFlight s' = inFlight s /\
    match reply with
    | DeleteOk message =>
        Method r = "DELETE" /\
        checkAdminAuth adminToken r = true /\
        exists info : FileInfo,
          let fileID := TrimPrefix (URLPath r) "/api/files/" in
          fileID <> "" /\
          files s !! fileID = Some info /\
          s' = withFiles s (delete fileID (files s)) /\
          message = "文件 " ++ Filename info ++ " 已删除" /\
          (List.length removed <= 1)%nat /\
          Forall (fun p => statOk p = true /\
                           (p = Join (filesDir s) (fileID ++ "_" ++ Filename info) \/
                            p = Join (filesDir s) (fileID ++ Ext (Filename info))))
                 removed
    | _ => s' = s /\ removed = []
    end.
Proof.
  intros adminToken Join statOk s s' r reply removed Hrun.
  pose proof (handleFileDelete_cases adminToken Join statOk s s' r reply removed Hrun)
    as Hcases.
  assert (Hframe : publicFormCache s' = publicFormCache s /\
                   checkQueue s' = checkQueue s /\ inFlight s' = inFlight s).
  { destruct reply; try (destruct Hcases as [-> _]; auto).
    destruct Hcases as (_ & _ & info & _ & _ & -> & _). auto. }
  destruct Hframe as (H1 & H2 & H3). auto.
Qed.

Lemma handleFileDelete_removes_one_entry_witness :
  publicFormCache
    (fst (fst (handleFileDelete "Zhzx@666" Examples.uploadsJoin Examples.worldStat
                 Examples.cachedServer Examples.deleteRequest))) =
  publicFormCache Examples.cachedServer.
Proof.
  apply (handleFileDelete_removes_one_entry "Zhzx@666" Examples.uploadsJoin
           Examples.worldStat Examples.cachedServer
           (fst (fst (handleFileDelete "Zhzx@666" Examples.uploadsJoin Examples.worldStat
                        Examples.cachedServer Examples.deleteRequest)))
           Examples.deleteRequest
           (snd (fst (handleFileDelete "Zhzx@666" Examples.uploadsJoin Examples.worldStat
                        Examples.cachedServer Examples.deleteRequest)))
           (snd (handleFileDelete "Zhzx@666" Examples.uploadsJoin Examples.worldStat
                   Examples.cachedServer Examples.deleteRequest))).
  vm_compute. reflexivity.
Defined.

(** X28. After a file is deleted, a verdict cached for it is still
    served to requests, and a worker that classifies it anew finds it
    unknown: its verdict is negative and it touches no file. *)
Theorem deleted_file_keeps_its_verdict :
  forall (ToLower : string -> string) (adminToken : string)
         (Join : string -> string -> string) (statOk : string -> bool)
         (fileBytes : string -> option string)
         (loadFile : string -> option (list Document))
         (s s' : Server) (r : Request) (message : string) (removed : list string)
         (g : DocGroup),
    handleFileDelete adminToken Join statOk s r = (s', DeleteOk message, removed) ->
    FileID g = TrimPrefix (URLPath r) "/api/files/" ->
    checkPublicFormAsync ToLower Join statOk fileBytes loadFile s' g = (false, []) /\
    forall (during : Server -> Server) (v : bool),
      eligibleType (ToLower (FileType g)) = true ->
      publicFormCache s !! FileID g = Some v ->
      checkPublicForm ToLower during s' g = (s', withHasPublicForm g v).
Proof.
  intros ToLower adminToken Join statOk fileBytes loadFile s s' r message removed g
         Hrun Hid.
  apply handleFileDelete_cases in Hrun.
  destruct Hrun as (_ & _ & info & Hne & Hknown & -> & _).
  cbv zeta in *. rewrite <- Hid in *. split.
  - apply classify_accesses. cbn [files withFiles]. apply lookup_delete_eq.
  - intros during v Helig Hcached. now apply checkPublicForm_cached.
Qed.

Lemma deleted_file_keeps_its_verdict_witness :
  checkPublicFormAsync lowerASCII Examples.uploadsJoin Examples.worldStat
    Examples.worldBytes Examples.worldLoad
    (withFiles Examples.cachedServer (delete "f1" Examples.knownFiles)) Examples.txtGroup
    = (false, []) /\
  checkPublicForm lowerASCII (fun s => s)
    (withFiles Examples.cachedServer (delete "f1" Examples.knownFiles)) Examples.txtGroup
    = (withFiles Examples.cachedServer (delete "f1" Examples.knownFiles),
       withHasPublicForm Examples.txtGroup true).
Proof.
  destruct (deleted_file_keeps_its_verdict lowerASCII "Zhzx@666" Examples.uploadsJoin
              Examples.worldStat Examples.worldBytes Examples.worldLoad
              Examples.cachedServer
              (withFiles Examples.cachedServer (delete "f1" Examples.knownFiles))
              Examples.deleteRequest "文件 规定.txt 已删除" ["uploads/f1_规定.txt"]
              Examples.txtGroup) as [Hnew Hold].
  - vm_compute. reflexivity.
  - reflexivity.
  - split; [exact Hnew|]. apply Hold; reflexivity.
Defined.

(** * The query handler as a whole ([server.go], [handleQuery]) *)

Section HandlerFacts.

Variable ToLower : string -> string.
Variable Search : string -> Z -> option (list Document).
Variable Generate : string -> GenerateResult.
Variable classified : DocGroup -> bool.
Variable sch : Schedule.

#[local] Abbreviation handle := (handleQuery ToLower Search Generate classified sch).

Lemma respAnswer_assembleResponse (qr : QueryResult) :
  respAnswer (assembleResponse ToLower classified sch qr) = Answer qr.
Proof.
  unfold assembleResponse. destruct (fold_left mergeResult _ _) as [m sr]. reflexivity.
Qed.

Lemma handleQuery_negative (question : string) (reqTopK : Z) :
  reqTopK < 0 ->
  handle question reqTopK = ReplyBadRequest \/
  handle question reqTopK = ReplyQueryFailed ErrSearchFailed \/
  handle question reqTopK = ReplyQueryFailed ErrPanic.
Proof.
  intros Hneg. unfold handleQuery. destruct (String.eqb question ""); [now left|].
  destruct (Z.eqb_spec reqTopK 0) as [|_]; [lia|]. cbv zeta.
  unfold QueryWithResults.
  destruct (Search question (searchTopKOf reqTopK)) as [allResults|]; [|auto].
  unfold selectPassages.
  rewrite (proj2 (reRankResults_none ToLower question allResults reqTopK) Hneg). auto.
Qed.

Lemma handleQuery_answer (question : string) (reqTopK : Z) (r : QueryResponse) :
  fairSchedule sch ->
  handle question reqTopK = ReplyOk r ->
  question <> "" /\
  (r = mkQueryResponse noResultsAnswer [] [] \/
   exists passages : list Document,
     passages <> [] /\
     Generate (buildPrompt question passages) = GenerateOk (respAnswer r)).
Proof.
  intros Hfair Hok. split.
  - intros ->. unfold handleQuery in Hok. cbn in Hok. discriminate.
  - apply handleQuery_ok in Hok as (qr & Hq & ->).
    rewrite respAnswer_assembleResponse. unfold QueryWithResults in Hq.
    destruct (Search question _) as [allResults|]; [|discriminate].
    destruct (selectPassages ToLower _ question allResults) as [[|d l]|];
      [| |discriminate].
    + injection Hq as <-. left. now apply assembleResponse_no_results.
    + destruct (Generate (buildPrompt question (d :: l))) as [answer| |] eqn:Hg;
        try discriminate.
      injection Hq as <-. right. exists (d :: l). split; [discriminate | exact Hg].
Qed.

End HandlerFacts.

(** X29. The replies of the query handler: an empty question is
    refused before anything is searched; a request without [topk] is
    served as with 3; a request with a negative [topk] never succeeds
    (the search fails, or the selection panics and the handler reports
    the failure); a successful reply carries either the fixed apology
    with no passages, or the text the generator returned for the
    prompt built from the question and a non-empty list of passages. *)
Theorem handleQuery_replies :
  forall (ToLower : string -> string) (Search : string -> Z -> option (list Document))
         (Generate : string -> GenerateResult) (classified : DocGroup -> bool)
         (sch : Schedule) (question : string) (reqTopK : Z),
    handleQuery ToLower Search Generate classified sch "" reqTopK = ReplyBadRequest /\
    handleQuery ToLower Search Generate classified sch question 0 =
      handleQuery ToLower Search Generate classified sch question 3 /\
    (reqTopK < 0 ->
     handleQuery ToLower Search Generate classified sch question reqTopK = ReplyBadRequest \/
     handleQuery ToLower Search Generate classified sch question reqTopK =
       ReplyQueryFailed ErrSearchFailed \/
     handleQuery ToLower Search Generate classified sch question reqTopK =
       ReplyQueryFailed ErrPanic) /\
    (forall r : QueryResponse,
        fairSchedule sch ->
        handleQuery ToLower Search Generate classified sch question reqTopK = ReplyOk r ->
        question <> "" /\
        (r = mkQueryResponse noResultsAnswer [] [] \/
         exists passages : list Document,
           passages <> [] /\
           Generate (buildPrompt question passages) = GenerateOk (respAnswer r))).
Proof.
  intros ToLower Search Generate classified sch question reqTopK.
  split; [reflexivity|]. split; [reflexivity|]. split.
  - apply handleQuery_negative.
  - intros r. apply handleQuery_answer.
Qed.

Lemma handleQuery_replies_witness :
  (handleQuery lowerASCII Examples.kbSearch Examples.kbGenerate (fun _ => false) inOrder
     Examples.kbQuestion (-1) = ReplyBadRequest \/
   handleQuery lowerASCII Examples.kbSearch Examples.kbGenerate (fun _ => false) inOrder
     Examples.kbQuestion (-1) = ReplyQueryFailed ErrSearchFailed \/
   handleQuery lowerASCII Examples.kbSearch Examples.kbGenerate (fun _ => false) inOrder
     Examples.kbQuestion (-1) = ReplyQueryFailed ErrPanic) /\
  (Examples.kbResponse = mkQueryResponse noResultsAnswer [] [] \/
   exists passages : list Document,
     passages <> [] /\
     Examples.kbGenerate (buildPrompt Examples.kbQuestion passages) =
       GenerateOk (respAnswer Examples.kbResponse)).
Proof.
  destruct (handleQuery_replies lowerASCII Examples.kbSearch Examples.kbGenerate
              (fun _ => false) inOrder Examples.kbQuestion (-1)) as (_ & _ & Hneg & _).
  destruct (handleQuery_replies lowerASCII Examples.kbSearch Examples.kbGenerate
              (fun _ => false) inOrder Examples.kbQuestion 3) as (_ & _ & _ & Hok).
  split; [apply Hneg; lia|].
  apply (Hok Examples.kbResponse fairSchedule_inOrder). vm_compute. reflexivity.
Defined.

(** * The upload directory read back ([server.go], [loadFilesFromDisk]) *)

Section DiskFacts.

Lemma chars_app (a b : string) :
  list_ascii_of_string (a ++ b) = (list_ascii_of_string a ++ list_ascii_of_string b)%list.
Proof. induction a as [|c a IH]; cbn; [reflexivity | now rewrite IH]. Qed.

Lemma string_of_chars_app (l1 l2 : list ascii) :
  string_of_list_ascii (l1 ++ l2) = string_of_list_ascii l1 ++ string_of_list_ascii l2.
Proof. induction l1 as [|c l1 IH]; cbn; [reflexivity | now rewrite IH]. Qed.

Lemma hasByte_chars (c : ascii) (s : string) :
  hasByte c s = false -> forall x, In x (list_ascii_of_string s) -> Ascii.eqb x c = false.
Proof.
  induction s as [|d s IH]; cbn [hasByte list_ascii_of_string]; intros H x Hx;
    [destruct Hx|].
  apply orb_false_iff in H as [Hd Hs]. destruct Hx as [<-|Hx]; auto.
Qed.

Lemma extScan_no_dot (l : list ascii) :
  (forall x, In x l -> Ascii.eqb x "."%char = false) ->
  forall acc, extScan l acc = "".
Proof.
  induction l as [|c l IH]; intros Hl acc; [reflexivity|]. cbn [extScan].
  destruct (isSep c); [reflexivity|].
  rewrite (Hl c (or_introl eq_refl)). apply IH. intros x Hx. apply Hl. now right.
Qed.

Lemma extScan_app (l1 l2 : list ascii) :
  (forall acc, extScan l2 acc = "") ->
  forall acc, extScan (l1 ++ l2) acc = extScan l1 acc.
Proof.
  intros Hl2. induction l1 as [|c l1 IH]; intros acc; cbn [app extScan]; [apply Hl2|].
  destruct (isSep c); [reflexivity|]. destruct (Ascii.eqb c "."); [reflexivity | apply IH].
Qed.

(** The extension of a name is found in its part after a dot-free
    prefix. *)
Lemma Ext_app_no_dot (a b : string) : hasByte "."%char a = false -> Ext (a ++ b) = Ext b.
Proof.
  intros Ha. unfold Ext. rewrite chars_app, rev_app_distr. apply extScan_app.
  apply extScan_no_dot. intros x Hx. apply in_rev in Hx. now apply (hasByte_chars "." a).
Qed.

Lemma extScan_suffix (l : list ascii) :
  forall acc, exists base : string,
    string_of_list_ascii (rev l ++ acc) = base ++ extScan l acc.
Proof.
  induction l as [|c l IH]; intros acc; cbn [rev extScan].
  - exists (string_of_list_ascii acc). cbn [app]. now rewrite append_empty_r.
  - rewrite <- app_assoc. cbn [app].
    destruct (isSep c).
    + exists (string_of_list_ascii (rev l ++ c :: acc)). now rewrite append_empty_r.
    + destruct (Ascii.eqb c ".").
      * exists (string_of_list_ascii (rev l)). apply string_of_chars_app.
      * apply IH.
Qed.

(** The extension is a suffix of the name. *)
Lemma Ext_suffix (name : string) : exists base : string, name = base ++ Ext name.
Proof.
  destruct (extScan_suffix (rev (list_ascii_of_string name)) []) as [base Hb].
  exists base. unfold Ext. rewrite <- Hb, rev_involutive, app_nil_r.
  symmetry. apply string_of_list_ascii_of_string.
Qed.

Lemma TrimSuffix_app (a b : string) : TrimSuffix (a ++ b) b = a.
Proof.
  unfold TrimSuffix, HasSuffix. rewrite length_append'.
  replace (String.length a + String.length b - String.length b)%nat
    with (String.length a) by lia.
  rewrite drop_app_length, String.eqb_refl, take_app_length.
  destruct (Nat.leb_spec (String.length b) (String.length a + String.length b));
    [reflexivity | lia].
Qed.

(** The name of a saved upload is taken apart into its two parts. *)
Lemma diskEntry_saved (fileID name : string) :
  fileID <> "" -> hasByte "_"%char fileID = false -> hasByte "."%char fileID = false ->
  diskEntry (fileID ++ "_" ++ name) = (fileID, name).
Proof.
  intros Hne Hu Hd. unfold diskEntry. cbv zeta.
  destruct (Ext_suffix name) as [base Hbase].
  assert (Hext : Ext (fileID ++ "_" ++ name) = Ext name).
  { rewrite <- append_assoc'. apply Ext_app_no_dot.
    rewrite hasByte_app, Hd. reflexivity. }
  rewrite Hext.
  assert (Hwhole : fileID ++ "_" ++ name = (fileID ++ "_" ++ base) ++ Ext name).
  { rewrite Hbase at 1. now rewrite !append_assoc'. }
  rewrite Hwhole, TrimSuffix_app.
  change (fileID ++ "_" ++ base) with (fileID ++ String "_" base).
  rewrite (indexByte_app "_" fileID base Hu).
  destruct (String.length fileID) as [|n] eqn:Hlen.
  { destruct fileID; [congruence | discriminate]. }
  rewrite <- Hlen, take_app_length.
  replace (String.length fileID + 1)%nat with (String.length (fileID ++ "_"))
    by (rewrite length_append'; reflexivity).
  change (String "_" base) with ("_" ++ base). rewrite <- append_assoc', drop_app_length.
  now rewrite <- Hbase.
Qed.

Lemma loadEntry_keeps (fs : gmap string FileInfo) (entry : DirEntry)
    (fileID : string) (info : FileInfo) :
  fs !! fileID = Some info -> loadEntry fs entry !! fileID = Some info.
Proof.
  intros H. unfold loadEntry. destruct (entryIsDir entry); [exact H|]. cbv zeta.
  destruct (isSystemFile _); [exact H|]. destruct (negb _); [exact H|].
  destruct (diskEntry _) as [id name]. destruct (fs !! id) eqn:Hid; [exact H|].
  rewrite lookup_insert_ne; [exact H | congruence].
Qed.

Lemma loadEntry_other (fs : gmap string FileInfo) (entry : DirEntry) (fileID : string) :
  fst (diskEntry (entryName entry)) <> fileID ->
  loadEntry fs entry !! fileID = fs !! fileID.
Proof.
  intros H. unfold loadEntry. destruct (entryIsDir entry); [reflexivity|]. cbv zeta.
  destruct (isSystemFile _); [reflexivity|]. destruct (negb _); [reflexivity|].
  destruct (diskEntry _) as [id name]. cbn [fst] in H.
  destruct (fs !! id); [reflexivity|]. now rewrite lookup_insert_ne.
Qed.

Lemma loadEntries_keep (entries : list DirEntry) :
  forall (fs : gmap string FileInfo) (fileID : string) (info : FileInfo),
    fs !! fileID = Some info -> fold_left loadEntry entries fs !! fileID = Some info.
Proof.
  induction entries as [|e entries IH]; intros fs fileID info H; [exact H|].
  cbn [fold_left]. apply IH. now apply loadEntry_keeps.
Qed.

Lemma loadEntries_add (entries : list DirEntry) :
  forall (fs : gmap string FileInfo) (entry : DirEntry),
    NoDup (map (fun e => fst (diskEntry (entryName e))) entries) ->
    In entry entries ->
    entryIsDir entry = false -> isSystemFile (entryName entry) = false ->
    entryInfoOk entry = true ->
    fs !! fst (diskEntry (entryName entry)) = None ->
    fold_left loadEntry entries fs !! fst (diskEntry (entryName entry)) =
    Some (mkFileInfo (fst (diskEntry (entryName entry)))
                     (snd (diskEntry (entryName entry)))).
Proof.
  induction entries as [|e entries IH]; intros fs entry Hnd Hin Hdir Hsys Hinfo Hnew;
    [destruct Hin|].
  cbn [map] in Hnd. apply NoDup_cons in Hnd as [Hfirst Hnd]. cbn [fold_left].
  destruct Hin as [->|Hin].
  - apply loadEntries_keep. unfold loadEntry. rewrite Hdir. cbv zeta.
    rewrite Hsys, Hinfo. cbn [negb].
    destruct (diskEntry (entryName entry)) as [id name]. cbn [fst snd] in *.
    rewrite Hnew. apply lookup_insert_eq.
  - apply IH; auto. rewrite loadEntry_other; [exact Hnew|].
    intros Heq. apply Hfirst. rewrite Heq. apply list_elem_of_In.
    apply (in_map (fun e => fst (diskEntry (entryName e)))). exact Hin.
Qed.

End DiskFacts.

(** X30. [loadFilesFromDisk] changes nothing but the file table, and
    never replaces or removes an entry of it.  For a regular file
    saved by an upload, in a directory whose entries yield pairwise
    different file IDs, it adds, when the file ID is not yet in the
    table, an entry with that file ID and the cleaned file name: the
    two parts of the saved name are recovered. *)
Theorem loadFilesFromDisk_recovers_uploads :
  forall (readDir : option (list DirEntry)) (s : Server),
    let s' := loadFilesFromDisk readDir s in
    publicFormCache s' = publicFormCache s /\
    checkQueue s' = checkQueue s /\
    inFlight s' = inFlight s /\
    filesDir s' = filesDir s /\
    (forall (fileID : string) (info : FileInfo),
        files s !! fileID = Some info -> files s' !! fileID = Some info) /\
    (forall (entries : list DirEntry) (fileID headerFilename : string),
        readDir = Some entries ->
        NoDup (map (fun e => fst (diskEntry (entryName e))) entries) ->
        In (mkDirEntry (savedName fileID headerFilename) false true) entries ->
        isSystemFile (savedName fileID headerFilename) = false ->
        fileID <> "" ->
        hasByte "_"%char fileID = false ->
        hasByte "."%char fileID = false ->
        files s !! fileID = None ->
        files s' !! fileID = Some (mkFileInfo fileID (cleanedFilename headerFilename))).
Proof.
  intros readDir s s'. subst s'. destruct readDir as [entries|]; cbn [loadFilesFromDisk].
  - repeat split; try reflexivity.
    + intros fileID info. cbn [files withFiles]. apply loadEntries_keep.
    + intros entries' fileID headerFilename [= <-] Hnd Hin Hsys Hne Hu Hd Hnew.
      cbn [files withFiles].
      pose proof (diskEntry_saved fileID (cleanedFilename headerFilename) Hne Hu Hd) as Hparse.
      fold (savedName fileID headerFilename) in Hparse.
      pose proof (loadEntries_add entries (files s)
                    (mkDirEntry (savedName fileID headerFilename) false true)
                    Hnd Hin eq_refl Hsys eq_refl) as Hadd.
      cbn [entryName] in Hadd. rewrite Hparse in Hadd. cbn [fst snd] in Hadd. auto.
  - repeat split; auto. intros entries fileID headerFilename H. discriminate H.
Qed.

Lemma loadFilesFromDisk_recovers_uploads_witness :
  files (loadFilesFromDisk (Some Examples.uploadsListing) Examples.cachedServer)
    !! "f1" = Some (mkFileInfo "f1" "规定.txt") /\
  files (loadFilesFromDisk (Some Examples.uploadsListing) Examples.cachedServer)
    !! Examples.someUUID =
    Some (mkFileInfo Examples.someUUID (cleanedFilename "年度..报告.v2.pdf")).
Proof.
  destruct (loadFilesFromDisk_recovers_uploads (Some Examples.uploadsListing)
              Examples.cachedServer) as (_ & _ & _ & _ & Hkeep & Hadd).
  split.
  - apply Hkeep. reflexivity.
  - apply (Hadd Examples.uploadsListing Examples.someUUID "年度..报告.v2.pdf").
    + reflexivity.
    + assert (Hids : map (fun e => fst (diskEntry (entryName e))) Examples.uploadsListing =
                     [""; "failed"; Examples.someUUID]) by (vm_compute; reflexivity).
      rewrite Hids.
      repeat (constructor;
              [rewrite list_elem_of_In; cbn; unfold Examples.someUUID;
               intuition discriminate|]).
      constructor.
    + right; right; left. reflexivity.
    + reflexivity.
    + discriminate.
    + reflexivity.
    + reflexivity.
    + reflexivity.
Defined.
